(** * Market insight agent: signal detection and consensus engine

    A shallow embedding of the algorithmic core of the three analysis
    modules of the agent,

      - [modules/cme_volume.py]      (class [CMEVolumeTracker]),
      - [modules/news_sentiment.py]  (class [NewsScraperSentiment]),
      - [modules/macro_sentiment.py] (class [MacroSentimentAnalyzer]),

    followed by the properties of the written specification that concern
    them.

    Conventions of the embedding.

    - Python [int]s are [Z] (or [nat] for counters that start at zero and
      are only incremented).
    - Python/NumPy floats are modelled by [float64] below: a finite value
      is the rational number it stands for, and the three exceptional
      values of IEEE-754 that the code can produce (plus and minus
      infinity, NaN) are explicit constructors.  [round64] rounds a
      rational to the nearest double (ties to even, with subnormals and
      overflow), which is what every arithmetic operation on doubles does
      to its exact result.  The statements on the value of a computed
      float (a ratio, a percentage, a spread) are made on the functions
      that round; where a statement depends only on signs, comparisons and
      exceptional values, the detectors are also read with exact
      quotients ([fdiv], [CMEVolume.mean]).
    - A [datetime] is a number of microseconds; a calendar string
      ["YYYY-MM-DD"] of the configuration is represented by its proleptic
      Gregorian ordinal (what [date.toordinal()] returns) and
      [strptime] maps it to midnight of that day.
    - Dictionaries with a fixed set of literal keys are records, possibly
      with optional fields; dictionaries keyed by data are [gmap]s, or
      association lists in insertion order where the code iterates over
      them.
    - A Python exception is a value [Raise e] of the type [result]. *)

From Stdlib Require Import ZArith QArith Qabs Qround Qpower Lia Lqa DecimalString.
From Stdlib Require Import Floats.SpecFloat.
From Stdlib Require Import Sorting.Permutation.
From stdpp Require Import gmap strings list sorting.

Local Open Scope Z_scope.

(** ** Floats and exceptions *)

Inductive float64 : Type :=
| Finite (q : Q)
| PosInf
| NegInf
| NaN.

Inductive exn : Type :=
| ValueError
| KeyError.

Inductive result (A : Type) : Type :=
| Ok (a : A)
| Raise (e : exn).

Arguments Ok {A} a.
Arguments Raise {A} e.

Definition Qltb (x y : Q) : bool := negb (Qle_bool y x).


(** [v / a] for an integer column [v] and a float column [a], as NumPy
    computes it: division by zero gives an infinity of the sign of the
    numerator, [0 / 0] gives NaN, and NaN propagates.  The quotient of
    two finite numbers is kept exact here; [truediv] below rounds it. *)
Definition fdiv (v : Z) (a : float64) : float64 :=
  match a with
  | Finite m =>
      if Qeq_bool m 0 then
        if 0 <? v then PosInf else if v <? 0 then NegInf else NaN
      else Finite (inject_Z v / m)
  | PosInf | NegInf => Finite 0
  | NaN => NaN
  end.

(** [x > t] on floats: every comparison with NaN is false. *)
Definition fgt (x : float64) (t : Q) : bool :=
  match x with
  | Finite q => Qltb t q
  | PosInf => true
  | NegInf => false
  | NaN => false
  end.

(** *** Rounding to binary64

    A double is [m * 2^e] for integers [|m| < 2^53] and [-1074 <= e].  A
    non-zero rational [q] lies in one binade, [2^k <= |q| < 2^(k+1)], and is
    rounded to the nearest multiple of the unit in the last place of that
    binade, [2^(k-52)] (or [2^-1074] in the subnormal range), a tie going
    to the even multiple. *)

Definition pow2 (k : Z) : Q := (2 ^ k)%Q.

(** [floor (log2 q)] for [q > 0]. *)
Definition ilog2 (q : Q) : Z :=
  let k := Z.log2 (Qnum q) - Z.log2 (Zpos (Qden q)) in
  if Qle_bool (pow2 k) q then k else k - 1.

(** The nearest integer, ties to even. *)
Definition rne (q : Q) : Z :=
  let f := Qfloor q in
  match (q - inject_Z f ?= 1 # 2)%Q with
  | Lt => f
  | Gt => f + 1
  | Eq => if Z.even f then f else f + 1
  end.

Definition ulp_exponent (q : Q) : Z := Z.max (ilog2 q - 52) (-1074).

Definition round_pos (q : Q) : Q :=
  let e := ulp_exponent q in
  (inject_Z (rne (q / pow2 e)) * pow2 e)%Q.

(** The rounded value as a reduced fraction, before the test of overflow. *)
Definition round_fin (q : Q) : Q :=
  Qred (if Qltb q 0 then - round_pos (- q) else round_pos q).

(** The double nearest to [q]: the result overflows to an infinity when the
    rounded value reaches [2^1024]. *)
Definition round64 (q : Q) : float64 :=
  let r := round_fin q in
  if Qle_bool (pow2 1024) r then PosInf
  else if Qle_bool r (- pow2 1024) then NegInf
  else Finite r.

(** [float(v)] on an integer, as NumPy converts an integer column. *)
Definition of_int (v : Z) : float64 := round64 (inject_Z v).

(** [x / y] on two doubles, as NumPy computes it: the exact quotient is
    rounded; a non-zero number over zero is an infinity, [0 / 0] and
    [inf / inf] are NaN.  (Zero is taken as [+0].) *)
Definition truediv (x y : float64) : float64 :=
  match x, y with
  | NaN, _ | _, NaN => NaN
  | Finite a, Finite b =>
      if Qeq_bool b 0 then
        if Qltb 0 a then PosInf else if Qltb a 0 then NegInf else NaN
      else round64 (a / b)
  | Finite _, (PosInf | NegInf) => Finite 0
  | PosInf, Finite b => if Qltb b 0 then NegInf else PosInf
  | NegInf, Finite b => if Qltb b 0 then PosInf else NegInf
  | (PosInf | NegInf), (PosInf | NegInf) => NaN
  end.

(** The value of a float of the specification of IEEE-754 in the Standard
    Library ([SpecFloat], with 53 bits of precision and the exponent bound
    1024 for binary64), and the equality of two values; they serve to
    compare [round64] and [truediv] with that specification on samples. *)
Definition of_spec_float (x : spec_float) : float64 :=
  match x with
  | S754_zero _ => Finite 0
  | S754_infinity s => if s then NegInf else PosInf
  | S754_nan => NaN
  | S754_finite s m e =>
      Finite ((if s then -1 else 1) * inject_Z (Zpos m) * pow2 e)%Q
  end.

Definition float_eqb (x y : float64) : bool :=
  match x, y with
  | Finite a, Finite b => Qeq_bool a b
  | PosInf, PosInf | NegInf, NegInf | NaN, NaN => true
  | _, _ => false
  end.

Definition spec_of_int (v : Z) : spec_float := binary_normalize 53 1024 v 0 false.

(** [x > y] on two doubles. *)
Definition float_gt (x y : float64) : bool :=
  match x, y with
  | NaN, _ | _, NaN => false
  | _, PosInf => false
  | PosInf, _ => true
  | NegInf, _ => false
  | Finite _, NegInf => true
  | Finite a, Finite b => Qltb b a
  end.

(** ** modules/cme_volume.py *)

Module CMEVolume.

(** Time. *)
Definition datetime : Type := Z.
Definition us_per_day : Z := 86400000000.

(** [datetime.strptime(s, "%Y-%m-%d")] on the ordinal of [s]. *)
Definition strptime (ordinal : Z) : datetime := ordinal * us_per_day.

(** [td.days] of a [timedelta]: the floor of the difference in days. *)
Definition days (td : Z) : Z := td / us_per_day.

(** Configuration ([self.config]). *)
Record thresholds_t : Type := {
  volume_spike : Q;
  oi_change : Q;
  alert_period : Z
}.

Record season : Type := {
  season_start : Z;
  season_end : Z;
  season_description : string
}.

Record release : Type := {
  release_date : Z;
  release_description : string
}.

Record economic_calendar_t : Type := {
  fomc_meetings : list Z;
  earnings_seasons : list season;
  economic_releases : list release
}.

Record config_t : Type := {
  contracts : list (string * string);
  thresholds : thresholds_t;
  economic_calendar : economic_calendar_t
}.

(** The content of a custom configuration file: any subset of the
    top-level keys. *)
Record custom_config : Type := {
  custom_contracts : option (list (string * string));
  custom_thresholds : option thresholds_t;
  custom_economic_calendar : option economic_calendar_t
}.

Definition default_config : config_t := {|
  contracts := [("ES", "E-mini S&P 500"); ("NQ", "E-mini Nasdaq-100");
                ("YM", "E-mini Dow")]%string;
  thresholds := {| volume_spike := 3 # 2; oi_change := 1 # 10;
                   alert_period := 7 |};
  economic_calendar := {|
    fomc_meetings := [739371; 739413; 739462; 739511; 739560; 739602];
    earnings_seasons :=
      [ {| season_start := 739356; season_end := 739386;
           season_description := "Q1 2025 Earnings" |};
        {| season_start := 739447; season_end := 739478;
           season_description := "Q2 2025 Earnings" |};
        {| season_start := 739539; season_end := 739570;
           season_description := "Q3 2025 Earnings" |};
        {| season_start := 739631; season_end := 739662;
           season_description := "Q4 2025 Earnings" |} ];
    economic_releases :=
      [ {| release_date := 739351; release_description := "CPI Release" |};
        {| release_date := 739358;
           release_description := "Initial Jobless Claims" |};
        {| release_date := 739366; release_description := "GDP Release" |};
        {| release_date := 739374;
           release_description := "Non-Farm Payrolls" |} ]
  |}
|}.

(** [self.config.update(custom_config)]: a top-level key of the custom
    configuration replaces the default one as a whole. *)
Definition config_update (c : config_t) (u : custom_config) : config_t := {|
  contracts := default (contracts c) (custom_contracts u);
  thresholds := default (thresholds c) (custom_thresholds u);
  economic_calendar := default (economic_calendar c) (custom_economic_calendar u)
|}.

(** One row of the volume data frame (the columns the detector reads). *)
Record volume_row : Type := {
  date : datetime;
  volume : Z
}.

Record CMEVolumeTracker : Type := {
  config : config_t;
  volume_data : gmap string (list volume_row)
}.

(** [__init__]: the argument is the parsed custom configuration, [None]
    when no path is given or the file does not exist. *)
Definition init (custom : option custom_config) : CMEVolumeTracker := {|
  config := match custom with
            | Some u => config_update default_config u
            | None => default_config
            end;
  volume_data := ∅
|}.

(** What [fetch_cme_data] does to the tracker: [self.volume_data[contract] = volume_df]. *)
Definition store_volume (self : CMEVolumeTracker) (contract : string)
    (df : list volume_row) : CMEVolumeTracker := {|
  config := config self;
  volume_data := <[contract := df]> (volume_data self)
|}.

(** [df.sort_values('date')]: the rows in ascending order of their dates.
    Rows of equal dates keep their order here, which the default sorting
    algorithm of pandas does not promise; the frames of distinct dates have
    one sorted order only. *)
Fixpoint insert_by_date (r : volume_row) (l : list volume_row) : list volume_row :=
  match l with
  | [] => [r]
  | r' :: l' =>
      if date r <=? date r' then r :: l else r' :: insert_by_date r l'
  end.

Definition sort_values (df : list volume_row) : list volume_row :=
  foldr insert_by_date [] df.

(** [Series.rolling(window, min_periods).mean()].  The window of position
    [i] is the slice [xs[max(0, i+1-window) : i+1]]; with fewer than
    [min_periods] observations the result is NaN. *)
Definition window_at (window : nat) (xs : list Z) (i : nat) : list Z :=
  drop (S i - window) (take (S i) xs).

Definition sum_Z (l : list Z) : Z := foldr Z.add 0 l.

(** The exact mean of a window; [CMEVolume64.mean] is the double that
    pandas computes. *)
Definition mean (l : list Z) : Q :=
  (inject_Z (sum_Z l) / inject_Z (Z.of_nat (length l)))%Q.

Definition rolling_mean (window min_periods : nat) (xs : list Z) : list float64 :=
  (fun i =>
     let win := window_at window xs i in
     if (length win <? min_periods)%nat then NaN else Finite (mean win))
    <$> seq 0 (length xs).

(** The argument check of [rolling]: pandas raises [ValueError] unless
    [min_periods <= window]. *)
Definition rolling (window : Z) (min_periods : nat) : result nat :=
  if window <? Z.of_nat min_periods then Raise ValueError
  else Ok (Z.to_nat window).

(** A row of [volume_df] once the two computed columns are added;
    [sr_pos] is its position in date order. *)
Record scored_row : Type := {
  sr_pos : nat;
  sr_row : volume_row;
  avg_volume : float64;
  volume_ratio : float64
}.

Definition add_columns (window : nat) (volume_df : list volume_row) : list scored_row :=
  let avg := rolling_mean window 1 (volume <$> volume_df) in
  imap (fun i r =>
          let a := default NaN (avg !! i) in
          {| sr_pos := i; sr_row := r; avg_volume := a;
             volume_ratio := fdiv (volume r) a |})
       volume_df.

(** [volume_df[volume_df['volume_ratio'] > threshold]]. *)
Definition spike_df (window : nat) (threshold : Q) (volume_df : list volume_row)
    : list scored_row :=
  List.filter (fun s => fgt (volume_ratio s) threshold) (add_columns window volume_df).

Record spike_event : Type := {
  ev_date : datetime;
  ev_contract : string;
  ev_volume : Z;
  ev_avg_volume : float64;
  ev_ratio : float64;
  ev_type : string
}.

Definition format_event (contract : string) (s : scored_row) : spike_event := {|
  ev_date := date (sr_row s);
  ev_contract := contract;
  ev_volume := volume (sr_row s);
  ev_avg_volume := avg_volume s;
  ev_ratio := volume_ratio s;
  ev_type := "volume_spike"
|}.

Definition detect_volume_spikes (self : CMEVolumeTracker) (contract : string)
    (lookback_period : Z) : result (list spike_event) :=
  match volume_data self !! contract with
  | None => Ok []
  | Some df =>
      let volume_df := sort_values df in
      match rolling lookback_period 1 with
      | Raise e => Raise e
      | Ok window =>
          let threshold := volume_spike (thresholds (config self)) in
          Ok (format_event contract <$> spike_df window threshold volume_df)
      end
  end.

(** Result of [check_economic_events]. *)
Inductive nearby_event : Type :=
| FOMC_Meeting (fomc_date : Z) (days_away : Z)
| Earnings_Season (description : string) (start_date end_date : Z)
| Upcoming_Earnings_Season (description : string) (start_date : Z) (days_away : Z)
| Economic_Release (description : string) (rel_date : Z) (days_away : Z).

Definition check_fomc (d : datetime) (fomc_date : Z) : list nearby_event :=
  let days_diff := Z.abs (days (d - strptime fomc_date)) in
  if days_diff <=? 3 then [FOMC_Meeting fomc_date days_diff] else [].

Definition check_season (d : datetime) (s : season) : list nearby_event :=
  let start_date := strptime (season_start s) in
  let end_date := strptime (season_end s) in
  if (start_date <=? d) && (d <=? end_date) then
    [Earnings_Season (season_description s) (season_start s) (season_end s)]
  else if Z.abs (days (d - start_date)) <=? 5 then
    [Upcoming_Earnings_Season (season_description s) (season_start s)
       (days (start_date - d))]
  else [].

Definition check_release (d : datetime) (r : release) : list nearby_event :=
  let days_diff := Z.abs (days (d - strptime (release_date r))) in
  if days_diff <=? 2 then
    [Economic_Release (release_description r) (release_date r) days_diff]
  else [].

Definition check_economic_events (self : CMEVolumeTracker) (d : datetime)
    : list nearby_event :=
  let cal := economic_calendar (config self) in
  (fomc_meetings cal ≫= check_fomc d)
    ++ (earnings_seasons cal ≫= check_season d)
    ++ (economic_releases cal ≫= check_release d).

(** *** Open interest *)

(** One row of the open-interest data frame. *)
Record oi_row : Type := {
  oi_date : datetime;
  open_interest : Q;
  change : Z
}.

(** The tracker with the two attributes that the detector of volume spikes
    does not read: [self.oi_data] and [self.alerts] (a list of alerts, of
    the type [A] here). *)
Record tracker_state (A : Type) : Type := {
  tracker : CMEVolumeTracker;
  oi_data : gmap string (list oi_row);
  alerts : list A
}.

Arguments tracker {A} _.
Arguments oi_data {A} _.
Arguments alerts {A} _.

(** [oi_df.sort_values('date')], with the same reading of equal dates as
    [sort_values]. *)
Fixpoint insert_oi_by_date (r : oi_row) (l : list oi_row) : list oi_row :=
  match l with
  | [] => [r]
  | r' :: l' =>
      if oi_date r <=? oi_date r' then r :: l else r' :: insert_oi_by_date r l'
  end.

Definition sort_oi_values (df : list oi_row) : list oi_row :=
  foldr insert_oi_by_date [] df.

(** [Series.shift(1)] on a column of numbers: the first entry is NaN. *)
Definition shift1 (xs : list Q) : list float64 :=
  take (length xs) (NaN :: (Finite <$> xs)).

(** [abs] on floats. *)
Definition fabs (x : float64) : float64 :=
  match x with
  | Finite q => Finite (Qabs q)
  | PosInf | NegInf => PosInf
  | NaN => NaN
  end.

(** A row of [oi_df] with the computed column [pct_change]. *)
Record oi_scored : Type := {
  os_pos : nat;
  os_row : oi_row;
  pct_change : float64
}.

Definition add_pct_change (oi_df : list oi_row) : list oi_scored :=
  let prev := shift1 (open_interest <$> oi_df) in
  imap (fun i r =>
          {| os_pos := i; os_row := r;
             pct_change := fdiv (change r) (default NaN (prev !! i)) |})
       oi_df.

(** [oi_df[abs(oi_df['pct_change']) > threshold]]. *)
Definition change_df (threshold : Q) (oi_df : list oi_row) : list oi_scored :=
  List.filter (fun s => fgt (fabs (pct_change s)) threshold) (add_pct_change oi_df).

Inductive oi_direction : Type := increase | decrease.

Record oi_event : Type := {
  oe_date : datetime;
  oe_contract : string;
  oe_open_interest : Q;
  oe_change : Z;
  oe_pct_change : float64;
  oe_type : string;
  oe_direction : oi_direction
}.

Definition format_oi_event (contract : string) (s : oi_scored) : oi_event := {|
  oe_date := oi_date (os_row s);
  oe_contract := contract;
  oe_open_interest := open_interest (os_row s);
  oe_change := change (os_row s);
  oe_pct_change := pct_change s;
  oe_type := "oi_change";
  oe_direction := if 0 <? change (os_row s) then increase else decrease
|}.

(** [detect_oi_changes]; [threshold] is [None] for the default argument. *)
Definition detect_oi_changes {A : Type} (self : tracker_state A) (contract : string)
    (threshold : option Q) : list oi_event :=
  match oi_data self !! contract with
  | None => []
  | Some df =>
      let oi_df := sort_oi_values df in
      let threshold :=
        match threshold with
        | None => oi_change (thresholds (config (tracker self)))
        | Some t => t
        end in
      format_oi_event contract <$> change_df threshold oi_df
  end.

(** *** Alerts *)

(** An event of either detector. *)
Inductive cme_event : Type :=
| Volume_spike (e : spike_event)
| OI_change (e : oi_event).

(** [event['date']], [event['contract']], [event['type']]. *)
Definition event_date (e : cme_event) : datetime :=
  match e with Volume_spike e => ev_date e | OI_change e => oe_date e end.

Definition event_contract (e : cme_event) : string :=
  match e with Volume_spike e => ev_contract e | OI_change e => oe_contract e end.

Definition event_type (e : cme_event) : string :=
  match e with Volume_spike e => ev_type e | OI_change e => oe_type e end.

(** An alert; [al_economic_context] is also what the loop stores in the
    event under ['economic_events']. *)
Record alert : Type := {
  al_date : datetime;
  al_contract : string;
  al_event_type : string;
  al_message : string;
  al_details : cme_event;
  al_economic_context : list nearby_event
}.

(** [events.sort(key=lambda x: x['date'], reverse=True)]: stable, latest
    first. *)
Fixpoint insert_event_desc (e : cme_event) (l : list cme_event) : list cme_event :=
  match l with
  | [] => [e]
  | e' :: l' =>
      if event_date e' <=? event_date e then e :: l
      else e' :: insert_event_desc e l'
  end.

Definition sort_events_desc (l : list cme_event) : list cme_event :=
  foldr insert_event_desc [] l.

Section Alerts.

(** The two data frames that the mock generator of [fetch_cme_data] draws
    for a contract. *)
Variable mock_data : string -> list volume_row * list oi_row.

(** The text that [_create_alert_message] builds from the name of the
    contract, the event and its economic events. *)
Variable render_message : string -> cme_event -> list nearby_event -> string.

(** [fetch_cme_data(contract)]: nothing is stored for a contract that is
    not configured. *)
Definition fetch_cme_data (self : tracker_state alert) (contract : string)
    : tracker_state alert :=
  if bool_decide (contract ∈ (contracts (config (tracker self))).*1) then
    {| tracker := store_volume (tracker self) contract (fst (mock_data contract));
       oi_data := <[contract := snd (mock_data contract)]> (oi_data self);
       alerts := alerts self |}
  else self.

(** [_create_alert_message(event)]: the name of the contract is looked up
    first, [self.config["contracts"][event['contract']]["name"]]. *)
Definition _create_alert_message (self : tracker_state alert) (event : cme_event)
    (economic_events : list nearby_event) : result string :=
  match list_find (fun c => fst c = event_contract event)
          (contracts (config (tracker self))) with
  | None => Raise KeyError
  | Some (_, c) => Ok (render_message (snd c) event economic_events)
  end.

(** The body of the loop "Check for economic events", for one event. *)
Definition make_alert (self : tracker_state alert) (contract : string)
    (event : cme_event) : result alert :=
  let economic_events := check_economic_events (tracker self) (event_date event) in
  match _create_alert_message self event economic_events with
  | Raise e => Raise e
  | Ok alert_message =>
      Ok {| al_date := event_date event;
            al_contract := contract;
            al_event_type := event_type event;
            al_message := alert_message;
            al_details := event;
            al_economic_context := economic_events |}
  end.

Fixpoint make_alerts (self : tracker_state alert) (contract : string)
    (recent_events : list cme_event) : result (list alert) :=
  match recent_events with
  | [] => Ok []
  | event :: rest =>
      match make_alert self contract event with
      | Raise e => Raise e
      | Ok a =>
          match make_alerts self contract rest with
          | Raise e => Raise e
          | Ok l => Ok (a :: l)
          end
      end
  end.

(** The events of one contract, latest first. *)
Definition contract_events (self : tracker_state alert) (contract : string)
    : result (list cme_event) :=
  match detect_volume_spikes (tracker self) contract 10 with
  | Raise e => Raise e
  | Ok volume_spikes =>
      let oi_changes := detect_oi_changes self contract None in
      Ok (sort_events_desc
            ((Volume_spike <$> volume_spikes) ++ (OI_change <$> oi_changes)))
  end.

(** The loop over the contracts; [now] is [datetime.now()].  The result is
    the tracker, which keeps what was fetched, and [all_alerts] or the
    exception raised. *)
Fixpoint alerts_loop (now : datetime) (self : tracker_state alert)
    (contracts : list string) (all_alerts : list alert)
    : tracker_state alert * result (list alert) :=
  match contracts with
  | [] => (self, Ok all_alerts)
  | contract :: rest =>
      let self :=
        if bool_decide (is_Some (volume_data (tracker self) !! contract))
           && bool_decide (is_Some (oi_data self !! contract))
        then self else fetch_cme_data self contract in
      match contract_events self contract with
      | Raise e => (self, Raise e)
      | Ok events =>
          let cutoff_date :=
            now - alert_period (thresholds (config (tracker self))) * us_per_day in
          let recent_events :=
            List.filter (fun e => cutoff_date <? event_date e) events in
          match make_alerts self contract recent_events with
          | Raise e => (self, Raise e)
          | Ok new_alerts => alerts_loop now self rest (all_alerts ++ new_alerts)
          end
      end
  end.

(** [generate_alerts(contracts)]; [None] stands for the default argument.
    On success the alerts are stored in [self.alerts]. *)
Definition generate_alerts (now : datetime) (self : tracker_state alert)
    (contracts_arg : option (list string))
    : tracker_state alert * result (list alert) :=
  let contracts :=
    match contracts_arg with
    | None => (contracts (config (tracker self))).*1
    | Some l => l
    end in
  match alerts_loop now self contracts [] with
  | (self', Ok all_alerts) =>
      ({| tracker := tracker self'; oi_data := oi_data self';
          alerts := all_alerts |}, Ok all_alerts)
  | (self', Raise e) => (self', Raise e)
  end.

End Alerts.

End CMEVolume.

(** ** modules/cme_volume.py, the two detectors in binary64

    The computed columns as pandas computes them: an integer column that
    enters a division is converted to doubles, a quotient is rounded to
    the nearest double, and a column of doubles is compared with the
    threshold converted to a double (for a threshold that is a Python
    float the conversion changes nothing).  The records of the rows and of
    the events are those of [CMEVolume]. *)

Module CMEVolume64.
Import CMEVolume.

(** [Series.rolling(window, min_periods).mean()] on an integer column.
    pandas converts the column to doubles and keeps the sum and the number
    of the observations of the window; while the values and the sums of
    consecutive values are integers of magnitude at most [2^53] every
    addition is exact, and the mean is the quotient of the two, rounded
    once. *)
Definition mean (l : list Z) : float64 :=
  truediv (of_int (sum_Z l)) (of_int (Z.of_nat (length l))).

Definition rolling_mean (window min_periods : nat) (xs : list Z) : list float64 :=
  (fun i =>
     let win := window_at window xs i in
     if (length win <? min_periods)%nat then NaN else mean win)
    <$> seq 0 (length xs).

Definition add_columns (window : nat) (volume_df : list volume_row) : list scored_row :=
  let avg := rolling_mean window 1 (volume <$> volume_df) in
  imap (fun i r =>
          let a := default NaN (avg !! i) in
          {| sr_pos := i; sr_row := r; avg_volume := a;
             volume_ratio := truediv (of_int (volume r)) a |})
       volume_df.

(** [volume_df[volume_df['volume_ratio'] > threshold]]. *)
Definition spike_df (window : nat) (threshold : Q) (volume_df : list volume_row)
    : list scored_row :=
  List.filter (fun s => float_gt (volume_ratio s) (round64 threshold))
    (add_columns window volume_df).

Definition detect_volume_spikes (self : CMEVolumeTracker) (contract : string)
    (lookback_period : Z) : result (list spike_event) :=
  match volume_data self !! contract with
  | None => Ok []
  | Some df =>
      let volume_df := sort_values df in
      match rolling lookback_period 1 with
      | Raise e => Raise e
      | Ok window =>
          let threshold := volume_spike (thresholds (config self)) in
          Ok (format_event contract <$> spike_df window threshold volume_df)
      end
  end.

(** [Series.shift(1)] on a column of doubles. *)
Definition shift (xs : list float64) : list float64 :=
  take (length xs) (NaN :: xs).

(** [oi_df['change'] / oi_df['open_interest'].shift(1)]: the open interest
    is a column of doubles, the change a column of integers. *)
Definition add_pct_change (oi_df : list oi_row) : list oi_scored :=
  let prev := shift ((fun r => round64 (open_interest r)) <$> oi_df) in
  imap (fun i r =>
          {| os_pos := i; os_row := r;
             pct_change := truediv (of_int (change r)) (default NaN (prev !! i)) |})
       oi_df.

(** [oi_df[abs(oi_df['pct_change']) > threshold]]. *)
Definition change_df (threshold : Q) (oi_df : list oi_row) : list oi_scored :=
  List.filter (fun s => float_gt (fabs (pct_change s)) (round64 threshold))
    (add_pct_change oi_df).

Definition detect_oi_changes {A : Type} (self : tracker_state A) (contract : string)
    (threshold : option Q) : list oi_event :=
  match oi_data self !! contract with
  | None => []
  | Some df =>
      let oi_df := sort_oi_values df in
      let threshold :=
        match threshold with
        | None => oi_change (thresholds (config (tracker self)))
        | Some t => t
        end in
      format_oi_event contract <$> change_df threshold oi_df
  end.

End CMEVolume64.

(** ** modules/news_sentiment.py *)

Module NewsSentiment.

Inductive sentiment : Type := bullish | bearish | neutral.

Inductive asset_type : Type := stock | crypto.

(** An element of [self.analyzed_data] (the fields the aggregator reads);
    [compound] is [sentiment_scores['vader']['compound']]. *)
Record analyzed_article : Type := {
  source : string;
  url : string;
  title : string;
  art_sentiment : sentiment;
  compound : Q;
  tickers : list string;
  crypto_tokens : list string
}.

(** The dictionary appended to [data['articles']]. *)
Record article_ref : Type := {
  ref_title : string;
  ref_url : string;
  ref_source : string;
  ref_sentiment : sentiment;
  score : Q
}.

(** A value of [ticker_sentiment] or [crypto_sentiment]. *)
Record tally : Type := {
  n_bullish : nat;
  n_bearish : nat;
  n_neutral : nat;
  articles : list article_ref
}.

Definition new_tally : tally :=
  {| n_bullish := 0; n_bearish := 0; n_neutral := 0; articles := [] |}.

(** [data[s]]. *)
Definition count (data : tally) (s : sentiment) : nat :=
  match s with
  | bullish => n_bullish data
  | bearish => n_bearish data
  | neutral => n_neutral data
  end.

Definition mk_ref (a : analyzed_article) : article_ref := {|
  ref_title := title a;
  ref_url := url a;
  ref_source := source a;
  ref_sentiment := art_sentiment a;
  score := compound a
|}.

(** [data[article['sentiment']] += 1; data['articles'].append(...)]. *)
Definition record_article (a : analyzed_article) (data : tally) : tally :=
  match art_sentiment a with
  | bullish => {| n_bullish := S (n_bullish data); n_bearish := n_bearish data;
                  n_neutral := n_neutral data;
                  articles := articles data ++ [mk_ref a] |}
  | bearish => {| n_bullish := n_bullish data; n_bearish := S (n_bearish data);
                  n_neutral := n_neutral data;
                  articles := articles data ++ [mk_ref a] |}
  | neutral => {| n_bullish := n_bullish data; n_bearish := n_bearish data;
                  n_neutral := S (n_neutral data);
                  articles := articles data ++ [mk_ref a] |}
  end.

(** A Python dictionary from symbols to tallies, in insertion order. *)
Definition dict : Type := list (string * tally).

(** [if k not in d: d[k] = new_tally] followed by the update [f] of [d[k]]. *)
Fixpoint upsert (k : string) (f : tally -> tally) (d : dict) : dict :=
  match d with
  | [] => [(k, f new_tally)]
  | (k', v) :: d' =>
      if String.eqb k k' then (k', f v) :: d' else (k', v) :: upsert k f d'
  end.

(** One of the two inner loops, over the symbols of one article. *)
Definition tally_symbols (a : analyzed_article) (symbols : list string) (d : dict) : dict :=
  fold_left (fun d k => upsert k (record_article a) d) symbols d.

(** The grouping loop over [self.analyzed_data]; the state is the pair
    [(ticker_sentiment, crypto_sentiment)]. *)
Definition group_step (st : dict * dict) (a : analyzed_article) : dict * dict :=
  (tally_symbols a (tickers a) (fst st), tally_symbols a (crypto_tokens a) (snd st)).

Definition group_articles (analyzed_data : list analyzed_article) : dict * dict :=
  fold_left group_step analyzed_data ([], []).

Record suggestion : Type := {
  symbol : string;
  type : asset_type;
  sg_sentiment : sentiment;
  confidence : Q;
  article_count : nat;
  supporting_articles : list article_ref;
  rationale : string
}.

(** The dictionary [suggestions]. *)
Record suggestions : Type := {
  sg_bullish : list suggestion;
  sg_bearish : list suggestion;
  sg_neutral : list suggestion
}.

Definition no_suggestions : suggestions :=
  {| sg_bullish := []; sg_bearish := []; sg_neutral := [] |}.

(** [suggestions[s]]. *)
Definition get (out : suggestions) (s : sentiment) : list suggestion :=
  match s with
  | bullish => sg_bullish out
  | bearish => sg_bearish out
  | neutral => sg_neutral out
  end.

(** [suggestions[s].append(x)]. *)
Definition append (out : suggestions) (s : sentiment) (x : suggestion) : suggestions :=
  match s with
  | bullish => {| sg_bullish := sg_bullish out ++ [x]; sg_bearish := sg_bearish out;
                  sg_neutral := sg_neutral out |}
  | bearish => {| sg_bullish := sg_bullish out; sg_bearish := sg_bearish out ++ [x];
                  sg_neutral := sg_neutral out |}
  | neutral => {| sg_bullish := sg_bullish out; sg_bearish := sg_bearish out;
                  sg_neutral := sg_neutral out ++ [x] |}
  end.

Definition total_articles (data : tally) : nat :=
  (n_bullish data + n_bearish data + n_neutral data)%nat.

Definition Qnat (n : nat) : Q := inject_Z (Z.of_nat n).

(** "Determine overall sentiment": the if/elif/else on the two counts. *)
Definition overall_sentiment (data : tally) : sentiment :=
  if Qltb (Qnat (n_bearish data) * (3 # 2)) (Qnat (n_bullish data)) then bullish
  else if Qltb (Qnat (n_bullish data) * (3 # 2)) (Qnat (n_bearish data)) then bearish
  else neutral.

(** [sorted(l, key=lambda x: abs(x['score']), reverse=True)]: stable,
    greatest absolute score first. *)
Fixpoint insert_by_score (x : article_ref) (l : list article_ref) : list article_ref :=
  match l with
  | [] => [x]
  | y :: l' =>
      if Qle_bool (Qabs (score y)) (Qabs (score x)) then x :: l
      else y :: insert_by_score x l'
  end.

Definition sorted_by_score (l : list article_ref) : list article_ref :=
  foldr insert_by_score [] l.

Definition string_of_nat (n : nat) : string :=
  NilZero.string_of_uint (Nat.to_uint n).

(** [(count / total) * 100] on two Python integers: the true division gives
    the double nearest to the quotient, and the product with 100 is rounded
    in turn.  With [count <= total] neither operation can overflow. *)
Definition percentage (count total : nat) : Q :=
  round_fin (round_fin (Qnat count / Qnat total) * 100).

(** The body of the two loops over the dictionaries, which differ only in
    the value of ['type']; [None] stands for [continue]. *)
Definition make_suggestion (ty : asset_type) (sym : string) (data : tally)
    : option suggestion :=
  let total := total_articles data in
  if (total <? 2)%nat then None
  else
    let s := overall_sentiment data in
    Some {|
      symbol := sym;
      type := ty;
      sg_sentiment := s;
      confidence := percentage (count data s) total;
      article_count := total;
      supporting_articles := take 3 (sorted_by_score (articles data));
      rationale := "Based on " +:+ string_of_nat total
                     +:+ " recent articles with " +:+ string_of_nat (count data s)
                     +:+ " sentiment majority."
    |}.

Definition suggest_step (ty : asset_type) (out : suggestions) (item : string * tally)
    : suggestions :=
  match make_suggestion ty (fst item) (snd item) with
  | None => out
  | Some x => append out (sg_sentiment x) x
  end.

Definition process_dict (ty : asset_type) (d : dict) (out : suggestions) : suggestions :=
  fold_left (suggest_step ty) d out.

(** The suggestions as they stand when the two loops are over. *)
Definition collect_suggestions (analyzed_data : list analyzed_article) : suggestions :=
  let '(ticker_sentiment, crypto_sentiment) := group_articles analyzed_data in
  process_dict crypto crypto_sentiment
    (process_dict stock ticker_sentiment no_suggestions).

(** [generate_position_suggestions].  The function ends with the loop
    "Sort suggestions by confidence", which sorts each of the three lists
    in place; the sort is the argument [sort_by_confidence]. *)
Definition generate_position_suggestions
    (sort_by_confidence : list suggestion -> list suggestion)
    (analyzed_data : list analyzed_article) : suggestions :=
  match analyzed_data with
  | [] => no_suggestions
  | _ =>
      let out := collect_suggestions analyzed_data in
      {| sg_bullish := sort_by_confidence (sg_bullish out);
         sg_bearish := sort_by_confidence (sg_bearish out);
         sg_neutral := sort_by_confidence (sg_neutral out) |}
  end.

(** A stable sort by decreasing confidence, one possible
    [sort_by_confidence]. *)
Fixpoint insert_by_confidence (x : suggestion) (l : list suggestion) : list suggestion :=
  match l with
  | [] => [x]
  | y :: l' =>
      if Qle_bool (confidence y) (confidence x) then x :: l
      else y :: insert_by_confidence x l'
  end.

Definition sort_confidence_desc (l : list suggestion) : list suggestion :=
  foldr insert_by_confidence [] l.

(** Number of tags of [sym] that the articles carry in the column read by
    [proj] ([tickers] or [crypto_tokens]). *)
Definition occurrences (sym : string) (l : list string) : nat :=
  length (List.filter (String.eqb sym) l).

Definition tagged_total (proj : analyzed_article -> list string) (sym : string)
    (analyzed_data : list analyzed_article) : nat :=
  sum_list (map (fun a => occurrences sym (proj a)) analyzed_data).

Definition column (ty : asset_type) : analyzed_article -> list string :=
  match ty with stock => tickers | crypto => crypto_tokens end.

(** [d.get(k)] on a dictionary. *)
Fixpoint dict_get (k : string) (d : dict) : option tally :=
  match d with
  | [] => None
  | (k', v) :: d' => if String.eqb k k' then Some v else dict_get k d'
  end.

(** [ticker_sentiment] or [crypto_sentiment] at the end of the grouping
    loop. *)
Definition dict_of (ty : asset_type) (analyzed_data : list analyzed_article) : dict :=
  match ty with
  | stock => fst (group_articles analyzed_data)
  | crypto => snd (group_articles analyzed_data)
  end.

(** Fixtures: [n] articles of sentiment [s] tagged with the ticker [sym]. *)
Definition tagged (s : sentiment) (c : Q) (sym : string) : analyzed_article := {|
  source := "cnbc"; url := ""; title := "";
  art_sentiment := s; compound := c;
  tickers := [sym]; crypto_tokens := []
|}.

Definition six_three_one : list analyzed_article :=
  replicate 6 (tagged bullish (1 # 2) "AAPL")
    ++ replicate 3 (tagged bearish (- (1 # 2)) "AAPL")
    ++ [tagged neutral 0 "AAPL"].

Definition five_four : list analyzed_article :=
  replicate 5 (tagged bullish (1 # 2) "MSFT")
    ++ replicate 4 (tagged bearish (- (1 # 2)) "MSFT").

(** *** Prioritisation *)

(** The watchlist of [self.config]. *)
Record watchlist_t : Type := {
  wl_stocks : list string;
  wl_crypto : list string;
  wl_sectors : list string
}.

Definition default_watchlist : watchlist_t := {|
  wl_stocks := ["AAPL"; "MSFT"; "GOOGL"; "AMZN"; "META"; "TSLA"; "NVDA"];
  wl_crypto := ["BTC"; "ETH"; "SOL"; "XRP"; "ADA"; "DOGE"; "AVAX"];
  wl_sectors := ["Technology"; "Finance"; "Energy"; "Healthcare"; "Consumer"]
|}%string.

(** "Determine overall sentiment" of [analyze_sentiment], from the
    compound score. *)
Definition classify_compound (compound_score : Q) : sentiment :=
  if Qle_bool (5 # 100) compound_score then bullish
  else if Qle_bool compound_score (- (5 # 100)) then bearish
  else neutral.

(** The value that [analyze_sentiment] gives to ['watchlist_match']. *)
Definition compute_watchlist_match (wl : watchlist_t) (tickers_mentioned : list string)
    (crypto_mentioned : list string) : bool :=
  existsb (fun ticker => bool_decide (ticker ∈ wl_stocks wl)) tickers_mentioned
  || existsb (fun token => bool_decide (token ∈ wl_crypto wl)) crypto_mentioned.

(** An analyzed article with its field ['watchlist_match']. *)
Record matched_article : Type := {
  ma_article : analyzed_article;
  watchlist_match : bool
}.

(** The sort key [(not x['watchlist_match'], -abs(compound))] compared as
    Python compares tuples: [key_le x y] is [key x <= key y]. *)
Definition key_le (x y : matched_article) : bool :=
  if eqb (negb (watchlist_match x)) (negb (watchlist_match y)) then
    Qle_bool (- Qabs (compound (ma_article x))) (- Qabs (compound (ma_article y)))
  else negb (negb (watchlist_match x)).

(** [list.sort(key=...)]: stable, smallest key first. *)
Fixpoint insert_by_key (x : matched_article) (l : list matched_article)
    : list matched_article :=
  match l with
  | [] => [x]
  | y :: l' => if key_le x y then x :: l else y :: insert_by_key x l'
  end.

Definition prioritize_articles (analyzed_data : list matched_article)
    : list matched_article :=
  match analyzed_data with
  | [] => []
  | _ => foldr insert_by_key [] analyzed_data
  end.

(** *** Extraction of crypto tokens *)

(** [sub in s] on strings. *)
Fixpoint contains (sub s : string) : bool :=
  String.prefix sub s
  || match s with
     | EmptyString => false
     | String _ s' => contains sub s'
     end.

Definition crypto_names : list (string * string) :=
  [("bitcoin", "BTC"); ("ethereum", "ETH"); ("solana", "SOL"); ("ripple", "XRP");
   ("cardano", "ADA"); ("dogecoin", "DOGE"); ("avalanche", "AVAX")]%string.

(** [_extract_crypto]; [lower] is [str.lower]. *)
Definition _extract_crypto (lower : string -> string) (wl : watchlist_t)
    (text title : string) : list string :=
  let combined_text := lower (text +:+ " " +:+ title) in
  let mentioned_crypto :=
    List.filter (fun token => contains (lower token) combined_text) (wl_crypto wl) in
  fold_left
    (fun mentioned_crypto item =>
       if contains (fst item) combined_text
          && negb (bool_decide (snd item ∈ mentioned_crypto))
       then mentioned_crypto ++ [snd item]
       else mentioned_crypto)
    crypto_names mentioned_crypto.

(** The references that the grouping loop files under [sym]: one per tag
    of [sym], in the order of the articles. *)
Definition tag_refs (ty : asset_type) (sym : string)
    (analyzed_data : list analyzed_article) : list article_ref :=
  analyzed_data ≫= (fun a => replicate (occurrences sym (column ty a)) (mk_ref a)).

(** All the suggestions of an output. *)
Definition all_suggestions (out : suggestions) : list suggestion :=
  sg_bullish out ++ sg_bearish out ++ sg_neutral out.

(** The order of the prioritised list: watchlist matches first, and among
    articles of the same kind the stronger sentiment first. *)
Definition before (x y : matched_article) : Prop :=
  (watchlist_match y = true -> watchlist_match x = true)
  /\ (watchlist_match x = watchlist_match y ->
      (Qabs (compound (ma_article y)) <= Qabs (compound (ma_article x)))%Q).

(** [x] has the sort key of [k]. *)
Definition same_key (k x : matched_article) : bool :=
  eqb (watchlist_match x) (watchlist_match k)
  && Qeq_bool (Qabs (compound (ma_article x))) (Qabs (compound (ma_article k))).

#[global] Instance sentiment_eq_dec : EqDecision sentiment.
Proof. solve_decision. Defined.

#[global] Instance asset_type_eq_dec : EqDecision asset_type.
Proof. solve_decision. Defined.

(** Number of references of sentiment [s]. *)
Definition count_refs (s : sentiment) (refs : list article_ref) : nat :=
  length (List.filter (fun r => bool_decide (ref_sentiment r = s)) refs).

(** The suggestion of each entry of a dictionary that has one. *)
Definition dict_suggestions (ty : asset_type) (d : dict) : list suggestion :=
  omap (fun item => make_suggestion ty (fst item) (snd item)) d.

(** The tally counts what it lists. *)
Definition counts_refs (t : tally) : Prop :=
  forall s, count t s = count_refs s (articles t).

End NewsSentiment.

(** ** modules/macro_sentiment.py *)

Module MacroSentiment.

Inductive vix_interp : Type := low_volatility | high_volatility | normal_volatility.

Inductive curve_interp : Type := inverted | flat | normal | unknown.

Inductive inflation_interp : Type := high | low | moderate.

Inductive growth_interp : Type := contracting | slow | moderate_growth | strong.

Inductive labor_interp : Type := tight | balanced | loose.

(** The part of [self.config] that the interpretations read. *)
Record config_t : Type := {
  vix_threshold_low : Q;
  vix_threshold_high : Q;
  inflation_high : Q;
  inflation_low : Q;
  yield_curve_inversion : Q
}.

(** The default configuration; the literal [-0.1] is the double nearest to
    -1/10. *)
Definition default_config : config_t := {|
  vix_threshold_low := 15;
  vix_threshold_high := 25;
  inflation_high := 3;
  inflation_low := 1;
  yield_curve_inversion := round_fin (- (1 # 10))
|}.

Definition _interpret_vix (cfg : config_t) (vix_value : Q) : vix_interp :=
  if Qltb vix_value (vix_threshold_low cfg) then low_volatility
  else if Qltb (vix_threshold_high cfg) vix_value then high_volatility
  else normal_volatility.

(** [yields] maps a tenor or a spread name to its value. *)
Definition _interpret_yield_curve (cfg : config_t) (yields : gmap string Q) : curve_interp :=
  match yields !! "10y_2y_spread"%string with
  | Some spread =>
      if Qltb spread (yield_curve_inversion cfg) then inverted
      else if Qltb spread (1 # 2) then flat
      else normal
  | None => unknown
  end.

(** The three readings of [economic_data] that are interpreted. *)
Record economic_values : Type := {
  cpi_yoy_change : option Q;
  gdp_qoq_change : option Q;
  unemployment_latest : option Q
}.

(** The dictionary [interpretation] of the economic data. *)
Record econ_interp : Type := {
  inflation : option inflation_interp;
  growth : option growth_interp;
  labor_market : option labor_interp
}.

Definition _interpret_economic_data (cfg : config_t) (e : economic_values) : econ_interp := {|
  inflation :=
    (fun cpi_yoy =>
       if Qltb (inflation_high cfg) cpi_yoy then high
       else if Qltb cpi_yoy (inflation_low cfg) then low
       else moderate) <$> cpi_yoy_change e;
  growth :=
    (fun gdp_qoq =>
       if Qltb gdp_qoq 0 then contracting
       else if Qltb gdp_qoq 1 then slow
       else if Qltb gdp_qoq 3 then moderate_growth
       else strong) <$> gdp_qoq_change e;
  labor_market :=
    (fun unemployment =>
       if Qltb unemployment 4 then tight
       else if Qltb unemployment 6 then balanced
       else loose) <$> unemployment_latest e
|}.

(** The entries of [self.indicators]. *)
Record vix_entry : Type := {
  vix_value : Q;
  vix_timestamp : Z;
  vix_interpretation : vix_interp
}.

Record yields_entry : Type := {
  yields_values : gmap string Q;
  yields_timestamp : Z;
  yields_interpretation : curve_interp
}.

Record econ_entry : Type := {
  econ_values : economic_values;
  econ_timestamp : Z;
  econ_interpretation : econ_interp
}.

Record indicators_t : Type := {
  vix : option vix_entry;
  treasury_yields : option yields_entry;
  economic_data : option econ_entry
}.

Inductive risk : Type := risk_on | risk_off | risk_neutral.

Inductive inflation_env : Type := inflationary | deflationary | stable.

Inductive environment : Type := env_bullish | env_bearish | env_neutral.

Record rating_t : Type := {
  risk_sentiment : risk;
  inflation_environment : option inflation_env;
  growth_outlook : option growth_interp;
  overall_environment : environment;
  timestamp : Z
}.

Inductive direction_t : Type := long | short | dir_neutral.

Inductive confidence_t : Type := conf_low | conf_medium | conf_high.

#[global] Instance vix_interp_eq_dec : EqDecision vix_interp.
Proof. solve_decision. Defined.
#[global] Instance curve_interp_eq_dec : EqDecision curve_interp.
Proof. solve_decision. Defined.
#[global] Instance inflation_interp_eq_dec : EqDecision inflation_interp.
Proof. solve_decision. Defined.
#[global] Instance growth_interp_eq_dec : EqDecision growth_interp.
Proof. solve_decision. Defined.
#[global] Instance risk_eq_dec : EqDecision risk.
Proof. solve_decision. Defined.
#[global] Instance inflation_env_eq_dec : EqDecision inflation_env.
Proof. solve_decision. Defined.

Record bias_t : Type := {
  direction : option direction_t;
  bias_confidence : option confidence_t;
  bias_rationale : list string;
  bias_timestamp : Z
}.

Record MacroSentimentAnalyzer : Type := {
  config : config_t;
  indicators : indicators_t;
  environment_rating : option rating_t;
  es_bias : option bias_t
}.

Definition determine_risk (vix_interp : vix_interp) (yield_curve_interp : curve_interp)
    : risk :=
  if bool_decide (vix_interp = low_volatility)
     && bool_decide (yield_curve_interp ≠ inverted) then risk_on
  else if bool_decide (vix_interp = high_volatility)
          || bool_decide (yield_curve_interp = inverted) then risk_off
  else risk_neutral.

Definition determine_inflation (i : inflation_interp) : inflation_env :=
  if bool_decide (i = high) then inflationary
  else if bool_decide (i = low) then deflationary
  else stable.

Definition determine_overall (r : risk) (i : option inflation_env)
    (g : option growth_interp) : environment :=
  if bool_decide (r = risk_on) && bool_decide (i ≠ Some inflationary) then env_bullish
  else if bool_decide (r = risk_off) || bool_decide (g = Some contracting) then env_bearish
  else env_neutral.

(** [rate_macro_environment]; [now] is the value of [datetime.now()] at the
    call.  The result is the updated analyzer and the returned rating. *)
Definition rate_macro_environment (now : Z) (self : MacroSentimentAnalyzer)
    : MacroSentimentAnalyzer * option rating_t :=
  match vix (indicators self), treasury_yields (indicators self),
        economic_data (indicators self) with
  | Some v, Some y, Some e =>
      let r := determine_risk (vix_interpretation v) (yields_interpretation y) in
      let i := determine_inflation <$> inflation (econ_interpretation e) in
      let g := growth (econ_interpretation e) in
      let rating := {| risk_sentiment := r;
                       inflation_environment := i;
                       growth_outlook := g;
                       overall_environment := determine_overall r i g;
                       timestamp := now |} in
      ({| config := config self; indicators := indicators self;
          environment_rating := Some rating; es_bias := es_bias self |},
       Some rating)
  | _, _, _ => (self, None)
  end.

(** [suggest_es_bias] up to the branch of the neutral environment, whose
    body ("look at additional factors") is the argument [additional_factors]:
    it receives the analyzer and the bias as initialised. *)
Definition suggest_es_bias
    (additional_factors : MacroSentimentAnalyzer -> bias_t -> bias_t)
    (now : Z) (self : MacroSentimentAnalyzer) : option bias_t :=
  match environment_rating self with
  | None => None
  | Some rating =>
      let bias := {| direction := None; bias_confidence := None;
                     bias_rationale := []; bias_timestamp := now |} in
      Some match overall_environment rating with
           | env_bullish =>
               {| direction := Some long; bias_confidence := Some conf_high;
                  bias_rationale := bias_rationale bias
                                      ++ ["Overall macro environment is bullish"%string];
                  bias_timestamp := bias_timestamp bias |}
           | env_bearish =>
               {| direction := Some short; bias_confidence := Some conf_high;
                  bias_rationale := bias_rationale bias
                                      ++ ["Overall macro environment is bearish"%string];
                  bias_timestamp := bias_timestamp bias |}
           | env_neutral => additional_factors self bias
           end
  end.

(** An analyzer whose three indicator entries are filled at time [ts] with
    the given values, each with the interpretation that the configuration
    gives to it.  ([fetch_vix] and [fetch_treasury_yields] below build
    the entries from what the pages show.) *)
Definition fetched (cfg : config_t) (vix_reading : Q) (yields : gmap string Q)
    (values : economic_values) (ts : Z) : MacroSentimentAnalyzer := {|
  config := cfg;
  indicators := {|
    vix := Some {| vix_value := vix_reading; vix_timestamp := ts;
                   vix_interpretation := _interpret_vix cfg vix_reading |};
    treasury_yields :=
      Some {| yields_values := yields; yields_timestamp := ts;
              yields_interpretation := _interpret_yield_curve cfg yields |};
    economic_data :=
      Some {| econ_values := values; econ_timestamp := ts;
              econ_interpretation := _interpret_economic_data cfg values |}
  |};
  environment_rating := None;
  es_bias := None
|}.

(** The mock economic data of [fetch_economic_data]. *)
Definition mock_economic_values : economic_values := {|
  cpi_yoy_change := Some (32 # 10);
  gdp_qoq_change := Some (- (2 # 10))%Q;
  unemployment_latest := Some (38 # 10)
|}.

(** Fixture: VIX at 12 and only the 2-year yield fetched, so that no
    spread is computed. *)
Definition calm_without_spread : MacroSentimentAnalyzer :=
  fetched default_config 12 {[ "2y"%string := 4%Q ]} mock_economic_values 0.

(** *** Fetching the readings

    The argument [scraped] is the number written on the page ([None] when
    the page could not be loaded or read, or holds no such element);
    [float] makes of it the nearest double.  The numbers on the pages are
    taken to lie in the range of the doubles. *)

Definition new_analyzer (cfg : config_t) : MacroSentimentAnalyzer := {|
  config := cfg;
  indicators := {| vix := None; treasury_yields := None; economic_data := None |};
  environment_rating := None;
  es_bias := None
|}.

(** [fetch_vix]: nothing is stored when the value is not found. *)
Definition fetch_vix (scraped : option Q) (now : Z) (self : MacroSentimentAnalyzer)
    : MacroSentimentAnalyzer :=
  match scraped with
  | None => self
  | Some v =>
      let vix_value := round_fin v in
      {| config := config self;
         indicators :=
           {| vix := Some {| vix_value := vix_value; vix_timestamp := now;
                             vix_interpretation :=
                               _interpret_vix (config self) vix_value |};
              treasury_yields := treasury_yields (indicators self);
              economic_data := economic_data (indicators self) |};
         environment_rating := environment_rating self;
         es_bias := es_bias self |}
  end.

(** "Calculate spreads": each difference of two doubles is rounded. *)
Definition add_spreads (yields : gmap string Q) : gmap string Q :=
  let yields :=
    match yields !! "2y"%string, yields !! "10y"%string with
    | Some y2, Some y10 =>
        <["10y_2y_spread"%string := round_fin (y10 - y2)]> yields
    | _, _ => yields
    end in
  match yields !! "10y"%string, yields !! "30y"%string with
  | Some y10, Some y30 =>
      <["30y_10y_spread"%string := round_fin (y30 - y10)]> yields
  | _, _ => yields
  end.

(** [fetch_treasury_yields]; [scraped] is [None] when the [try] block
    raised (a page that does not load, a text that [float] rejects):
    nothing is stored then.  Otherwise it holds the numbers of the tenors
    that were found. *)
Definition fetch_treasury_yields (scraped : option (gmap string Q)) (now : Z)
    (self : MacroSentimentAnalyzer) : MacroSentimentAnalyzer :=
  match scraped with
  | None => self
  | Some found =>
      let yields := add_spreads (round_fin <$> found) in
      {| config := config self;
         indicators :=
           {| vix := vix (indicators self);
              treasury_yields :=
                Some {| yields_values := yields; yields_timestamp := now;
                        yields_interpretation :=
                          _interpret_yield_curve (config self) yields |};
              economic_data := economic_data (indicators self) |};
         environment_rating := environment_rating self;
         es_bias := es_bias self |}
  end.

(** [fetch_economic_data]: without the mock data nothing is fetched and
    the empty dictionary is stored and interpreted. *)
Definition fetch_economic_data (use_mock_data : bool) (now : Z)
    (self : MacroSentimentAnalyzer) : MacroSentimentAnalyzer :=
  let values :=
    if use_mock_data then mock_economic_values
    else {| cpi_yoy_change := None; gdp_qoq_change := None;
            unemployment_latest := None |} in
  {| config := config self;
     indicators :=
       {| vix := vix (indicators self);
          treasury_yields := treasury_yields (indicators self);
          economic_data :=
            Some {| econ_values := values; econ_timestamp := now;
                    econ_interpretation :=
                      _interpret_economic_data (config self) values |} |};
     environment_rating := environment_rating self;
     es_bias := es_bias self |}.

(** The volatility regimes in increasing order. *)
Definition vix_rank (i : vix_interp) : nat :=
  match i with
  | low_volatility => 0
  | normal_volatility => 1
  | high_volatility => 2
  end.

End MacroSentiment.

(** ** main.py *)

Module MainAgent.

(** A configuration value as [json.load] returns it: a dictionary, or any
    other value (number, string, boolean, null, list), of the type [V]. *)
#[local] Unset Elimination Schemes.

Inductive json (V : Type) : Type :=
| JValue (v : V)
| JDict (items : list (string * json V)).

#[local] Set Elimination Schemes.

Arguments JValue {V} v.
Arguments JDict {V} items.

Section UpdateConfig.

Context {V : Type}.

Definition items_t : Type := list (string * json V).

(** [d.get(key)]. *)
Fixpoint dict_lookup (key : string) (d : items_t) : option (json V) :=
  match d with
  | [] => None
  | (k, v) :: d' => if String.eqb key k then Some v else dict_lookup key d'
  end.

(** [d[key] = value]: an existing key keeps its place, a new key goes to
    the end. *)
Fixpoint dict_set (key : string) (value : json V) (d : items_t) : items_t :=
  match d with
  | [] => [(key, value)]
  | (k, v) :: d' =>
      if String.eqb key k then (k, value) :: d' else (k, v) :: dict_set key value d'
  end.

(** What a key of the base holds once [value] is merged into [old]: the
    two dictionaries merged by [_update_config] when both are
    dictionaries, [value] otherwise. *)
Fixpoint merge_json (old value : json V) {struct value} : json V :=
  match old, value with
  | JDict base_config, JDict new_config =>
      JDict
        ((fix update (new_config : items_t) (base_config : items_t) : items_t :=
            match new_config with
            | [] => base_config
            | (key, value) :: rest =>
                update rest
                  (dict_set key
                     match dict_lookup key base_config with
                     | Some old => merge_json old value
                     | None => value
                     end base_config)
            end) new_config base_config)
  | _, _ => value
  end.

(** One iteration of the loop of [_update_config]. *)
Definition update_step (base_config : items_t) (item : string * json V) : items_t :=
  dict_set (fst item)
    match dict_lookup (fst item) base_config with
    | Some old => merge_json old (snd item)
    | None => snd item
    end base_config.

(** [_update_config(base_config, new_config)]: the updated base. *)
Definition _update_config (base_config new_config : items_t) : items_t :=
  fold_left update_step new_config base_config.

(** Dictionaries without a repeated key, at every depth. *)
Fixpoint well_formed (j : json V) : Prop :=
  match j with
  | JValue _ => True
  | JDict items =>
      NoDup items.*1
      /\ (fix all (items : items_t) : Prop :=
            match items with
            | [] => True
            | (_, v) :: rest => well_formed v /\ all rest
            end) items
  end.

End UpdateConfig.

Arguments items_t V : clear implicits.

(** Fixtures: a base configuration with a nested dictionary, and a custom
    configuration that changes one nested key and adds a top-level one. *)
Definition sample_base : items_t bool :=
  [ ("use_mock_data", JValue true);
    ("modules",
     JDict [ ("cme_volume",
              JDict [ ("enabled", JValue true); ("verbose", JValue false) ]) ]) ]%string.

Definition sample_custom : items_t bool :=
  [ ("modules", JDict [ ("cme_volume", JDict [ ("enabled", JValue false) ]) ]);
    ("debug", JValue true) ]%string.

End MainAgent.

(** ** Reading of the detector used in the statements *)

Module Reading.
Import CMEVolume.


(** The same ratio as pandas computes it in doubles. *)
Definition inclusive_ratio64 (window : nat) (xs : list Z) (i : nat) : float64 :=
  match xs !! i with
  | Some v => truediv (of_int v) (CMEVolume64.mean (window_at window xs i))
  | None => NaN
  end.



Definition spike_positions64 (window : nat) (threshold : Q)
    (volume_df : list volume_row) : list nat :=
  sr_pos <$> CMEVolume64.spike_df window threshold volume_df.

(** The detector as the specification words it: the baseline of point [i]
    is the mean of the (at most [window]) points before [i], and a point
    without predecessor is skipped. *)
Definition preceding_window (window : nat) (xs : list Z) (i : nat) : list Z :=
  drop (i - window) (take i xs).

Definition preceding_ratio (window : nat) (xs : list Z) (i : nat) : float64 :=
  match xs !! i, preceding_window window xs i with
  | Some v, _ :: _ => fdiv v (Finite (mean (preceding_window window xs i)))
  | _, _ => NaN
  end.

Definition spec_spike_positions (window : nat) (threshold : Q) (xs : list Z) : list nat :=
  List.filter (fun i => fgt (preceding_ratio window xs i) threshold) (seq 0 (length xs)).

(** A data frame with one row per day from day 0 on. *)
Definition daily (xs : list Z) : list volume_row :=
  imap (fun i v => {| date := strptime (Z.of_nat i); volume := v |}) xs.

(** The series [100]*20 with 500 at index 15. *)
Definition injected_series : list Z :=
  replicate 15 100 ++ [500] ++ replicate 4 100.

(** A calendar that holds a single earnings season. *)
Definition one_season (s : season) : custom_config := {|
  custom_contracts := None;
  custom_thresholds := None;
  custom_economic_calendar :=
    Some {| fomc_meetings := []; earnings_seasons := [s]; economic_releases := [] |}
|}.


(** What [generate_alerts] guarantees for the alerts of one contract: they
    are recent, consistent with the event they describe, annotated with
    the economic events near their date, and the latest comes first. *)
Definition alert_group_ok (now : datetime) (self : tracker_state alert)
    (contract : string) (group : list alert) : Prop :=
  Forall (fun a =>
    now - alert_period (thresholds (config (tracker self))) * us_per_day < al_date a
    /\ al_date a = event_date (al_details a)
    /\ al_contract a = contract
    /\ event_contract (al_details a) = contract
    /\ al_event_type a = event_type (al_details a)
    /\ al_economic_context a = check_economic_events (tracker self) (al_date a))
    group
  /\ StronglySorted (fun a b => al_date b <= al_date a) group.

End Reading.

(** * Properties *)

(** ** Rational comparisons *)

Lemma Qltb_lt (x y : Q) : Qltb x y = true <-> (x < y)%Q.
Proof.
  unfold Qltb. rewrite negb_true_iff, <- not_true_iff_false, Qle_bool_iff.
  split; [apply Qnot_le_lt | apply Qlt_not_le].
Qed.

Lemma Qltb_ge (x y : Q) : Qltb x y = false <-> (y <= x)%Q.
Proof.
  unfold Qltb. rewrite negb_false_iff. apply Qle_bool_iff.
Qed.

(** ** Rounding to binary64

    [round_fin] is monotone, leaves the integers up to [2^53] unchanged, and
    in the normal range its relative error is at most [2^-53]. *)

Section Rounding.
Local Open Scope Q_scope.

Lemma pow2_pos (k : Z) : 0 < pow2 k.
Proof. apply Qpower_0_lt. reflexivity. Qed.

Lemma pow2_add (a b : Z) : pow2 (a + b) == pow2 a * pow2 b.
Proof. apply Qpower_plus. discriminate. Qed.

Lemma pow2_le (a b : Z) : (a <= b)%Z -> pow2 a <= pow2 b.
Proof. intros H. apply Qpower_le_compat_l; [exact H | discriminate]. Qed.

Lemma pow2_lt (a b : Z) : (a < b)%Z -> pow2 a < pow2 b.
Proof. intros H. apply Qpower_lt_compat_l; [exact H | reflexivity]. Qed.

Lemma pow2_lt_inv (a b : Z) : pow2 a < pow2 b -> (a < b)%Z.
Proof. intros H. apply (Qpower_lt_compat_l_inv 2); [exact H | reflexivity]. Qed.

Lemma pow2_inject (k : Z) : (0 <= k)%Z -> inject_Z (2 ^ k) == pow2 k.
Proof. intros H. apply (Zpower_Qpower 2 k H). Qed.

Lemma pow2_S (k : Z) : pow2 (k + 1) == 2 * pow2 k.
Proof. rewrite pow2_add. change (pow2 1) with 2. ring. Qed.

(** The integer logarithm of a positive rational. *)
Lemma ilog2_spec (q : Q) : 0 < q -> pow2 (ilog2 q) <= q /\ q < pow2 (ilog2 q + 1).
Proof.
  intros Hq. destruct q as [n d]. unfold ilog2. cbn [Qnum Qden].
  assert (0 < n)%Z as Hn by (unfold Qlt in Hq; simpl in Hq; lia).
  set (a := Z.log2 n). set (b := Z.log2 (Z.pos d)).
  destruct (Z.log2_spec n Hn) as [Ha1 Ha2]. fold a in Ha1, Ha2.
  destruct (Z.log2_spec (Z.pos d) (Pos2Z.is_pos d)) as [Hb1 Hb2]. fold b in Hb1, Hb2.
  assert (0 <= a)%Z as Ha0 by apply Z.log2_nonneg.
  assert (0 <= b)%Z as Hb0 by apply Z.log2_nonneg.
  assert (n # d == inject_Z n / inject_Z (Z.pos d)) as Hnd by apply Qmake_Qdiv.
  assert (0 < inject_Z (Z.pos d)) as Hd by (rewrite <- (Zlt_Qlt 0); lia).
  assert (pow2 a <= inject_Z n) as Qa1.
  { rewrite <- pow2_inject by done. by rewrite <- Zle_Qle. }
  assert (inject_Z n < pow2 (a + 1)) as Qa2.
  { rewrite <- pow2_inject by lia. rewrite <- Zlt_Qlt. replace (a + 1)%Z with (Z.succ a) by lia. done. }
  assert (pow2 b <= inject_Z (Z.pos d)) as Qb1.
  { rewrite <- pow2_inject by done. by rewrite <- Zle_Qle. }
  assert (inject_Z (Z.pos d) < pow2 (b + 1)) as Qb2.
  { rewrite <- pow2_inject by lia. rewrite <- Zlt_Qlt. replace (b + 1)%Z with (Z.succ b) by lia. done. }
  pose proof (pow2_pos b) as Pb. pose proof (pow2_pos (a - b)) as Pab.
  pose proof (pow2_pos (a - b - 1)) as Pab1.
  assert (pow2 a == pow2 (a - b) * pow2 b) as Eab.
  { rewrite <- pow2_add. f_equiv. lia. }
  assert (pow2 (a - b) == 2 * pow2 (a - b - 1)) as Eab1.
  { rewrite <- pow2_S. f_equiv. lia. }
  assert (pow2 (a - b + 1) == 2 * pow2 (a - b)) as Eab2 by apply pow2_S.
  assert (pow2 (a + 1) == 2 * pow2 a) as Ea by apply pow2_S.
  assert (pow2 (b + 1) == 2 * pow2 b) as Eb by apply pow2_S.
  (* upper bound: n/d < 2^(a-b+1) *)
  assert (n # d < pow2 (a - b + 1)) as Hup.
  { rewrite Hnd. apply Qlt_shift_div_r; [done |]. rewrite Eab2.
    apply Qlt_le_trans with (pow2 (a + 1)); [done |]. rewrite Ea, Eab.
    assert (pow2 (a - b) * pow2 b <= pow2 (a - b) * inject_Z (Z.pos d)).
    { apply Qmult_le_l; done. }
    lra. }
  (* lower bound: 2^(a-b-1) < n/d *)
  assert (pow2 (a - b - 1) <= n # d) as Hlo.
  { rewrite Hnd. apply Qle_shift_div_l; [done |].
    apply Qle_trans with (pow2 a); [| done]. rewrite Eab, Eab1.
    assert (pow2 (a - b - 1) * inject_Z (Z.pos d) <= pow2 (a - b - 1) * pow2 (b + 1)).
    { apply Qmult_le_l; [done |]. by apply Qlt_le_weak. }
    rewrite Eb in H. lra. }
  destruct (Qle_bool (pow2 (a - b)) (n # d)) eqn:E.
  - apply Qle_bool_iff in E. split; done.
  - apply not_true_iff_false in E. rewrite Qle_bool_iff in E. apply Qnot_le_lt in E.
    split; [done |]. replace (a - b - 1 + 1)%Z with (a - b)%Z by lia. done.
Qed.

Lemma ilog2_unique (q : Q) (k : Z) : pow2 k <= q -> q < pow2 (k + 1) -> ilog2 q = k.
Proof.
  intros H1 H2.
  assert (0 < q) as Hq by (eapply Qlt_le_trans; [apply (pow2_pos k) | done]).
  destruct (ilog2_spec q Hq) as [S1 S2].
  assert (ilog2 q < k + 1)%Z.
  { apply pow2_lt_inv. eapply Qle_lt_trans; done. }
  assert (k < ilog2 q + 1)%Z.
  { apply pow2_lt_inv. eapply Qle_lt_trans; done. }
  lia.
Qed.

Lemma ilog2_mono (x y : Q) : 0 < x -> x <= y -> (ilog2 x <= ilog2 y)%Z.
Proof.
  intros Hx Hxy.
  assert (0 < y) as Hy by (eapply Qlt_le_trans; done).
  destruct (ilog2_spec x Hx) as [X1 _]. destruct (ilog2_spec y Hy) as [_ Y2].
  assert (ilog2 x < ilog2 y + 1)%Z; [| lia].
  apply pow2_lt_inv. eapply Qle_lt_trans; [exact X1 |]. eapply Qle_lt_trans; done.
Qed.

(** Rounding to the nearest integer, ties to even. *)
Lemma rne_cases (q : Q) :
  (rne q = Qfloor q /\ q - inject_Z (Qfloor q) <= 1 # 2)
  \/ (rne q = (Qfloor q + 1)%Z /\ 1 # 2 <= q - inject_Z (Qfloor q)).
Proof.
  unfold rne. destruct (Qcompare_spec (q - inject_Z (Qfloor q)) (1 # 2)) as [E | E | E].
  - destruct (Z.even (Qfloor q)); [left | right]; split; try done; rewrite E; apply Qle_refl.
  - left. split; [done | by apply Qlt_le_weak].
  - right. split; [done | by apply Qlt_le_weak].
Qed.

Lemma rne_mono (x y : Q) : x <= y -> (rne x <= rne y)%Z.
Proof.
  intros Hxy.
  pose proof (Qfloor_resp_le x y Hxy) as Hf.
  pose proof (Qfloor_le x) as Fx. pose proof (Qlt_floor x) as Lx.
  pose proof (Qfloor_le y) as Fy. pose proof (Qlt_floor y) as Ly.
  destruct (Z.eq_dec (Qfloor x) (Qfloor y)) as [Heq | Hne].
  - unfold rne. rewrite <- Heq.
    destruct (Qcompare_spec (x - inject_Z (Qfloor x)) (1 # 2)) as [E1 | E1 | E1];
    destruct (Qcompare_spec (y - inject_Z (Qfloor x)) (1 # 2)) as [E2 | E2 | E2];
      try destruct (Z.even (Qfloor x)); try lia; exfalso; lra.
  - assert (Qfloor x + 1 <= Qfloor y)%Z by lia.
    destruct (rne_cases x) as [[-> _] | [-> _]], (rne_cases y) as [[-> _] | [-> _]]; lia.
Qed.

Lemma rne_Z (n : Z) : rne (inject_Z n) = n.
Proof.
  unfold rne. rewrite Qfloor_Z.
  destruct (Qcompare_spec (inject_Z n - inject_Z n) (1 # 2)) as [E | E | E]; [| done |]; exfalso; lra.
Qed.

Lemma rne_comp (x y : Q) : x == y -> rne x = rne y.
Proof.
  intros H. apply Z.le_antisymm; apply rne_mono; rewrite H; apply Qle_refl.
Qed.

Lemma rne_nonneg (x : Q) : 0 <= x -> (0 <= rne x)%Z.
Proof. intros H. rewrite <- (rne_Z 0). by apply rne_mono. Qed.

(** Rounding of non-negative numbers. *)
Lemma ulp_exponent_mono (x y : Q) : 0 < x -> x <= y -> (ulp_exponent x <= ulp_exponent y)%Z.
Proof. intros Hx Hxy. unfold ulp_exponent. pose proof (ilog2_mono x y Hx Hxy). lia. Qed.

Lemma round_pos_nonneg (x : Q) : 0 <= x -> 0 <= round_pos x.
Proof.
  intros H. unfold round_pos. apply Qmult_le_0_compat.
  - rewrite <- (Zle_Qle 0). apply rne_nonneg.
    apply Qle_shift_div_l; [apply pow2_pos |]. by rewrite Qmult_0_l.
  - apply Qlt_le_weak, pow2_pos.
Qed.

Lemma round_pos_mono (x y : Q) : 0 < x -> x <= y -> round_pos x <= round_pos y.
Proof.
  intros Hx Hxy.
  assert (0 < y) as Hy by (eapply Qlt_le_trans; done).
  pose proof (ulp_exponent_mono x y Hx Hxy) as He.
  unfold round_pos.
  set (ex := ulp_exponent x) in *. set (ey := ulp_exponent y) in *.
  pose proof (pow2_pos ex) as Pex. pose proof (pow2_pos ey) as Pey.
  destruct (Z.eq_dec ex ey) as [Heq | Hne].
  - rewrite <- Heq. apply Qmult_le_compat_r; [| by apply Qlt_le_weak].
    rewrite <- Zle_Qle. apply rne_mono.
    apply Qle_shift_div_l; [done |].
    assert (x / pow2 ex * pow2 ex == x) as -> by (field; lra). done.
  - assert (ex < ey)%Z as Hlt by lia.
    (* x < 2^(ex+53) and 2^(ey+52) <= y *)
    destruct (ilog2_spec x Hx) as [_ X2]. destruct (ilog2_spec y Hy) as [Y1 _].
    assert (ilog2 x + 1 <= ex + 53)%Z as Hix by (unfold ex, ulp_exponent; lia).
    assert (ey = ilog2 y - 52)%Z as Hiy by (unfold ex, ey, ulp_exponent in *; lia).
    assert (x <= pow2 (ex + 53)) as Hxb.
    { apply Qlt_le_weak. eapply Qlt_le_trans; [exact X2 | by apply pow2_le]. }
    assert (pow2 (ey + 52) <= y) as Hyb.
    { replace (ey + 52)%Z with (ilog2 y) by lia. done. }
    apply Qle_trans with (pow2 (ex + 53)).
    + (* round x <= 2^(ex+53) *)
      assert (rne (x / pow2 ex) <= 2 ^ 53)%Z as Hr.
      { rewrite <- (rne_Z (2 ^ 53)). apply rne_mono.
        apply Qle_shift_div_r; [done |].
        change (inject_Z (2 ^ 53)) with (pow2 53).
        rewrite <- pow2_add. by replace (53 + ex)%Z with (ex + 53)%Z by lia. }
      rewrite (Zle_Qle _ (2 ^ 53)) in Hr. change (inject_Z (2 ^ 53)) with (pow2 53) in Hr.
      rewrite (pow2_add ex 53).
      rewrite (Qmult_comm (pow2 ex)). apply Qmult_le_compat_r; [done | by apply Qlt_le_weak].
    + apply Qle_trans with (pow2 (ey + 52)); [apply pow2_le; lia |].
      assert (2 ^ 52 <= rne (y / pow2 ey))%Z as Hr.
      { rewrite <- (rne_Z (2 ^ 52)). apply rne_mono.
        apply Qle_shift_div_l; [done |].
        change (inject_Z (2 ^ 52)) with (pow2 52).
        rewrite <- pow2_add. by replace (52 + ey)%Z with (ey + 52)%Z by lia. }
      rewrite (Zle_Qle (2 ^ 52)) in Hr. change (inject_Z (2 ^ 52)) with (pow2 52) in Hr.
      rewrite (pow2_add ey 52).
      rewrite (Qmult_comm (pow2 ey)). apply Qmult_le_compat_r; [done | by apply Qlt_le_weak].
Qed.

Lemma round_pos_0 (x : Q) : x == 0 -> round_pos x == 0.
Proof.
  intros H. unfold round_pos.
  assert (rne (x / pow2 (ulp_exponent x)) = 0%Z) as ->.
  { rewrite <- (rne_Z 0). apply rne_comp. generalize (pow2 (ulp_exponent x)).
    intros p. rewrite H. unfold Qdiv. apply Qmult_0_l. }
  apply Qmult_0_l.
Qed.

Lemma round_pos_mono' (x y : Q) : 0 <= x -> x <= y -> round_pos x <= round_pos y.
Proof.
  intros Hx Hxy. destruct (Qlt_le_dec 0 x) as [Hpos | Hle].
  - by apply round_pos_mono.
  - rewrite (round_pos_0 x) by lra. apply round_pos_nonneg. lra.
Qed.

Lemma round_fin_eq (x : Q) :
  round_fin x == if Qltb x 0 then - round_pos (- x) else round_pos x.
Proof. unfold round_fin. apply Qred_correct. Qed.

Lemma round_fin_mono (x y : Q) : x <= y -> round_fin x <= round_fin y.
Proof.
  intros Hxy. rewrite !round_fin_eq.
  destruct (Qltb x 0) eqn:Ex, (Qltb y 0) eqn:Ey.
  - apply Qltb_lt in Ex, Ey. apply Qopp_le_compat. apply round_pos_mono'; lra.
  - apply Qltb_lt in Ex. apply Qltb_ge in Ey.
    pose proof (round_pos_nonneg (- x)). pose proof (round_pos_nonneg y). lra.
  - apply Qltb_ge in Ex. apply Qltb_lt in Ey. exfalso. lra.
  - apply Qltb_ge in Ex, Ey. by apply round_pos_mono'.
Qed.

Lemma round_fin_comp (x y : Q) : x == y -> round_fin x = round_fin y.
Proof.
  intros H. unfold round_fin. apply Qred_complete.
  rewrite <- !round_fin_eq.
  apply Qle_antisym; apply round_fin_mono; rewrite H; apply Qle_refl.
Qed.

Lemma round_fin_opp (x : Q) : round_fin (- x) == - round_fin x.
Proof.
  rewrite !round_fin_eq.
  destruct (Qltb (- x) 0) eqn:E1, (Qltb x 0) eqn:E2.
  - apply Qltb_lt in E1, E2. exfalso. lra.
  - apply Qltb_lt in E1. apply Qltb_ge in E2.
    assert (round_pos (- - x) == round_pos x) as ->; [| done].
    apply Qle_antisym; apply round_pos_mono'; lra.
  - lra.
  - apply Qltb_ge in E1, E2. rewrite (round_pos_0 x), (round_pos_0 (- x)) by lra. lra.
Qed.



(** A multiple of the unit in the last place is not changed. *)
Lemma round_pos_multiple (x : Q) (m e : Z) :
  (ulp_exponent x <= e)%Z -> x == inject_Z m * pow2 e -> round_pos x == x.
Proof.
  intros He Hx. unfold round_pos. set (u := ulp_exponent x) in *.
  pose proof (pow2_pos u) as Pu.
  assert (x / pow2 u == inject_Z (m * 2 ^ (e - u))) as Hint.
  { rewrite inject_Z_mult, pow2_inject by lia. rewrite Hx.
    replace e with ((e - u) + u)%Z at 1 by lia. rewrite pow2_add. field. lra. }
  rewrite (rne_comp _ _ Hint), rne_Z, <- Hint. field. lra.
Qed.

Lemma ilog2_Z_lt (n k : Z) : (0 < n < 2 ^ k)%Z -> (0 <= k)%Z -> (ilog2 (inject_Z n) < k)%Z.
Proof.
  intros [Hn Hk] Hk0.
  assert (0 < inject_Z n) as Hq by (rewrite <- (Zlt_Qlt 0); done).
  destruct (ilog2_spec _ Hq) as [S1 _].
  apply pow2_lt_inv. eapply Qle_lt_trans; [exact S1 |].
  rewrite <- pow2_inject by done. by rewrite <- Zlt_Qlt.
Qed.

Lemma round_pos_Z (n : Z) : (0 <= n <= 2 ^ 53)%Z -> round_pos (inject_Z n) == inject_Z n.
Proof.
  intros [Hn0 Hn].
  destruct (Z.eq_dec n 0%Z) as [-> | Hnz]; [by apply round_pos_0 |].
  destruct (Z.eq_dec n (2 ^ 53)%Z) as [-> | Hne].
  - apply (round_pos_multiple _ (2 ^ 52) 1); [| reflexivity].
    unfold ulp_exponent. rewrite (ilog2_unique (inject_Z (2 ^ 53)) 53); [lia | |].
    + change (inject_Z (2 ^ 53)) with (pow2 53). apply Qle_refl.
    + change (inject_Z (2 ^ 53)) with (pow2 53). by apply pow2_lt.
  - apply (round_pos_multiple _ n 0).
    + unfold ulp_exponent. pose proof (ilog2_Z_lt n 53). lia.
    + change (pow2 0) with 1. ring.
Qed.

Lemma Qred_inject_Z (n : Z) : Qred (inject_Z n) = inject_Z n.
Proof.
  unfold Qred, inject_Z.
  pose proof (Z.ggcd_gcd n 1) as Hg. pose proof (Z.ggcd_correct_divisors n 1) as Hd.
  destruct (Z.ggcd n 1) as [g [aa bb]]. simpl in *. rewrite Z.gcd_1_r in Hg. subst g.
  destruct Hd as [Haa Hbb]. replace bb with 1%Z by lia. replace aa with n by lia. done.
Qed.

Lemma round_fin_Z (n : Z) : (Z.abs n <= 2 ^ 53)%Z -> round_fin (inject_Z n) = inject_Z n.
Proof.
  intros Hn. rewrite <- (Qred_inject_Z n) at 2. unfold round_fin. apply Qred_complete.
  destruct (Qltb (inject_Z n) 0) eqn:E.
  - apply Qltb_lt in E. change 0 with (inject_Z 0) in E. rewrite <- Zlt_Qlt in E.
    rewrite <- inject_Z_opp, round_pos_Z by lia. rewrite inject_Z_opp. ring.
  - apply Qltb_ge in E. change 0 with (inject_Z 0) in E. rewrite <- Zle_Qle in E.
    apply round_pos_Z. lia.
Qed.

Lemma round64_Z (n : Z) : (Z.abs n <= 2 ^ 53)%Z -> round64 (inject_Z n) = Finite (inject_Z n).
Proof.
  intros Hn. unfold round64. rewrite round_fin_Z by done.
  assert (inject_Z (Z.abs n) < pow2 1024) as Hlt.
  { apply Qle_lt_trans with (pow2 53); [| by apply pow2_lt].
    rewrite <- pow2_inject by done. by rewrite <- Zle_Qle. }
  assert (- inject_Z (Z.abs n) <= inject_Z n /\ inject_Z n <= inject_Z (Z.abs n)) as [H1 H2].
  { rewrite <- inject_Z_opp, <- !Zle_Qle. lia. }
  destruct (Qle_bool (pow2 1024) (inject_Z n)) eqn:E1.
  { apply Qle_bool_iff in E1. exfalso. lra. }
  destruct (Qle_bool (inject_Z n) (- pow2 1024)) eqn:E2; [| done].
  apply Qle_bool_iff in E2. exfalso. lra.
Qed.

(** The error of rounding to the nearest integer, and the relative error of
    rounding to a double in the normal range. *)
Lemma rne_error (q : Q) : Qabs (inject_Z (rne q) - q) <= 1 # 2.
Proof.
  pose proof (Qfloor_le q) as F1. pose proof (Qlt_floor q) as F2.
  rewrite inject_Z_plus in F2. change (inject_Z 1) with 1 in F2.
  apply Qabs_Qle_condition.
  destruct (rne_cases q) as [[-> H] | [-> H]].
  - split; lra.
  - rewrite inject_Z_plus. change (inject_Z 1) with 1. split; lra.
Qed.

Lemma round_pos_error (q : Q) :
  pow2 (-1022) <= q -> Qabs (round_pos q - q) <= q * pow2 (-53).
Proof.
  intros Hq.
  assert (0 < q) as Hpos by (eapply Qlt_le_trans; [apply (pow2_pos (-1022)) | done]).
  destruct (ilog2_spec q Hpos) as [S1 S2].
  assert (-1022 <= ilog2 q)%Z as Hlog.
  { assert (-1022 < ilog2 q + 1)%Z; [| lia]. apply pow2_lt_inv. eapply Qle_lt_trans; done. }
  unfold round_pos. unfold ulp_exponent.
  replace (Z.max (ilog2 q - 52) (-1074)) with (ilog2 q - 52)%Z by lia.
  set (e := (ilog2 q - 52)%Z).
  pose proof (pow2_pos e) as Pe.
  pose proof (rne_error (q / pow2 e)) as Herr.
  assert (inject_Z (rne (q / pow2 e)) * pow2 e - q
          == (inject_Z (rne (q / pow2 e)) - q / pow2 e) * pow2 e) as -> by (field; lra).
  rewrite Qabs_Qmult, (Qabs_pos (pow2 e)) by lra.
  apply Qle_trans with ((1 # 2) * pow2 e).
  - apply Qmult_le_compat_r; [done | lra].
  - assert (pow2 (ilog2 q) == pow2 e * pow2 52) as E1.
    { rewrite <- pow2_add. f_equiv. unfold e. lia. }
    assert (pow2 e == pow2 (ilog2 q) * (2 * pow2 (-53))) as E2.
    { rewrite E1. assert (pow2 52 * (2 * pow2 (-53)) == 1) as E3 by reflexivity.
      rewrite <- Qmult_assoc, E3. ring. }
    rewrite E2.
    assert (0 < pow2 (-53)) by apply pow2_pos.
    assert (pow2 (ilog2 q) * pow2 (-53) <= q * pow2 (-53)).
    { apply Qmult_le_compat_r; [done | lra]. }
    lra.
Qed.

Lemma round_fin_error (q : Q) :
  pow2 (-1022) <= q -> Qabs (round_fin q - q) <= q * pow2 (-53).
Proof.
  intros Hq.
  assert (0 < q) as Hpos by (eapply Qlt_le_trans; [apply (pow2_pos (-1022)) | done]).
  rewrite round_fin_eq.
  assert (Qltb q 0 = false) as -> by (apply Qltb_ge; lra).
  by apply round_pos_error.
Qed.

Lemma round_fin_pow2 (k : Z) : (-1074 <= k)%Z -> round_fin (pow2 k) == pow2 k.
Proof.
  intros Hk. rewrite round_fin_eq. pose proof (pow2_pos k) as P.
  assert (Qltb (pow2 k) 0 = false) as -> by (apply Qltb_ge; lra).
  apply (round_pos_multiple _ 1 k).
  - unfold ulp_exponent.
    rewrite (ilog2_unique (pow2 k) k); [lia | apply Qle_refl | apply pow2_lt; lia].
  - ring.
Qed.

(** A number within the range of the doubles is rounded to a finite one. *)
Lemma round64_finite (q : Q) (k : Z) :
  (-1074 <= k < 1024)%Z -> Qabs q <= pow2 k ->
  round64 q = Finite (round_fin q) /\ Qabs (round_fin q) <= pow2 k.
Proof.
  intros Hk Hq. apply Qabs_Qle_condition in Hq as [Hlo Hhi].
  pose proof (round_fin_mono _ _ Hlo) as Rlo. pose proof (round_fin_mono _ _ Hhi) as Rhi.
  rewrite round_fin_opp in Rlo. rewrite round_fin_pow2 in Rlo, Rhi by lia.
  assert (pow2 k < pow2 1024) as Hlt by (apply pow2_lt; lia).
  split; [| apply Qabs_Qle_condition; split; done].
  unfold round64.
  destruct (Qle_bool (pow2 1024) (round_fin q)) eqn:E1.
  { apply Qle_bool_iff in E1. exfalso. lra. }
  destruct (Qle_bool (round_fin q) (- pow2 1024)) eqn:E2; [| done].
  apply Qle_bool_iff in E2. exfalso. lra.
Qed.

End Rounding.

(** On these samples, which cover the normal and the subnormal range, the
    ties, the overflow and the quotients, products and differences of the
    examples below, [round64] and [truediv] give what the specification
    of binary64 in the Standard Library gives. *)
Lemma round64_matches_binary_normalize :
  forallb
    (fun '(m, e) =>
       float_eqb (of_spec_float (binary_normalize 53 1024 m e false))
         (round64 (inject_Z m * pow2 e)))
    [ (0, 0); (1, 0); (-1, 0); (11, -1); (2 ^ 53 + 1, 0); (2 ^ 53 + 3, 0);
      (- (2 ^ 53 + 1), 0); (3 * 2 ^ 52 + 1, 0); (2 ^ 54 + 1, -1);
      (123456789012345678901234567890, -40); (1, -1074); (1, -1075); (3, -1075);
      (3, -1076); (5, -1076); (2 ^ 52 + 1, -1075); (2 ^ 53 - 1, -1075);
      (2 ^ 53 - 1, 971); (2 ^ 54 - 1, 970); (2 ^ 54 - 2, 970); (2 ^ 54 - 3, 970);
      (- (2 ^ 54 - 1), 970); (1, 1024); (1, 1023); (7, -1100) ]
  = true.
Proof. vm_compute. reflexivity. Qed.

Lemma truediv_matches_SFdiv :
  forallb
    (fun '(a, b) =>
       float_eqb (of_spec_float (SFdiv 53 1024 (spec_of_int a) (spec_of_int b)))
         (truediv (of_int a) (of_int b)))
    [ (11, 20); (500, 140); (1, 10); (30, 100); (160, 130); (1, 3); (2, 3);
      (-20, 80); (11, 10); (0, 5); (5, 0); (-5, 0); (0, 0); (39, 10);
      (3 * 2 ^ 52 + 1, 2 ^ 53); (2 ^ 62 + 12345, 3) ]
  = true.
Proof. vm_compute. reflexivity. Qed.

Lemma product_and_difference_match :
  float_eqb
    (of_spec_float (SFmul 53 1024 (SFdiv 53 1024 (spec_of_int 11) (spec_of_int 20))
                      (spec_of_int 100)))
    (round64 (round_fin (11 # 20) * 100)) = true
  /\ float_eqb
       (of_spec_float (SFsub 53 1024 (SFdiv 53 1024 (spec_of_int 39) (spec_of_int 10))
                         (spec_of_int 4)))
       (round64 (round_fin (39 # 10) - 4)) = true
  /\ float_eqb
       (of_spec_float (SFsub 53 1024 (SFdiv 53 1024 (spec_of_int 6) (spec_of_int 10))
                         (SFdiv 53 1024 (spec_of_int 1) (spec_of_int 10))))
       (round64 (round_fin (6 # 10) - round_fin (1 # 10))) = true.
Proof. vm_compute. repeat split. Qed.

Section CMEVolumeFacts.
Import CMEVolume Reading.

Lemma window_at_length (w : nat) (xs : list Z) (i : nat) :
  (i < length xs)%nat -> length (window_at w xs i) = (S i `min` w)%nat.
Proof.
  intros Hi. unfold window_at. rewrite length_drop, length_take. lia.
Qed.

Lemma window_at_lookup (w : nat) (xs : list Z) (i k : nat) :
  (i < length xs)%nat -> (k < S i `min` w)%nat ->
  window_at w xs i !! k = xs !! (S i - (S i `min` w) + k)%nat.
Proof.
  intros Hi Hk. unfold window_at.
  rewrite lookup_drop, lookup_take_lt by lia. f_equal. lia.
Qed.


Lemma rolling_mean_length (w m : nat) (xs : list Z) :
  length (rolling_mean w m xs) = length xs.
Proof. unfold rolling_mean. by rewrite length_fmap, length_seq. Qed.



Lemma add_columns_length (w : nat) (df : list volume_row) :
  length (add_columns w df) = length df.
Proof. unfold add_columns. by rewrite length_imap. Qed.


(** Filtering a frame built by [imap] is filtering its positions. *)
Lemma filter_imap_positions {A B : Type} (f : nat -> A -> B) (pos : B -> nat)
    (P : B -> bool) (Q : nat -> bool) (l : list A) (n : nat) :
  (forall i a, pos (f (n + i)%nat a) = (n + i)%nat) ->
  (forall i a, l !! i = Some a -> P (f (n + i)%nat a) = Q (n + i)%nat) ->
  pos <$> List.filter P (imap (fun i => f (n + i)%nat) l)
  = List.filter Q (seq n (length l)).
Proof.
  intros Hpos. revert n Hpos. induction l as [| a l IH]; intros n Hpos HPQ; [done |].
  simpl. rewrite (HPQ 0%nat a eq_refl). rewrite Nat.add_0_r.
  assert (pos <$> List.filter P (imap ((fun i => f (n + i)%nat) ∘ S) l)
          = List.filter Q (seq (S n) (length l))) as Htl.
  { rewrite <- (IH (S n)).
    - f_equal. f_equal. apply imap_ext. intros i x _. simpl. f_equal. lia.
    - intros i x. replace (S n + i)%nat with (n + S i)%nat by lia. apply Hpos.
    - intros i x Hx. replace (S n + i)%nat with (n + S i)%nat by lia.
      by apply HPQ. }
  destruct (Q n); simpl.
  - rewrite <- (Nat.add_0_r n) at 1. rewrite Hpos, Nat.add_0_r. by f_equal.
  - done.
Qed.


Lemma sort_values_length (df : list volume_row) :
  length (sort_values df) = length df.
Proof.
  assert (forall r l, length (insert_by_date r l) = S (length l)) as Hins.
  { intros r l. induction l as [| r' l IH]; [done |]. simpl.
    destruct (date r <=? date r'); simpl; by rewrite ?IH. }
  unfold sort_values. induction df as [| r df IH]; [done |]. simpl.
  by rewrite Hins, IH.
Qed.

Lemma rolling_ok (w : Z) : 1 <= w -> rolling w 1 = Ok (Z.to_nat w).
Proof.
  intros Hw. unfold rolling. destruct (Z.ltb_spec w (Z.of_nat 1)); [lia | done].
Qed.



Lemma insert_by_date_perm (r : volume_row) (l : list volume_row) :
  insert_by_date r l ≡ₚ r :: l.
Proof.
  induction l as [| r' l IH]; [done |]. simpl.
  destruct (date r <=? date r'); [done |].
  rewrite IH. apply Permutation_swap.
Qed.

Lemma sort_values_perm (df : list volume_row) : sort_values df ≡ₚ df.
Proof.
  unfold sort_values. induction df as [| r df IH]; [done |]. simpl.
  by rewrite insert_by_date_perm, IH.
Qed.





Lemma window_at_sublist (w : nat) (xs : list Z) (i : nat) (v : Z) :
  v ∈ window_at w xs i -> v ∈ xs.
Proof.
  unfold window_at. intros H.
  eapply subseteq_take, subseteq_drop, H.
Qed.

(** *** The spike detector *)








(** *** Configuration *)




(** *** The calendar matcher *)

Lemma days_strptime (d : Z) : days (strptime d) = d.
Proof. unfold days, strptime. by apply Z.div_mul. Qed.

(** What [check_season] returns, case by case. *)
Lemma check_season_cases (d : datetime) (s : season) :
  let start_date := strptime (season_start s) in
  let end_date := strptime (season_end s) in
  (start_date <= d <= end_date ->
     check_season d s
     = [Earnings_Season (season_description s) (season_start s) (season_end s)])
  /\ (~ start_date <= d <= end_date -> Z.abs (days (d - start_date)) <= 5 ->
      check_season d s
      = [Upcoming_Earnings_Season (season_description s) (season_start s)
           (days (start_date - d))])
  /\ (~ start_date <= d <= end_date -> 5 < Z.abs (days (d - start_date)) ->
      check_season d s = []).
Proof.
  intros start_date end_date. unfold check_season.
  fold start_date end_date.
  destruct (Z.leb_spec start_date d), (Z.leb_spec d end_date),
    (Z.leb_spec (Z.abs (days (d - start_date))) 5); simpl;
    repeat split; intros; try done; lia.
Qed.

(** Before the start of a season, "within 5 days" is meant in elapsed
    time: the query date precedes the start by at most 5 days. *)
Lemma upcoming_before_start (d : datetime) (s : season) :
  d < strptime (season_start s) ->
  (Z.abs (days (d - strptime (season_start s))) <= 5
   <-> strptime (season_start s) - d <= 5 * us_per_day).
Proof.
  intros Hlt. unfold days, us_per_day in *.
  set (x := strptime (season_start s)) in *.
  pose proof (Z.div_mod (d - x) 86400000000 ltac:(lia)) as Hdm.
  pose proof (Z.mod_pos_bound (d - x) 86400000000 ltac:(lia)) as Hb.
  lia.
Qed.

(** For a season of at least six days the matcher behaves as C3 says. *)
Lemma check_season_long (d : datetime) (s : season) :
  season_start s + 6 <= season_end s ->
  strptime (season_end s) < d -> check_season d s = [].
Proof.
  intros Hlong Hafter.
  apply (check_season_cases d s); [lia |].
  unfold days, strptime, us_per_day in *.
  assert (6 <= (d - season_start s * 86400000000) / 86400000000).
  { apply Z.div_le_lower_bound; lia. }
  lia.
Qed.

(** C3 on the code: with an earnings season that lasts from 2025-04-15 to
    2025-04-16 in the calendar, the query date 2025-04-18, two days after
    the end of the season, is reported with the season as "Upcoming
    Earnings Season", [days_away] being -3. *)
Theorem short_season_flagged_after_end :
  let s := {| season_start := 739356; season_end := 739357;
              season_description := "Short season" |} in
  let d := strptime 739359 in
  strptime (season_end s) < d
  /\ check_economic_events (init (Some (one_season s))) d
     = [Upcoming_Earnings_Season "Short season" 739356 (-3)].
Proof. split; [reflexivity | vm_compute; reflexivity]. Qed.

End CMEVolumeFacts.

Section NewsSentimentFacts.
Import NewsSentiment.

Lemma Qnat_nonneg (n : nat) : (0 <= Qnat n)%Q.
Proof. unfold Qnat. rewrite <- (Zle_Qle 0). lia. Qed.

Lemma Qnat_le (m n : nat) : (m <= n)%nat -> (Qnat m <= Qnat n)%Q.
Proof. intros H. unfold Qnat. rewrite <- Zle_Qle. lia. Qed.

Lemma Qnat_pos (n : nat) : (0 < n)%nat -> (0 < Qnat n)%Q.
Proof. intros H. unfold Qnat. rewrite <- (Zlt_Qlt 0). lia. Qed.

(** The if/elif/else of "Determine overall sentiment", branch by branch. *)
Lemma overall_sentiment_cases (data : tally) :
  let b := Qnat (n_bullish data) in
  let r := Qnat (n_bearish data) in
  (overall_sentiment data = bullish <-> (r * (3 # 2) < b)%Q)
  /\ (overall_sentiment data = bearish <-> (b * (3 # 2) < r)%Q)
  /\ (overall_sentiment data = neutral
      <-> ~ (r * (3 # 2) < b)%Q /\ ~ (b * (3 # 2) < r)%Q).
Proof.
  intros b r. unfold overall_sentiment. fold b r.
  pose proof (Qnat_nonneg (n_bullish data)) as Hb.
  pose proof (Qnat_nonneg (n_bearish data)) as Hr. fold b in Hb. fold r in Hr.
  destruct (Qltb (r * (3 # 2)) b) eqn:E1.
  - apply Qltb_lt in E1. repeat split; intros; try done; try lra; tauto.
  - apply Qltb_ge in E1.
    destruct (Qltb (b * (3 # 2)) r) eqn:E2.
    + apply Qltb_lt in E2. repeat split; intros; try done; try lra; tauto.
    + apply Qltb_ge in E2. repeat split; intros; try done; lra.
Qed.

Lemma make_suggestion_some (ty : asset_type) (sym : string) (data : tally)
    (s : suggestion) :
  make_suggestion ty sym data = Some s ->
  (2 <= total_articles data)%nat
  /\ symbol s = sym /\ type s = ty
  /\ sg_sentiment s = overall_sentiment data
  /\ article_count s = total_articles data
  /\ confidence s
     = percentage (count data (overall_sentiment data)) (total_articles data).
Proof.
  unfold make_suggestion.
  destruct (Nat.ltb_spec (total_articles data) 2); [done |].
  intros [= <-]. simpl. repeat split; done.
Qed.

Lemma make_suggestion_enough (ty : asset_type) (sym : string) (data : tally) :
  (2 <= total_articles data)%nat -> is_Some (make_suggestion ty sym data).
Proof.
  intros H. unfold make_suggestion.
  destruct (Nat.ltb_spec (total_articles data) 2); [lia | by eexists].
Qed.

(** *** The percentage in doubles *)

Lemma share_bounds (c n : nat) :
  (c <= n)%nat -> (0 < n)%nat -> (0 <= Qnat c / Qnat n <= 1)%Q.
Proof.
  intros Hcn Hn. pose proof (Qnat_pos n Hn) as Hq. split.
  - apply Qle_shift_div_l; [done |]. rewrite Qmult_0_l. apply Qnat_nonneg.
  - apply Qle_shift_div_r; [done |]. rewrite Qmult_1_l. by apply Qnat_le.
Qed.

Lemma share_lower (c n : nat) (k : Z) :
  (0 < c <= n)%nat -> Z.of_nat n <= 2 ^ k -> 0 <= k -> (pow2 (- k) <= Qnat c / Qnat n)%Q.
Proof.
  intros [Hc Hcn] Hn Hk.
  assert (0 < Qnat n)%Q as Hq by (apply Qnat_pos; lia).
  assert (Qnat n <= pow2 k)%Q as Hnk.
  { unfold Qnat. rewrite <- pow2_inject by done. by rewrite <- Zle_Qle. }
  assert (1 <= Qnat c)%Q as Hc1.
  { unfold Qnat. rewrite <- (Zle_Qle 1). lia. }
  pose proof (pow2_pos (- k)) as Pk.
  assert (pow2 (- k) * pow2 k == 1)%Q as E.
  { rewrite <- pow2_add. replace (- k + k) with 0 by lia. reflexivity. }
  apply Qle_shift_div_l; [done |].
  apply Qle_trans with (pow2 (- k) * pow2 k)%Q; [| lra].
  apply Qmult_le_l; done.
Qed.

Lemma percentage_bounds (c n : nat) :
  (c <= n)%nat -> (0 < n)%nat -> (0 <= percentage c n <= 100)%Q.
Proof.
  intros Hcn Hn. destruct (share_bounds c n Hcn Hn) as [Hlo Hhi].
  pose proof (round_fin_mono _ _ Hlo) as R0. pose proof (round_fin_mono _ _ Hhi) as R1.
  change (round_fin 0) with 0%Q in R0. change (round_fin 1) with 1%Q in R1.
  unfold percentage. set (x := round_fin (Qnat c / Qnat n)) in *.
  assert (0 <= x * 100)%Q as H0 by lra. assert (x * 100 <= 100)%Q as H1 by lra.
  apply round_fin_mono in H0, H1.
  change (round_fin 0) with 0%Q in H0. change (round_fin 100) with 100%Q in H1. done.
Qed.

Lemma percentage_pos (c n : nat) :
  (0 < c <= n)%nat -> Z.of_nat n <= 2 ^ 1074 -> (0 < percentage c n)%Q.
Proof.
  intros Hc Hn.
  pose proof (share_lower c n 1074 Hc Hn ltac:(lia)) as Hlo.
  change (pow2 (Z.opp 1074)) with (pow2 (-1074)) in Hlo.
  pose proof (round_fin_mono _ _ Hlo) as R. rewrite round_fin_pow2 in R by lia.
  pose proof (pow2_pos (-1074)) as P. unfold percentage.
  apply Qlt_le_trans with (pow2 (-1074)); [done |].
  rewrite <- (round_fin_pow2 (-1074)) by lia. apply round_fin_mono. lra.
Qed.

(** In the normal range the percentage is the exact one up to two
    roundings. *)
Lemma percentage_error (c n : nat) :
  (c <= n)%nat -> (0 < n)%nat -> Z.of_nat n <= 2 ^ 1022 ->
  let exact := (Qnat c / Qnat n * 100)%Q in
  (Qabs (percentage c n - exact) <= exact * pow2 (-51))%Q.
Proof.
  intros Hcn Hn Hbig exact. unfold exact, percentage.
  destruct (Nat.eq_dec c 0%nat) as [-> | Hc].
  - assert (Qnat 0 / Qnat n == 0)%Q as E by (unfold Qdiv; apply Qmult_0_l).
    rewrite (round_fin_comp _ _ E). change (round_fin 0) with 0%Q.
    assert (0 * 100 == 0)%Q as E2 by ring.
    rewrite (round_fin_comp _ _ E2). change (round_fin 0) with 0%Q.
    rewrite E. apply Qabs_Qle_condition. split; lra.
  - set (a := (Qnat c / Qnat n)%Q).
    assert (pow2 (-1022) <= a)%Q as Ha by (apply (share_lower c n 1022); lia).
    pose proof (pow2_pos (-1022)) as P.
    pose proof (round_fin_error a Ha) as E1.
    assert (round_fin (pow2 (-1022)) == pow2 (-1022))%Q as Emin
      by (apply round_fin_pow2; lia).
    pose proof (round_fin_mono _ _ Ha) as Hx. rewrite Emin in Hx.
    set (x := round_fin a) in *.
    assert (pow2 (-1022) <= x * 100)%Q as Hx100 by lra.
    pose proof (round_fin_error (x * 100) Hx100) as E2.
    set (y := round_fin (x * 100)) in *.
    apply Qabs_Qle_condition in E1 as [E1a E1b].
    apply Qabs_Qle_condition in E2 as [E2a E2b].
    assert (pow2 (-53) == 1 # 9007199254740992)%Q as U by reflexivity.
    assert (pow2 (-51) == 1 # 2251799813685248)%Q as U' by reflexivity.
    rewrite U in *. rewrite U'.
    apply Qabs_Qle_condition. split; lra.
Qed.

(** *** Dictionaries *)

Lemma upsert_get (k k' : string) (f : tally -> tally) (d : dict) :
  dict_get k (upsert k' f d)
  = if String.eqb k k' then Some (f (default new_tally (dict_get k' d)))
    else dict_get k d.
Proof.
  induction d as [| [k0 v0] d IH]; simpl.
  - destruct (String.eqb_spec k k'); done.
  - destruct (String.eqb_spec k' k0) as [-> | Hne]; simpl.
    + destruct (String.eqb_spec k k0); done.
    + rewrite IH. destruct (String.eqb_spec k k') as [-> | Hne'].
      * by destruct (String.eqb_spec k' k0).
      * done.
Qed.

Lemma upsert_keys (k : string) (f : tally -> tally) (d : dict) :
  (upsert k f d).*1 = if decide (k ∈ d.*1) then d.*1 else d.*1 ++ [k].
Proof.
  induction d as [| [k0 v0] d IH].
  - cbn [upsert fmap list_fmap fst app].
    destruct (decide (k ∈ [])) as [Hin | _]; [| reflexivity].
    by apply not_elem_of_nil in Hin.
  - cbn [upsert]. destruct (String.eqb_spec k k0) as [-> | Hne].
    + cbn [fmap list_fmap fst].
      destruct (decide (k0 ∈ k0 :: d.*1)) as [_ | Hout]; [reflexivity |].
      exfalso. apply Hout, list_elem_of_here.
    + rewrite !fmap_cons, IH. cbn [fst].
      destruct (decide (k ∈ d.*1)) as [Hin | Hout],
        (decide (k ∈ k0 :: d.*1)) as [Hin' | Hout']; try reflexivity.
      * exfalso. by apply Hout', list_elem_of_further.
      * apply elem_of_cons in Hin' as [-> | Hin']; done.
Qed.

Lemma upsert_NoDup (k : string) (f : tally -> tally) (d : dict) :
  NoDup d.*1 -> NoDup (upsert k f d).*1.
Proof.
  intros H. rewrite upsert_keys. destruct (decide (k ∈ d.*1)); [done |].
  apply NoDup_app. split; [done |]. split; [| apply NoDup_singleton].
  intros x Hx ->%list_elem_of_singleton. done.
Qed.

Lemma dict_get_elem (k : string) (v : tally) (d : dict) :
  NoDup d.*1 -> (k, v) ∈ d -> dict_get k d = Some v.
Proof.
  induction d as [| [k0 v0] d IH]; simpl.
  - intros _ H. by apply not_elem_of_nil in H.
  - intros [Hk0 Hnd]%NoDup_cons Hin.
    apply elem_of_cons in Hin as [[= -> ->] | Hin].
    + by rewrite String.eqb_refl.
    + destruct (String.eqb_spec k k0) as [-> | Hne]; [| by apply IH].
      exfalso. apply Hk0. apply list_elem_of_fmap. by exists (k0, v).
Qed.

(** Number of articles tallied under [k]. *)
Lemma total_record_article (a : analyzed_article) (t : tally) :
  total_articles (record_article a t) = S (total_articles t).
Proof.
  unfold record_article, total_articles. destruct (art_sentiment a); simpl; lia.
Qed.

Lemma total_upsert (k k' : string) (a : analyzed_article) (d : dict) :
  from_option total_articles 0%nat (dict_get k (upsert k' (record_article a) d))
  = (from_option total_articles 0%nat (dict_get k d)
     + if String.eqb k k' then 1 else 0)%nat.
Proof.
  rewrite upsert_get. destruct (String.eqb_spec k k') as [-> | Hne]; simpl.
  - rewrite total_record_article. destruct (dict_get k' d); simpl; [lia | done].
  - lia.
Qed.

Lemma total_tally_symbols (k : string) (a : analyzed_article)
    (symbols : list string) (d : dict) :
  from_option total_articles 0%nat (dict_get k (tally_symbols a symbols d))
  = (from_option total_articles 0%nat (dict_get k d) + occurrences k symbols)%nat.
Proof.
  unfold tally_symbols, occurrences. revert d.
  induction symbols as [| k' symbols IH]; intros d; simpl; [lia |].
  rewrite IH, total_upsert. destruct (String.eqb k k'); simpl; lia.
Qed.

Lemma tally_symbols_NoDup (a : analyzed_article) (symbols : list string) (d : dict) :
  NoDup d.*1 -> NoDup (tally_symbols a symbols d).*1.
Proof.
  unfold tally_symbols. revert d.
  induction symbols as [| k symbols IH]; intros d Hd; simpl; [done |].
  by apply IH, upsert_NoDup.
Qed.

(** Invariant of the grouping loop, for either dictionary. *)
Lemma group_loop_invariant (analyzed_data : list analyzed_article) (st : dict * dict) :
  NoDup (fst st).*1 -> NoDup (snd st).*1 ->
  let st' := fold_left group_step analyzed_data st in
  NoDup (fst st').*1 /\ NoDup (snd st').*1
  /\ (forall k,
        from_option total_articles 0%nat (dict_get k (fst st'))
        = (from_option total_articles 0%nat (dict_get k (fst st))
           + tagged_total tickers k analyzed_data)%nat)
  /\ (forall k,
        from_option total_articles 0%nat (dict_get k (snd st'))
        = (from_option total_articles 0%nat (dict_get k (snd st))
           + tagged_total crypto_tokens k analyzed_data)%nat).
Proof.
  revert st. induction analyzed_data as [| a data IH]; intros st H1 H2; simpl.
  - unfold tagged_total. simpl. repeat split; try done; intros; lia.
  - destruct (IH (group_step st a)) as (I1 & I2 & I3 & I4).
    + by apply tally_symbols_NoDup.
    + by apply tally_symbols_NoDup.
    + repeat split; try done.
      * intros k. rewrite I3. simpl. rewrite total_tally_symbols.
        unfold tagged_total. simpl. lia.
      * intros k. rewrite I4. simpl. rewrite total_tally_symbols.
        unfold tagged_total. simpl. lia.
Qed.

Lemma dict_of_total (ty : asset_type) (analyzed_data : list analyzed_article)
    (sym : string) (data : tally) :
  (sym, data) ∈ dict_of ty analyzed_data ->
  total_articles data = tagged_total (column ty) sym analyzed_data.
Proof.
  intros Hin.
  destruct (group_loop_invariant analyzed_data ([], []))
    as (N1 & N2 & T1 & T2); try apply NoDup_nil_2.
  fold (group_articles analyzed_data) in *.
  destruct ty; simpl in *.
  - specialize (T1 sym). by rewrite (dict_get_elem _ _ _ N1 Hin) in T1.
  - specialize (T2 sym). by rewrite (dict_get_elem _ _ _ N2 Hin) in T2.
Qed.

(** *** The two suggestion loops *)

Lemma get_append (out : suggestions) (s' k : sentiment) (x s : suggestion) :
  s ∈ get (append out s' x) k <-> s ∈ get out k \/ (s = x /\ s' = k).
Proof.
  destruct s', k; simpl; rewrite ?elem_of_app, ?list_elem_of_singleton;
    intuition congruence.
Qed.

Lemma process_dict_elem (ty : asset_type) (d : dict) (out : suggestions)
    (k : sentiment) (s : suggestion) :
  s ∈ get (process_dict ty d out) k
  <-> s ∈ get out k
      \/ exists sym data, (sym, data) ∈ d
            /\ make_suggestion ty sym data = Some s /\ sg_sentiment s = k.
Proof.
  unfold process_dict. revert out.
  induction d as [| [sym0 data0] d IH]; intros out; simpl.
  - split; [by left |]. intros [H | (sym & data & H & _)]; [done |].
    by apply not_elem_of_nil in H.
  - rewrite IH. unfold suggest_step. simpl.
    split.
    + intros [H | (sym & data & Hin & Hmk & Hk)].
      * destruct (make_suggestion ty sym0 data0) as [x |] eqn:E; [| by left].
        apply get_append in H as [H | [-> Hk]]; [by left |].
        right. exists sym0, data0. split; [apply list_elem_of_here | done].
      * right. exists sym, data. split; [by apply list_elem_of_further | done].
    + intros [H | (sym & data & Hin & Hmk & Hk)].
      * left. destruct (make_suggestion ty sym0 data0); [| done].
        apply get_append. by left.
      * apply elem_of_cons in Hin as [[= -> ->] | Hin].
        -- left. rewrite Hmk. apply get_append. by right.
        -- right. by exists sym, data.
Qed.

Lemma collect_suggestions_elem (analyzed_data : list analyzed_article)
    (k : sentiment) (s : suggestion) :
  s ∈ get (collect_suggestions analyzed_data) k
  <-> exists ty sym data, (sym, data) ∈ dict_of ty analyzed_data
        /\ make_suggestion ty sym data = Some s /\ sg_sentiment s = k.
Proof.
  unfold collect_suggestions, dict_of.
  destruct (group_articles analyzed_data) as [ts cs]. simpl.
  rewrite !process_dict_elem. split.
  - intros [[H | (sym & data & H)] | (sym & data & H)].
    + destruct k; by apply not_elem_of_nil in H.
    + by exists stock, sym, data.
    + by exists crypto, sym, data.
  - intros ([] & sym & data & H).
    + left. right. by exists sym, data.
    + right. by exists sym, data.
Qed.

Section Sorted.

(** The final sort only reorders each list. *)
Variable sort_by_confidence : list suggestion -> list suggestion.
Hypothesis sort_by_confidence_perm : forall l, sort_by_confidence l ≡ₚ l.

Lemma generate_elem (analyzed_data : list analyzed_article)
    (k : sentiment) (s : suggestion) :
  s ∈ get (generate_position_suggestions sort_by_confidence analyzed_data) k
  <-> exists ty sym data, (sym, data) ∈ dict_of ty analyzed_data
        /\ make_suggestion ty sym data = Some s /\ sg_sentiment s = k.
Proof.
  rewrite <- collect_suggestions_elem.
  unfold generate_position_suggestions.
  destruct analyzed_data as [| a data].
  - by destruct k.
  - destruct k; simpl; by rewrite sort_by_confidence_perm.
Qed.

End Sorted.

Lemma insert_by_confidence_perm (x : suggestion) (l : list suggestion) :
  insert_by_confidence x l ≡ₚ x :: l.
Proof.
  induction l as [| y l IH]; [done |]. simpl.
  destruct (Qle_bool (confidence y) (confidence x)); [done |].
  rewrite IH. apply Permutation_swap.
Qed.

Lemma sort_confidence_desc_perm (l : list suggestion) : sort_confidence_desc l ≡ₚ l.
Proof.
  unfold sort_confidence_desc. induction l as [| x l IH]; [done |]. simpl.
  by rewrite insert_by_confidence_perm, IH.
Qed.

(** *** Claims on the aggregator *)

(** C2: a tally of at least two articles yields a suggestion, whose
    sentiment is bullish if and only if the bullish count exceeds 1.5
    times the bearish count, bearish if and only if the bearish count
    exceeds 1.5 times the bullish count, and neutral otherwise; the
    suggestion of every such tally of either dictionary is in the output
    list of that sentiment.  The counts 6/3/1 give bullish; the counts 5/4
    give neutral although bullish has the plurality. *)
Theorem super_majority_rule :
  (forall (ty : asset_type) (sym : string) (data : tally),
      (2 <= total_articles data)%nat ->
      exists s, make_suggestion ty sym data = Some s
        /\ (sg_sentiment s = bullish
            <-> (Qnat (n_bearish data) * (3 # 2) < Qnat (n_bullish data))%Q)
        /\ (sg_sentiment s = bearish
            <-> (Qnat (n_bullish data) * (3 # 2) < Qnat (n_bearish data))%Q)
        /\ (sg_sentiment s = neutral
            <-> ~ (Qnat (n_bearish data) * (3 # 2) < Qnat (n_bullish data))%Q
                /\ ~ (Qnat (n_bullish data) * (3 # 2) < Qnat (n_bearish data))%Q))
  /\ (forall (sort_by_confidence : list suggestion -> list suggestion)
             (analyzed_data : list analyzed_article)
             (ty : asset_type) (sym : string) (data : tally),
      (forall l, sort_by_confidence l ≡ₚ l) ->
      (sym, data) ∈ dict_of ty analyzed_data ->
      (2 <= total_articles data)%nat ->
      exists s, make_suggestion ty sym data = Some s
        /\ forall k,
             s ∈ get (generate_position_suggestions sort_by_confidence analyzed_data) k
             <-> k = sg_sentiment s)
  /\ (let out := generate_position_suggestions sort_confidence_desc
                   (six_three_one ++ five_four) in
      (symbol <$> sg_bullish out) = ["AAPL"%string]
      /\ sg_bearish out = []
      /\ (symbol <$> sg_neutral out) = ["MSFT"%string]).
Proof.
  split; [| split].
  - intros ty sym data Htot.
    destruct (make_suggestion_enough ty sym data Htot) as [s Hs].
    exists s. split; [done |].
    apply make_suggestion_some in Hs as (_ & _ & _ & -> & _).
    apply overall_sentiment_cases.
  - intros sort_by_confidence analyzed_data ty sym data Hperm Hin Htot.
    destruct (make_suggestion_enough ty sym data Htot) as [s Hs].
    exists s. split; [done |]. intros k.
    rewrite (generate_elem sort_by_confidence Hperm). split.
    + intros (ty' & sym' & data' & _ & _ & <-). done.
    + intros ->. by exists ty, sym, data.
  - vm_compute. done.
Qed.

Lemma super_majority_rule_witness :
  exists s,
    make_suggestion stock "AAPL"
      {| n_bullish := 6; n_bearish := 3; n_neutral := 1; articles := [] |} = Some s
    /\ sg_sentiment s = bullish.
Proof.
  destruct (proj1 super_majority_rule stock "AAPL"%string
              {| n_bullish := 6; n_bearish := 3; n_neutral := 1; articles := [] |})
    as (s & Hs & Hbull & _).
  - unfold total_articles. simpl. lia.
  - exists s. split; [exact Hs |]. apply Hbull. reflexivity.
Defined.

Section Aggregator.

Variable sort_by_confidence : list suggestion -> list suggestion.
Hypothesis sort_by_confidence_perm : forall l, sort_by_confidence l ≡ₚ l.

(** C6: a symbol that fewer than two tags of the articles name, in the
    ticker column or in the crypto column, has no suggestion of that kind
    in any of the three output lists. *)
Theorem sparse_symbol_excluded
    (analyzed_data : list analyzed_article) (ty : asset_type) (sym : string) :
  (tagged_total (column ty) sym analyzed_data < 2)%nat ->
  forall (k : sentiment) (s : suggestion),
    s ∈ get (generate_position_suggestions sort_by_confidence analyzed_data) k ->
    ~ (symbol s = sym /\ type s = ty).
Proof.
  intros Hfew k s Hin [Hsym Hty].
  apply generate_elem in Hin as (ty' & sym' & data & Hd & Hmk & _);
    [| exact sort_by_confidence_perm].
  apply make_suggestion_some in Hmk as (Htot & Hsym' & Hty' & _).
  rewrite Hsym in Hsym'. rewrite Hty in Hty'. subst sym' ty'.
  apply dict_of_total in Hd. lia.
Qed.

(** C10, amended: every suggestion of the output list of key [k] has the
    sentiment [k] and counts at least two articles, namely all the tags of
    its symbol.  Its confidence is the double that
    [(count / total) * 100] evaluates to, for the count of its sentiment in
    the tally of the symbol and the total: it lies in [0, 100], is within a
    relative error of [2^-51] of the exact percentage, and is positive when
    the sentiment is bullish or bearish (as long as the quotient does not
    underflow).  It is not always equal to the exact percentage: 11 of 20
    give [55 + 2^-47], which prints as 55.00000000000001. *)
Theorem suggestion_invariant
    (analyzed_data : list analyzed_article) (k : sentiment) (s : suggestion) :
  s ∈ get (generate_position_suggestions sort_by_confidence analyzed_data) k ->
  sg_sentiment s = k
  /\ (2 <= article_count s)%nat
  /\ article_count s = tagged_total (column (type s)) (symbol s) analyzed_data
  /\ (exists data, (symbol s, data) ∈ dict_of (type s) analyzed_data
        /\ article_count s = total_articles data
        /\ confidence s
           = percentage (count data (sg_sentiment s)) (total_articles data)
        /\ (Z.of_nat (article_count s) <= 2 ^ 1022 ->
            let exact := (Qnat (count data (sg_sentiment s))
                          / Qnat (total_articles data) * 100)%Q in
            (Qabs (confidence s - exact) <= exact * pow2 (-51))%Q))
  /\ (0 <= confidence s <= 100)%Q
  /\ (sg_sentiment s <> neutral -> Z.of_nat (article_count s) <= 2 ^ 1074 ->
      (0 < confidence s)%Q)
  /\ (percentage 11 20 == 55 + pow2 (-47))%Q.
Proof.
  intros Hin.
  apply generate_elem in Hin as (ty & sym & data & Hd & Hmk & Hk);
    [| exact sort_by_confidence_perm].
  apply make_suggestion_some in Hmk as (Htot & <- & <- & Hs & Hcnt & Hconf).
  pose proof (dict_of_total _ _ _ _ Hd) as Htag.
  set (c := count data (overall_sentiment data)) in *.
  set (n := total_articles data) in *.
  assert (c <= n)%nat as Hcn.
  { unfold c, n, count, total_articles. destruct (overall_sentiment data); lia. }
  split; [done |]. split; [lia |]. split; [lia |].
  split; [| split; [| split]].
  - exists data. rewrite Hs. fold c n. repeat split; try done.
    intros Hbig exact. rewrite Hconf. apply percentage_error; lia.
  - rewrite Hconf. apply percentage_bounds; lia.
  - intros Hne Hbig. rewrite Hconf. apply percentage_pos; [| lia].
    split; [| done]. rewrite Hs in Hne. unfold c.
    destruct (overall_sentiment_cases data) as (Hb & Hr & _).
    pose proof (Qnat_nonneg (n_bullish data)) as Nb.
    pose proof (Qnat_nonneg (n_bearish data)) as Nr.
    destruct (overall_sentiment data) eqn:E; simpl; [| | done].
    + assert (Qnat (n_bearish data) * (3 # 2) < Qnat (n_bullish data))%Q as H
        by (by apply Hb).
      destruct (n_bullish data); [| lia]. exfalso. change (Qnat 0) with 0%Q in H. lra.
    + assert (Qnat (n_bullish data) * (3 # 2) < Qnat (n_bearish data))%Q as H
        by (by apply Hr).
      destruct (n_bearish data); [| lia]. exfalso. change (Qnat 0) with 0%Q in H. lra.
  - vm_compute. reflexivity.
Qed.

End Aggregator.

Lemma sparse_symbol_excluded_witness :
  let out := generate_position_suggestions sort_confidence_desc
               (five_four ++ [tagged bullish 1 "TSLA"]) in
  Forall (fun s => ~ (symbol s = "TSLA"%string /\ type s = stock))
    (sg_bullish out ++ sg_bearish out ++ sg_neutral out).
Proof.
  intros out. apply Forall_forall. intros s Hs.
  assert (exists k, s ∈ get out k) as [k Hk].
  { rewrite !elem_of_app in Hs. destruct Hs as [Hs | [Hs | Hs]];
      [by exists bullish | by exists bearish | by exists neutral]. }
  apply (sparse_symbol_excluded sort_confidence_desc sort_confidence_desc_perm
           (five_four ++ [tagged bullish 1 "TSLA"]) stock "TSLA") with (k := k);
    [| exact Hk].
  vm_compute. lia.
Defined.

(** C10, as stated, fails on the lower bound of the confidence: on five
    bullish and four bearish articles about one ticker the suggestion is
    neutral and its confidence is 100 * 0 / 9 = 0. *)
Lemma neutral_confidence_zero :
  ~ (forall (analyzed_data : list analyzed_article) (k : sentiment) (s : suggestion),
       s ∈ get (generate_position_suggestions sort_confidence_desc analyzed_data) k ->
       (0 < confidence s)%Q /\ (confidence s <= 100)%Q).
Proof.
  intros H.
  assert (exists s, sg_neutral (generate_position_suggestions sort_confidence_desc
                                  five_four) = [s]
                    /\ (confidence s == 0)%Q) as (s & Hs & Hzero).
  { vm_compute. eexists. split; reflexivity. }
  destruct (H five_four neutral s) as [Hpos _].
  - unfold get. rewrite Hs. apply list_elem_of_here.
  - rewrite Hzero in Hpos. by apply Qlt_irrefl in Hpos.
Qed.

Lemma suggestion_invariant_witness :
  Forall (fun s => sg_sentiment s = bullish /\ (2 <= article_count s)%nat
                   /\ (0 < confidence s <= 100)%Q)
    (sg_bullish (generate_position_suggestions sort_confidence_desc six_three_one)).
Proof.
  apply Forall_forall. intros s Hs.
  destruct (suggestion_invariant sort_confidence_desc sort_confidence_desc_perm
              six_three_one bullish s Hs)
    as (Hk & Hcnt & Htag & _ & [_ Hhi] & Hpos & _).
  split; [exact Hk |]. split; [exact Hcnt |]. split; [| exact Hhi].
  assert (article_count s = 10%nat) as Hten.
  { revert Hs. vm_compute. intros Hs%list_elem_of_In. simpl in Hs.
    by destruct Hs as [<- | []]. }
  apply Hpos; [by rewrite Hk |]. rewrite Hten. vm_compute. discriminate.
Defined.

End NewsSentimentFacts.

Section MacroSentimentFacts.
Import MacroSentiment.

Lemma rate_macro_environment_some (now : Z) (self : MacroSentimentAnalyzer)
    (v : vix_entry) (y : yields_entry) (e : econ_entry) :
  vix (indicators self) = Some v ->
  treasury_yields (indicators self) = Some y ->
  economic_data (indicators self) = Some e ->
  exists rating,
    snd (rate_macro_environment now self) = Some rating
    /\ environment_rating (fst (rate_macro_environment now self)) = Some rating
    /\ risk_sentiment rating
       = determine_risk (vix_interpretation v) (yields_interpretation y)
    /\ inflation_environment rating
       = (determine_inflation <$> inflation (econ_interpretation e))
    /\ growth_outlook rating = growth (econ_interpretation e)
    /\ overall_environment rating
       = determine_overall (risk_sentiment rating) (inflation_environment rating)
           (growth_outlook rating)
    /\ timestamp rating = now.
Proof.
  intros Hv Hy He. unfold rate_macro_environment. rewrite Hv, Hy, He.
  eexists. simpl. repeat split.
Qed.

Lemma rate_macro_environment_none (now : Z) (self : MacroSentimentAnalyzer) :
  vix (indicators self) = None \/ treasury_yields (indicators self) = None
  \/ economic_data (indicators self) = None ->
  rate_macro_environment now self = (self, None).
Proof.
  unfold rate_macro_environment.
  destruct (vix (indicators self)), (treasury_yields (indicators self)),
    (economic_data (indicators self)); intros [H | [H | H]]; done.
Qed.

(** C9: without the key of the 10y-2y spread the yield curve is
    interpreted as [unknown], a value of its own; and a low-volatility
    reading with a yield curve interpreted from such yields is rated
    [risk_on] as soon as the three indicators are present: the rating is
    produced, not withheld. *)
Theorem unknown_yield_curve_rates_risk_on
    (now : Z) (self : MacroSentimentAnalyzer)
    (v : vix_entry) (y : yields_entry) (e : econ_entry) :
  yields_values y !! "10y_2y_spread"%string = None ->
  yields_interpretation y = _interpret_yield_curve (config self) (yields_values y) ->
  vix_interpretation v = low_volatility ->
  vix (indicators self) = Some v ->
  treasury_yields (indicators self) = Some y ->
  economic_data (indicators self) = Some e ->
  yields_interpretation y = unknown
  /\ unknown <> inverted /\ unknown <> flat /\ unknown <> normal
  /\ exists rating,
       snd (rate_macro_environment now self) = Some rating
       /\ risk_sentiment rating = risk_on.
Proof.
  intros Hspread Hinterp Hlow Hv Hy He.
  assert (yields_interpretation y = unknown) as Hunk.
  { rewrite Hinterp. unfold _interpret_yield_curve. by rewrite Hspread. }
  split; [done |]. repeat (split; [done |]).
  destruct (rate_macro_environment_some now self v y e Hv Hy He)
    as (rating & Hret & _ & Hrisk & _).
  exists rating. split; [done |]. by rewrite Hrisk, Hlow, Hunk.
Qed.

Lemma unknown_yield_curve_rates_risk_on_witness :
  yields_interpretation
    {| yields_values := {[ "2y"%string := 4%Q ]}; yields_timestamp := 0;
       yields_interpretation :=
         _interpret_yield_curve default_config {[ "2y"%string := 4%Q ]} |}
  = unknown
  /\ exists rating,
       snd (rate_macro_environment 1 calm_without_spread) = Some rating
       /\ risk_sentiment rating = risk_on.
Proof.
  destruct (unknown_yield_curve_rates_risk_on 1 calm_without_spread
              {| vix_value := 12; vix_timestamp := 0;
                 vix_interpretation := _interpret_vix default_config 12 |}
              {| yields_values := {[ "2y"%string := 4%Q ]}; yields_timestamp := 0;
                 yields_interpretation :=
                   _interpret_yield_curve default_config {[ "2y"%string := 4%Q ]} |}
              {| econ_values := mock_economic_values; econ_timestamp := 0;
                 econ_interpretation :=
                   _interpret_economic_data default_config mock_economic_values |})
    as (Hunk & _ & _ & _ & Hrating); try reflexivity.
  split; [exact Hunk | exact Hrating].
Defined.




End MacroSentimentFacts.

(** * Further properties of the three modules *)

(** ** Sorting by insertion *)

Lemma filter_StronglySorted {A : Type} (R : A -> A -> Prop) (P : A -> bool) (l : list A) :
  StronglySorted R l -> StronglySorted R (List.filter P l).
Proof.
  induction 1 as [| x l Hl IH Hx]; simpl; [constructor |].
  destruct (P x); [| done]. constructor; [done |].
  rewrite Forall_forall in *. intros y Hy%list_elem_of_In%filter_In.
  apply Hx, list_elem_of_In, Hy.
Qed.

Section OpenInterestFacts.
Import CMEVolume Reading.

Lemma shift1_lookup_0 (xs : list Q) : default NaN (shift1 xs !! 0%nat) = NaN.
Proof. unfold shift1. by destruct xs. Qed.

Lemma shift1_lookup_S (xs : list Q) (i : nat) (x p : Q) :
  xs !! S i = Some x -> xs !! i = Some p -> shift1 xs !! S i = Some (Finite p).
Proof.
  intros Hx Hp. unfold shift1.
  rewrite lookup_take_lt by (by eapply lookup_lt_Some).
  simpl. by rewrite list_lookup_fmap, Hp.
Qed.

Lemma add_pct_change_length (oi_df : list oi_row) :
  length (add_pct_change oi_df) = length oi_df.
Proof. unfold add_pct_change. by rewrite length_imap. Qed.

Lemma add_pct_change_first (oi_df : list oi_row) (r : oi_row) :
  oi_df !! 0%nat = Some r ->
  add_pct_change oi_df !! 0%nat
  = Some {| os_pos := 0; os_row := r; pct_change := NaN |}.
Proof.
  intros Hr. unfold add_pct_change.
  rewrite list_lookup_imap, Hr. simpl. by rewrite shift1_lookup_0.
Qed.

Lemma add_pct_change_next (oi_df : list oi_row) (i : nat) (r p : oi_row) :
  oi_df !! S i = Some r -> oi_df !! i = Some p ->
  add_pct_change oi_df !! S i
  = Some {| os_pos := S i; os_row := r;
            pct_change := fdiv (change r) (Finite (open_interest p)) |}.
Proof.
  intros Hr Hp. unfold add_pct_change.
  rewrite list_lookup_imap, Hr. simpl.
  rewrite (shift1_lookup_S _ i (open_interest r) (open_interest p));
    [done | |]; by rewrite list_lookup_fmap, ?Hr, ?Hp.
Qed.

Lemma add_pct_change_elem (oi_df : list oi_row) (s : oi_scored) :
  s ∈ add_pct_change oi_df ->
  oi_df !! os_pos s = Some (os_row s)
  /\ match os_pos s with
     | O => pct_change s = NaN
     | S i => exists p, oi_df !! i = Some p
                /\ pct_change s = fdiv (change (os_row s)) (Finite (open_interest p))
     end.
Proof.
  intros [i Hi]%list_elem_of_lookup.
  assert (is_Some (oi_df !! i)) as [r Hr].
  { apply lookup_lt_is_Some. rewrite <- add_pct_change_length.
    by eapply lookup_lt_Some. }
  destruct i as [| i].
  - rewrite (add_pct_change_first _ _ Hr) in Hi. injection Hi as <-. by simpl.
  - assert (is_Some (oi_df !! i)) as [p Hp].
    { apply lookup_lt_is_Some. apply lookup_lt_Some in Hr. lia. }
    rewrite (add_pct_change_next _ _ _ _ Hr Hp) in Hi. injection Hi as <-.
    simpl. split; [done |]. by exists p.
Qed.

Lemma change_df_elem (t : Q) (oi_df : list oi_row) (s : oi_scored) :
  s ∈ change_df t oi_df
  <-> s ∈ add_pct_change oi_df /\ fgt (fabs (pct_change s)) t = true.
Proof. unfold change_df. rewrite !list_elem_of_In. apply filter_In. Qed.

Lemma change_df_length (t : Q) (oi_df : list oi_row) :
  (length (change_df t oi_df) <= length oi_df - 1)%nat.
Proof.
  unfold change_df, add_pct_change.
  destruct oi_df as [| r oi_df]; [done |].
  cbn [imap List.filter]. rewrite shift1_lookup_0. simpl.
  rewrite Nat.sub_0_r. etrans; [apply filter_length_le |].
  by rewrite length_imap.
Qed.

Lemma insert_oi_by_date_perm (r : oi_row) (l : list oi_row) :
  insert_oi_by_date r l ≡ₚ r :: l.
Proof.
  induction l as [| r' l IH]; [done |]. simpl.
  destruct (oi_date r <=? oi_date r'); [done |].
  rewrite IH. apply Permutation_swap.
Qed.

Lemma sort_oi_values_perm (df : list oi_row) : sort_oi_values df ≡ₚ df.
Proof.
  unfold sort_oi_values. induction df as [| r df IH]; [done |]. simpl.
  by rewrite insert_oi_by_date_perm, IH.
Qed.

Lemma fgt_fabs_fdiv (c : Z) (p t : Q) :
  fgt (fabs (fdiv c (Finite p))) t = true
  <-> if Qeq_bool p 0 then c <> 0 else (t < Qabs (inject_Z c / p))%Q.
Proof.
  unfold fdiv. destruct (Qeq_bool p 0).
  - destruct (Z.ltb_spec 0 c); [simpl; split; [lia | done] |].
    destruct (Z.ltb_spec c 0); simpl; split; try done; lia.
  - simpl. apply Qltb_lt.
Qed.

Lemma change_df_flagged (t : Q) (oi_df : list oi_row) (s : oi_scored) :
  s ∈ add_pct_change oi_df ->
  (s ∈ change_df t oi_df
   <-> exists i p, os_pos s = S i /\ oi_df !! i = Some p
         /\ if Qeq_bool (open_interest p) 0 then change (os_row s) <> 0
            else (t < Qabs (inject_Z (change (os_row s)) / open_interest p))%Q).
Proof.
  intros Hs. rewrite change_df_elem.
  destruct (add_pct_change_elem _ _ Hs) as [Hrow Hpct].
  destruct (os_pos s) as [| i] eqn:Hpos.
  - rewrite Hpct. simpl. split; [by intros [_ ?] |].
    by intros (i & p & ? & _).
  - destruct Hpct as (p & Hp & ->). rewrite fgt_fabs_fdiv. split.
    + intros [_ H]. by exists i, p.
    + intros (i' & p' & [= <-] & Hp' & H). split; [done |].
      rewrite Hp in Hp'. by injection Hp' as <-.
Qed.

(** X2: the open-interest detector returns no event for a contract that
    has no entry in [self.oi_data], and for a stored frame of at least one
    row at most as many events as there are rows but one: none for a frame
    of a single row. *)
Theorem oi_change_edge_cases {A : Type} (self : tracker_state A)
    (contract : string) (threshold : option Q) :
  (oi_data self !! contract = None ->
   detect_oi_changes self contract threshold = [])
  /\ (forall df, oi_data self !! contract = Some df -> df <> [] ->
        (length (detect_oi_changes self contract threshold) <= length df - 1)%nat
        /\ (length df = 1%nat -> detect_oi_changes self contract threshold = [])).
Proof.
  split.
  - intros Hnone. unfold detect_oi_changes. by rewrite Hnone.
  - intros df Hdf _.
    assert (length (detect_oi_changes self contract threshold) <= length df - 1)%nat
      as Hlen.
    { unfold detect_oi_changes. rewrite Hdf, length_fmap.
      etrans; [apply change_df_length |].
      by rewrite (Permutation_length (sort_oi_values_perm df)). }
    split; [done |]. intros H1. apply nil_length_inv. lia.
Qed.

(** X3: with a threshold that is not negative, every open-interest event
    has a non-zero change, and its direction is [increase] exactly when
    the change is positive, [decrease] exactly when it is negative. *)
Theorem oi_change_direction {A : Type} (self : tracker_state A)
    (contract : string) (threshold : option Q) (e : oi_event) :
  (0 <= match threshold with
        | None => oi_change (thresholds (config (tracker self)))
        | Some t => t
        end)%Q ->
  e ∈ detect_oi_changes self contract threshold ->
  (oe_direction e = increase <-> 0 < oe_change e)
  /\ (oe_direction e = decrease <-> oe_change e < 0).
Proof.
  intros Ht He. unfold detect_oi_changes in He.
  destruct (oi_data self !! contract) as [df |] eqn:Hdf;
    [| by apply not_elem_of_nil in He].
  apply list_elem_of_fmap in He as (s & -> & Hs).
  assert (s ∈ add_pct_change (sort_oi_values df)) as Hin.
  { by apply change_df_elem in Hs as [? _]. }
  apply (change_df_flagged _ _ s Hin) in Hs as (i & p & _ & _ & Hflag).
  assert (change (os_row s) <> 0) as Hnz.
  { destruct (Qeq_bool (open_interest p) 0); [done |].
    intros Hz. rewrite Hz in Hflag.
    assert (inject_Z 0 / open_interest p == 0)%Q as E
      by (unfold Qdiv; apply Qmult_0_l).
    rewrite E in Hflag. change (Qabs 0) with 0%Q in Hflag. lra. }
  simpl. destruct (Z.ltb_spec 0 (change (os_row s))); split; split; try done; lia.
Qed.

Lemma oi_change_direction_witness :
  let df := [ {| oi_date := 0; open_interest := 100; change := 0 |};
              {| oi_date := 1; open_interest := 80; change := -20 |} ] in
  Forall (fun e => oe_direction e = decrease <-> oe_change e < 0)
    (detect_oi_changes
       {| tracker := init None; oi_data := {[ "ES"%string := df ]};
          alerts := @nil unit |} "ES" None).
Proof.
  intros df. apply Forall_forall. intros e He.
  apply (oi_change_direction
           {| tracker := init None; oi_data := {[ "ES"%string := df ]};
              alerts := @nil unit |} "ES" None e); [| exact He].
  simpl. lra.
Defined.

End OpenInterestFacts.

Section CalendarFacts.
Import CMEVolume Reading.

(** Whole days elapsed, in terms of the instants. *)
Lemma abs_days_le (x n : Z) :
  0 <= n ->
  (Z.abs (days x) <= n <-> - n * us_per_day <= x < (n + 1) * us_per_day).
Proof.
  intros Hn. unfold days, us_per_day.
  pose proof (Z.div_mod x 86400000000 ltac:(lia)) as Hdm.
  pose proof (Z.mod_pos_bound x 86400000000 ltac:(lia)) as Hb.
  lia.
Qed.

Lemma check_fomc_elem (d : datetime) (m : Z) (ev : nearby_event) :
  ev ∈ check_fomc d m
  <-> ev = FOMC_Meeting m (Z.abs (days (d - strptime m)))
      /\ Z.abs (days (d - strptime m)) <= 3.
Proof.
  unfold check_fomc. destruct (Z.leb_spec (Z.abs (days (d - strptime m))) 3).
  - rewrite list_elem_of_singleton. tauto.
  - split; [by intros ?%not_elem_of_nil | lia].
Qed.

Lemma check_release_elem (d : datetime) (r : release) (ev : nearby_event) :
  ev ∈ check_release d r
  <-> ev = Economic_Release (release_description r) (release_date r)
             (Z.abs (days (d - strptime (release_date r))))
      /\ Z.abs (days (d - strptime (release_date r))) <= 2.
Proof.
  unfold check_release.
  destruct (Z.leb_spec (Z.abs (days (d - strptime (release_date r)))) 2).
  - rewrite list_elem_of_singleton. tauto.
  - split; [by intros ?%not_elem_of_nil | lia].
Qed.

Lemma check_season_elem (d : datetime) (s : season) (ev : nearby_event) :
  ev ∈ check_season d s
  <-> (ev = Earnings_Season (season_description s) (season_start s) (season_end s)
       /\ strptime (season_start s) <= d <= strptime (season_end s))
      \/ (ev = Upcoming_Earnings_Season (season_description s) (season_start s)
                 (days (strptime (season_start s) - d))
          /\ ~ strptime (season_start s) <= d <= strptime (season_end s)
          /\ Z.abs (days (d - strptime (season_start s))) <= 5).
Proof.
  destruct (check_season_cases d s) as (Hcur & Hup & Hnone).
  destruct (decide (strptime (season_start s) <= d <= strptime (season_end s)))
    as [Hin | Hout].
  - rewrite (Hcur Hin), list_elem_of_singleton. tauto.
  - destruct (Z.le_gt_cases (Z.abs (days (d - strptime (season_start s)))) 5)
      as [Hle | Hgt].
    + rewrite (Hup Hout Hle), list_elem_of_singleton. tauto.
    + rewrite (Hnone Hout ltac:(lia)). split; [by intros ?%not_elem_of_nil |].
      intros [[_ ?] | (_ & _ & ?)]; [done | lia].
Qed.

Lemma check_economic_events_elem (self : CMEVolumeTracker) (d : datetime)
    (ev : nearby_event) :
  ev ∈ check_economic_events self d
  <-> (exists m, m ∈ fomc_meetings (economic_calendar (config self))
                 /\ ev ∈ check_fomc d m)
      \/ (exists s, s ∈ earnings_seasons (economic_calendar (config self))
                    /\ ev ∈ check_season d s)
      \/ (exists r, r ∈ economic_releases (economic_calendar (config self))
                    /\ ev ∈ check_release d r).
Proof.
  unfold check_economic_events. rewrite !elem_of_app, !list_elem_of_bind.
  split.
  - intros [(m & ? & ?) | [(s & ? & ?) | (r & ? & ?)]]; eauto.
  - intros [(m & ? & ?) | [(s & ? & ?) | (r & ? & ?)]]; eauto.
Qed.

(** X4: a date is reported near an FOMC meeting exactly when it lies no
    more than 3 days before midnight of the meeting day and less than 4
    days after it, and near an economic release exactly when it lies no
    more than 2 days before midnight of the release day and less than 3
    days after it; the reported distance is the absolute number of whole
    days, rounded towards the past. *)
Theorem point_event_window (self : CMEVolumeTracker) (d : datetime) :
  (forall m k,
     FOMC_Meeting m k ∈ check_economic_events self d
     <-> m ∈ fomc_meetings (economic_calendar (config self))
         /\ strptime m - 3 * us_per_day <= d < strptime m + 4 * us_per_day
         /\ k = Z.abs (days (d - strptime m)))
  /\ (forall desc rd k,
        Economic_Release desc rd k ∈ check_economic_events self d
        <-> (exists r, r ∈ economic_releases (economic_calendar (config self))
                       /\ desc = release_description r /\ rd = release_date r)
            /\ strptime rd - 2 * us_per_day <= d < strptime rd + 3 * us_per_day
            /\ k = Z.abs (days (d - strptime rd))).
Proof.
  split.
  - intros m k. rewrite check_economic_events_elem. split.
    + intros [(m' & Hm & Hev) | [(s & _ & Hev) | (r & _ & Hev)]].
      * apply check_fomc_elem in Hev as [[= -> ->] Hle].
        apply abs_days_le in Hle; [| lia]. repeat split; try done; lia.
      * apply check_season_elem in Hev as [[? _] | [? _]]; done.
      * apply check_release_elem in Hev as [? _]; done.
    + intros (Hm & Hd & ->). left. exists m. split; [done |].
      apply check_fomc_elem. split; [done |]. apply abs_days_le; lia.
  - intros desc rd k. rewrite check_economic_events_elem. split.
    + intros [(m' & _ & Hev) | [(s & _ & Hev) | (r & Hr & Hev)]].
      * apply check_fomc_elem in Hev as [? _]; done.
      * apply check_season_elem in Hev as [[? _] | [? _]]; done.
      * apply check_release_elem in Hev as [[= -> -> ->] Hle].
        apply abs_days_le in Hle; [| lia].
        split; [by exists r |]. repeat split; try done; lia.
    + intros ((r & Hr & -> & ->) & Hd & ->). right. right. exists r.
      split; [done |]. apply check_release_elem. split; [done |].
      apply abs_days_le; lia.
Qed.

(** X5: when every earnings season of the calendar lasts at least six
    days, a season is reported as current exactly for the dates from
    midnight of its start to midnight of its end, and as upcoming exactly
    for the dates before its start by at most 5 days, [days_away] being
    the number of whole days left, between 0 and 5; no date after the end
    of a season is reported with it. *)
Theorem season_window (self : CMEVolumeTracker) (d : datetime) :
  Forall (fun s => season_start s + 6 <= season_end s)
    (earnings_seasons (economic_calendar (config self))) ->
  (forall desc s e,
     Earnings_Season desc s e ∈ check_economic_events self d
     <-> (exists x, x ∈ earnings_seasons (economic_calendar (config self))
                    /\ desc = season_description x /\ s = season_start x
                    /\ e = season_end x)
         /\ strptime s <= d <= strptime e)
  /\ (forall desc s k,
        Upcoming_Earnings_Season desc s k ∈ check_economic_events self d
        <-> (exists x, x ∈ earnings_seasons (economic_calendar (config self))
                       /\ desc = season_description x /\ s = season_start x)
            /\ strptime s - 5 * us_per_day <= d < strptime s
            /\ k = days (strptime s - d) /\ 0 <= k <= 5).
Proof.
  intros Hlong. rewrite Forall_forall in Hlong. split.
  - intros desc s e. rewrite check_economic_events_elem. split.
    + intros [(m' & _ & Hev) | [(x & Hx & Hev) | (r & _ & Hev)]].
      * apply check_fomc_elem in Hev as [? _]; done.
      * apply check_season_elem in Hev as [[[= -> -> ->] Hin] | [? _]]; [| done].
        split; [by exists x | done].
      * apply check_release_elem in Hev as [? _]; done.
    + intros ((x & Hx & -> & -> & ->) & Hin). right. left. exists x.
      split; [done |]. apply check_season_elem. by left.
  - intros desc s k. rewrite check_economic_events_elem.
    assert (forall x, x ∈ earnings_seasons (economic_calendar (config self)) ->
            (~ strptime (season_start x) <= d <= strptime (season_end x)
             /\ Z.abs (days (d - strptime (season_start x))) <= 5)
            <-> strptime (season_start x) - 5 * us_per_day <= d
                < strptime (season_start x)) as Hwin.
    { intros x Hx. specialize (Hlong x Hx).
      rewrite abs_days_le by lia. unfold strptime, us_per_day in *. lia. }
    assert (forall x, strptime x - 5 * us_per_day <= d < strptime x ->
            0 <= days (strptime x - d) <= 5) as Hk.
    { intros x Hx. unfold days, us_per_day in *. split.
      - apply Z.div_pos; lia.
      - apply Z.lt_succ_r, Z.div_lt_upper_bound; lia. }
    split.
    + intros [(m' & _ & Hev) | [(x & Hx & Hev) | (r & _ & Hev)]].
      * apply check_fomc_elem in Hev as [? _]; done.
      * apply check_season_elem in Hev as [[? _] | ([= -> -> ->] & Hout)]; [done |].
        apply (Hwin x Hx) in Hout. split; [by exists x |].
        split; [done |]. split; [done |]. by apply Hk.
      * apply check_release_elem in Hev as [? _]; done.
    + intros ((x & Hx & -> & ->) & Hd & -> & _). right. left. exists x.
      split; [done |]. apply check_season_elem. right. split; [done |].
      by apply (Hwin x Hx).
Qed.

Lemma season_window_witness :
  Upcoming_Earnings_Season "Q1 2025 Earnings" 739356 2
    ∈ check_economic_events (init None) (strptime 739354)
  /\ strptime 739356 - 5 * us_per_day <= strptime 739354 < strptime 739356.
Proof.
  destruct (season_window (init None) (strptime 739354)) as [_ Hup].
  - simpl. repeat constructor; simpl; lia.
  - split; [| vm_compute; split; [discriminate | reflexivity]].
    apply Hup. split.
    + eexists. split; [apply list_elem_of_here |]. split; reflexivity.
    + vm_compute. repeat split; discriminate.
Defined.

End CalendarFacts.

Section ChronologyFacts.
Import CMEVolume Reading.

Lemma StronglySorted_fmap_inv {A B : Type} (f : A -> B) (R : B -> B -> Prop)
    (l : list A) :
  StronglySorted (fun a b => R (f a) (f b)) l -> StronglySorted R (f <$> l).
Proof.
  induction 1 as [| x l Hl IH Hx]; [constructor |].
  rewrite fmap_cons. constructor; [done |]. rewrite Forall_fmap. exact Hx.
Qed.

Lemma insert_by_date_sorted (r : volume_row) (l : list volume_row) :
  StronglySorted (fun a b => date a <= date b) l ->
  StronglySorted (fun a b => date a <= date b) (insert_by_date r l).
Proof.
  induction 1 as [| r' l Hl IH Hr']; simpl; [repeat constructor |].
  destruct (Z.leb_spec (date r) (date r')).
  - constructor; [by constructor |]. constructor; [done |].
    eapply Forall_impl; [exact Hr' |]. simpl. intros; lia.
  - constructor; [done |]. rewrite insert_by_date_perm.
    constructor; [lia | done].
Qed.

Lemma sort_values_sorted (df : list volume_row) :
  StronglySorted (fun a b => date a <= date b) (sort_values df).
Proof.
  unfold sort_values. induction df as [| r df IH]; simpl; [constructor |].
  by apply insert_by_date_sorted.
Qed.

Lemma insert_oi_by_date_sorted (r : oi_row) (l : list oi_row) :
  StronglySorted (fun a b => oi_date a <= oi_date b) l ->
  StronglySorted (fun a b => oi_date a <= oi_date b) (insert_oi_by_date r l).
Proof.
  induction 1 as [| r' l Hl IH Hr']; simpl; [repeat constructor |].
  destruct (Z.leb_spec (oi_date r) (oi_date r')).
  - constructor; [by constructor |]. constructor; [done |].
    eapply Forall_impl; [exact Hr' |]. simpl. intros; lia.
  - constructor; [done |]. rewrite insert_oi_by_date_perm.
    constructor; [lia | done].
Qed.

Lemma sort_oi_values_sorted (df : list oi_row) :
  StronglySorted (fun a b => oi_date a <= oi_date b) (sort_oi_values df).
Proof.
  unfold sort_oi_values. induction df as [| r df IH]; simpl; [constructor |].
  by apply insert_oi_by_date_sorted.
Qed.

Lemma imap_rows {A B : Type} (f : nat -> A -> B) (g : B -> A) (l : list A) :
  (forall i a, g (f i a) = a) -> g <$> imap f l = l.
Proof.
  intros Hg. revert f Hg. induction l as [| a l IH]; intros f Hg.
  - reflexivity.
  - cbn [imap]. rewrite fmap_cons, Hg. f_equal. apply IH. intros i x. apply Hg.
Qed.

Lemma add_columns_rows (w : nat) (df : list volume_row) :
  sr_row <$> add_columns w df = df.
Proof. unfold add_columns. by apply imap_rows. Qed.

Lemma add_pct_change_rows (oi_df : list oi_row) :
  os_row <$> add_pct_change oi_df = oi_df.
Proof. unfold add_pct_change. by apply imap_rows. Qed.

Lemma StronglySorted_of_fmap {A B : Type} (f : A -> B) (R : B -> B -> Prop)
    (l : list A) :
  StronglySorted R (f <$> l) -> StronglySorted (fun a b => R (f a) (f b)) l.
Proof.
  induction l as [| x l IH]; [constructor |].
  rewrite fmap_cons. intros [Hx Hl]%StronglySorted_cons.
  constructor; [by apply IH |]. by rewrite Forall_fmap in Hx.
Qed.

Lemma spike_events_facts (self : CMEVolumeTracker) (contract : string)
    (lookback_period : Z) (events : list spike_event) :
  detect_volume_spikes self contract lookback_period = Ok events ->
  StronglySorted (fun a b => ev_date a <= ev_date b) events
  /\ (length events <= length (default [] (volume_data self !! contract)))%nat
  /\ forall e, e ∈ events ->
       ev_contract e = contract
       /\ exists r, r ∈ default [] (volume_data self !! contract)
                    /\ ev_date e = date r /\ ev_volume e = volume r.
Proof.
  unfold detect_volume_spikes.
  destruct (volume_data self !! contract) as [df |] eqn:Hdf.
  - destruct (rolling lookback_period 1) as [w | e]; [| done].
    intros [= <-]. simpl. split; [| split].
    + apply (StronglySorted_fmap_inv (format_event contract)
               (fun a b => ev_date a <= ev_date b)).
      simpl. unfold spike_df.
      apply (filter_StronglySorted (fun a b => date (sr_row a) <= date (sr_row b))).
      apply (StronglySorted_of_fmap sr_row (fun a b => date a <= date b)).
      rewrite add_columns_rows. apply sort_values_sorted.
    + rewrite length_fmap. unfold spike_df.
      etrans; [apply filter_length_le |].
      by rewrite add_columns_length, sort_values_length.
    + intros e (s & -> & Hs)%list_elem_of_fmap. split; [done |].
      exists (sr_row s). split; [| done].
      rewrite <- (sort_values_perm df), <- (add_columns_rows w (sort_values df)).
      apply list_elem_of_fmap. exists s. split; [done |].
      unfold spike_df in Hs. by apply list_elem_of_In, filter_In in Hs as [?%list_elem_of_In _].
  - intros [= <-]. simpl. split; [constructor |]. split; [done |].
    by intros e ?%not_elem_of_nil.
Qed.

(** X6: whatever the order of the stored rows, the events of a detection
    run are in chronological order, there are no more of them than rows,
    and each carries the contract asked for and the date and volume of
    a stored row. *)
Theorem spike_events_chronological (self : CMEVolumeTracker) (contract : string)
    (lookback_period : Z) (events : list spike_event) :
  detect_volume_spikes self contract lookback_period = Ok events ->
  StronglySorted (fun a b => ev_date a <= ev_date b) events
  /\ (length events <= length (default [] (volume_data self !! contract)))%nat
  /\ forall e, e ∈ events ->
       ev_contract e = contract
       /\ exists r, r ∈ default [] (volume_data self !! contract)
                    /\ ev_date e = date r /\ ev_volume e = volume r.
Proof. apply spike_events_facts. Qed.

Lemma spike_events_chronological_witness :
  StronglySorted (fun a b => ev_date a <= ev_date b)
    [ format_event "ES"
        {| sr_pos := 1; sr_row := {| date := strptime 1; volume := 400 |};
           avg_volume := Finite (500 # 2); volume_ratio := Finite (800 # 500) |} ].
Proof.
  apply (spike_events_chronological
           (store_volume (init None) "ES"
              [ {| date := strptime 1; volume := 400 |};
                {| date := strptime 0; volume := 100 |} ]) "ES" 10).
  vm_compute. reflexivity.
Defined.

Lemma oi_events_facts {A : Type} (self : tracker_state A)
    (contract : string) (threshold : option Q) :
  let events := detect_oi_changes self contract threshold in
  StronglySorted (fun a b => oe_date a <= oe_date b) events
  /\ forall e, e ∈ events ->
       oe_contract e = contract
       /\ exists r, r ∈ default [] (oi_data self !! contract)
                    /\ oe_date e = oi_date r
                    /\ oe_open_interest e = open_interest r
                    /\ oe_change e = change r.
Proof.
  unfold detect_oi_changes.
  destruct (oi_data self !! contract) as [df |] eqn:Hdf; simpl.
  - split.
    + apply (StronglySorted_fmap_inv (format_oi_event contract)
               (fun a b => oe_date a <= oe_date b)).
      simpl. unfold change_df.
      apply (filter_StronglySorted
               (fun a b => oi_date (os_row a) <= oi_date (os_row b))).
      apply (StronglySorted_of_fmap os_row (fun a b => oi_date a <= oi_date b)).
      rewrite add_pct_change_rows. apply sort_oi_values_sorted.
    + intros e (s & -> & Hs)%list_elem_of_fmap. split; [done |].
      exists (os_row s). split; [| done].
      rewrite <- (sort_oi_values_perm df),
        <- (add_pct_change_rows (sort_oi_values df)).
      apply list_elem_of_fmap. exists s. split; [done |].
      by apply change_df_elem in Hs as [? _].
  - split; [constructor |]. by intros e ?%not_elem_of_nil.
Qed.

(** X7: the open-interest events of a run are in chronological order too,
    and each carries the contract asked for and the date, open interest
    and change of one stored row. *)
Theorem oi_events_chronological {A : Type} (self : tracker_state A)
    (contract : string) (threshold : option Q) :
  let events := detect_oi_changes self contract threshold in
  StronglySorted (fun a b => oe_date a <= oe_date b) events
  /\ forall e, e ∈ events ->
       oe_contract e = contract
       /\ exists r, r ∈ default [] (oi_data self !! contract)
                    /\ oe_date e = oi_date r
                    /\ oe_open_interest e = open_interest r
                    /\ oe_change e = change r.
Proof. apply oi_events_facts. Qed.

End ChronologyFacts.

Section AlertFacts.
Import CMEVolume Reading.

Variable mock_data : string -> list volume_row * list oi_row.
Variable render_message : string -> cme_event -> list nearby_event -> string.

Lemma fetch_config (self : tracker_state alert) (contract : string) :
  config (tracker (fetch_cme_data mock_data self contract)) = config (tracker self).
Proof. unfold fetch_cme_data. by case_bool_decide. Qed.

Lemma insert_event_desc_perm (e : cme_event) (l : list cme_event) :
  insert_event_desc e l ≡ₚ e :: l.
Proof.
  induction l as [| e' l IH]; [done |]. simpl.
  destruct (event_date e' <=? event_date e); [done |].
  rewrite IH. apply Permutation_swap.
Qed.

Lemma sort_events_desc_perm (l : list cme_event) : sort_events_desc l ≡ₚ l.
Proof.
  unfold sort_events_desc. induction l as [| e l IH]; [done |]. simpl.
  by rewrite insert_event_desc_perm, IH.
Qed.

Lemma insert_event_desc_sorted (e : cme_event) (l : list cme_event) :
  StronglySorted (fun a b => event_date b <= event_date a) l ->
  StronglySorted (fun a b => event_date b <= event_date a) (insert_event_desc e l).
Proof.
  induction 1 as [| e' l Hl IH He']; simpl; [repeat constructor |].
  destruct (Z.leb_spec (event_date e') (event_date e)).
  - constructor; [by constructor |]. constructor; [done |].
    eapply Forall_impl; [exact He' |]. simpl. intros; lia.
  - constructor; [done |]. rewrite insert_event_desc_perm.
    constructor; [lia | done].
Qed.

Lemma sort_events_desc_sorted (l : list cme_event) :
  StronglySorted (fun a b => event_date b <= event_date a) (sort_events_desc l).
Proof.
  unfold sort_events_desc. induction l as [| e l IH]; simpl; [constructor |].
  by apply insert_event_desc_sorted.
Qed.

(** The events of one contract: always produced, latest first, all of the
    contract. *)
Lemma contract_events_ok (self : tracker_state alert) (contract : string) :
  exists events,
    contract_events self contract = Ok events
    /\ StronglySorted (fun a b => event_date b <= event_date a) events
    /\ Forall (fun e => event_contract e = contract) events
    /\ (volume_data (tracker self) !! contract = None ->
        oi_data self !! contract = None -> events = []).
Proof.
  unfold contract_events.
  destruct (detect_volume_spikes (tracker self) contract 10) as [spikes | e] eqn:Hd.
  - eexists. split; [done |]. split; [apply sort_events_desc_sorted |]. split.
    + rewrite sort_events_desc_perm. apply Forall_app. split.
      * apply Forall_fmap, Forall_forall. intros e He. simpl.
        by apply (spike_events_facts _ _ _ _ Hd).
      * apply Forall_fmap, Forall_forall. intros e He. simpl.
        by apply (oi_events_facts self contract None).
    + intros Hv Ho. unfold detect_volume_spikes in Hd. rewrite Hv in Hd.
      injection Hd as <-. unfold detect_oi_changes. by rewrite Ho.
  - exfalso. unfold detect_volume_spikes in Hd.
    destruct (volume_data (tracker self) !! contract); [| done].
    by rewrite rolling_ok in Hd.
Qed.

Lemma make_alerts_ok (self : tracker_state alert) (contract : string)
    (events : list cme_event) (l : list alert) :
  make_alerts render_message self contract events = Ok l ->
  al_details <$> l = events
  /\ Forall (fun a =>
       al_date a = event_date (al_details a)
       /\ al_contract a = contract
       /\ al_event_type a = event_type (al_details a)
       /\ al_economic_context a
          = check_economic_events (tracker self) (al_date a)) l.
Proof.
  revert l. induction events as [| ev events IH]; intros l; simpl.
  - intros [= <-]. by split.
  - unfold make_alert.
    destruct (_create_alert_message _ _ _ _) as [msg | e]; [| done].
    destruct (make_alerts _ _ _ events) as [l' | e]; [| done].
    intros [= <-]. destruct (IH l' eq_refl) as [Hd Hf].
    split; [rewrite fmap_cons; by f_equal |]. constructor; [by simpl | done].
Qed.

Lemma check_economic_events_config (t1 t2 : CMEVolumeTracker) (d : datetime) :
  config t1 = config t2 -> check_economic_events t1 d = check_economic_events t2 d.
Proof. unfold check_economic_events. by intros ->. Qed.

Lemma StronglySorted_impl_elem {B : Type} (R R' : B -> B -> Prop) (l : list B) :
  (forall a b, a ∈ l -> b ∈ l -> R a b -> R' a b) ->
  StronglySorted R l -> StronglySorted R' l.
Proof.
  intros Himpl Hs. induction Hs as [| x l Hl IH Hx]; [constructor |].
  constructor.
  - apply IH. intros a b Ha Hb. apply Himpl; by apply list_elem_of_further.
  - rewrite Forall_forall in *. intros y Hy.
    apply Himpl; [apply list_elem_of_here | by apply list_elem_of_further |].
    by apply Hx.
Qed.

Lemma alerts_loop_ok (now : datetime) (self : tracker_state alert)
    (contracts : list string) (acc : list alert)
    (self' : tracker_state alert) (all_alerts : list alert) :
  alerts_loop mock_data render_message now self contracts acc
  = (self', Ok all_alerts) ->
  config (tracker self') = config (tracker self)
  /\ exists groups,
       all_alerts = acc ++ concat groups
       /\ Forall2 (alert_group_ok now self) contracts groups.
Proof.
  revert self acc. induction contracts as [| c rest IH]; intros self acc; simpl.
  - intros [= <- <-]. split; [done |]. exists []. split; [| constructor].
    simpl. by rewrite app_nil_r.
  - set (self1 := if bool_decide (is_Some (volume_data (tracker self) !! c))
                     && bool_decide (is_Some (oi_data self !! c))
                  then self else fetch_cme_data mock_data self c).
    assert (config (tracker self1) = config (tracker self)) as Hcfg.
    { unfold self1. destruct (_ && _); [done | apply fetch_config]. }
    destruct (contract_events_ok self1 c) as (events & -> & Hsorted & Hcontract & _).
    set (recent := List.filter _ events).
    destruct (make_alerts render_message self1 c recent) as [new | e] eqn:Hmk; [| done].
    intros Hloop. apply IH in Hloop as (Hcfg' & groups & -> & Hgroups).
    split; [congruence |]. exists (new :: groups). split.
    { simpl. by rewrite (assoc_L (++)). }
    constructor.
    + apply make_alerts_ok in Hmk as [Hdetails Hfields].
      assert (Forall (fun e =>
                now - alert_period (thresholds (config (tracker self))) * us_per_day
                < event_date e /\ event_contract e = c) recent) as Hrecent.
      { apply Forall_forall. intros e [He Hlt]%list_elem_of_In%filter_In.
        rewrite Hcfg in Hlt. split; [lia |].
        rewrite Forall_forall in Hcontract. by apply Hcontract, list_elem_of_In. }
      rewrite <- Hdetails in Hrecent. rewrite Forall_fmap in Hrecent.
      split.
      * apply Forall_forall. intros a Ha.
        rewrite Forall_forall in Hfields, Hrecent.
        destruct (Hfields a Ha) as (Hd & Hc & Ht & Hctx).
        destruct (Hrecent a Ha) as [Hlt Hec]. simpl in Hlt, Hec.
        rewrite Hd. repeat split; try done.
        rewrite <- Hd, Hctx. by apply check_economic_events_config.
      * assert (StronglySorted (fun a b => event_date b <= event_date a) recent)
          as Hrs by (by apply filter_StronglySorted).
        rewrite <- Hdetails in Hrs.
        apply (StronglySorted_of_fmap al_details
                 (fun a b => event_date b <= event_date a)) in Hrs.
        eapply StronglySorted_impl_elem; [| exact Hrs].
        rewrite Forall_forall in Hfields.
        intros a b Ha Hb Hab. simpl in Hab.
        destruct (Hfields a Ha) as (-> & _), (Hfields b Hb) as (-> & _). done.
    + eapply Forall2_impl; [exact Hgroups |].
      intros c' g [Hf Hs]. split; [| done].
      eapply Forall_impl; [exact Hf |]. simpl. intros a. rewrite !Hcfg.
      intros (? & ? & ? & ? & ? & ->). repeat split; try done.
      by apply check_economic_events_config.
Qed.

(** X8: when [generate_alerts] returns, the alerts are stored in the
    tracker, the configuration is unchanged, and the list of alerts is
    made of one group per requested contract, in the order of the request;
    in the group of a contract every alert is later than [now] minus
    [alert_period] days, describes an event of that contract at its own
    date, carries the economic events near that date, and the latest alert
    comes first. *)
Theorem generate_alerts_groups (now : datetime) (self : tracker_state alert)
    (contracts_arg : option (list string))
    (self' : tracker_state alert) (all_alerts : list alert) :
  generate_alerts mock_data render_message now self contracts_arg
  = (self', Ok all_alerts) ->
  alerts self' = all_alerts
  /\ config (tracker self') = config (tracker self)
  /\ exists groups,
       all_alerts = concat groups
       /\ Forall2 (alert_group_ok now self)
            (match contracts_arg with
             | None => (contracts (config (tracker self))).*1
             | Some l => l
             end) groups.
Proof.
  unfold generate_alerts.
  destruct (alerts_loop _ _ _ _ _ _) as [self1 [all | e]] eqn:Hloop; [| done].
  intros [= <- <-]. simpl.
  apply alerts_loop_ok in Hloop as (Hcfg & groups & -> & Hgroups).
  split; [done |]. split; [done |]. by exists groups.
Qed.

End AlertFacts.

Section AlertWitnesses.
Import CMEVolume Reading.

Lemma generate_alerts_groups_witness :
  let self := {| tracker := init None; oi_data := ∅; alerts := [] |} in
  let run := generate_alerts (fun _ => (daily injected_series, []))
               (fun name _ _ => name) (strptime 20) self (Some ["ES"%string]) in
  exists groups,
    alerts (fst run) = concat groups
    /\ Forall2 (alert_group_ok (strptime 20) self) ["ES"%string] groups.
Proof.
  intros self run.
  destruct run as [self' [all | e]] eqn:Hrun.
  - destruct (generate_alerts_groups _ _ _ _ _ _ _ Hrun)
      as (Hstored & _ & groups & Hall & Hgroups).
    exists groups. simpl. split; [congruence | exact Hgroups].
  - exfalso. revert Hrun. unfold run. vm_compute. discriminate.
Defined.

End AlertWitnesses.

Section PrioritizeFacts.
Import NewsSentiment.

Lemma key_le_before (x y : matched_article) : key_le x y = true -> before x y.
Proof.
  unfold key_le, before.
  destruct (watchlist_match x), (watchlist_match y); simpl; try done.
  - rewrite Qle_bool_iff. intros H. split; [done |]. intros _. lra.
  - rewrite Qle_bool_iff. intros H. split; [done |]. intros _. lra.
Qed.

Lemma key_gt_before (x y : matched_article) : key_le x y = false -> before y x.
Proof.
  unfold key_le, before.
  destruct (watchlist_match x), (watchlist_match y); simpl; try done.
  - intros H. split; [done |]. intros _.
    apply not_true_iff_false in H. rewrite Qle_bool_iff in H. lra.
  - intros H. split; [done |]. intros _.
    apply not_true_iff_false in H. rewrite Qle_bool_iff in H. lra.
Qed.

Lemma before_trans (x y z : matched_article) : before x y -> before y z -> before x z.
Proof.
  unfold before. intros [H1 H2] [H3 H4].
  destruct (watchlist_match x), (watchlist_match y), (watchlist_match z);
    split; intros; try done;
    try (specialize (H1 eq_refl)); try (specialize (H3 eq_refl)); try done;
    specialize (H2 eq_refl); specialize (H4 eq_refl); lra.
Qed.

Lemma insert_by_key_perm (x : matched_article) (l : list matched_article) :
  insert_by_key x l ≡ₚ x :: l.
Proof.
  induction l as [| y l IH]; [done |]. simpl.
  destruct (key_le x y); [done |]. rewrite IH. apply Permutation_swap.
Qed.

Lemma insert_by_key_sorted (x : matched_article) (l : list matched_article) :
  StronglySorted before l -> StronglySorted before (insert_by_key x l).
Proof.
  induction 1 as [| y l Hl IH Hy]; simpl; [repeat constructor |].
  destruct (key_le x y) eqn:E.
  - constructor; [by constructor |]. constructor; [by apply key_le_before |].
    eapply Forall_impl; [exact Hy |]. simpl. intros z Hz.
    eapply before_trans; [by apply key_le_before | done].
  - constructor; [done |]. rewrite insert_by_key_perm.
    constructor; [by apply key_gt_before | done].
Qed.

Lemma insert_by_key_filter (k x : matched_article) (l : list matched_article) :
  List.filter (same_key k) (insert_by_key x l)
  = List.filter (same_key k) (x :: l).
Proof.
  induction l as [| y l IH]; [done |]. cbn [insert_by_key].
  destruct (key_le x y) eqn:E; [done |].
  cbn [List.filter] in *. rewrite IH.
  destruct (same_key k x) eqn:Hx; [| done].
  destruct (same_key k y) eqn:Hy; [| done].
  exfalso. unfold same_key in Hx, Hy.
  apply andb_true_iff in Hx as [Hx1 Hx2], Hy as [Hy1 Hy2].
  apply eqb_prop in Hx1, Hy1. apply Qeq_bool_iff in Hx2, Hy2.
  unfold key_le in E. rewrite Hx1, Hy1, eqb_reflx in E.
  apply not_true_iff_false in E. rewrite Qle_bool_iff in E. lra.
Qed.

(** X10: [prioritize_articles] returns the analyzed articles reordered,
    none lost and none added: the articles that match the watchlist come
    first, and among articles that both match or both do not, the greater
    absolute compound score comes first; articles with the same key keep
    the order they had. *)
Theorem prioritize_articles_sorted (analyzed_data : list matched_article) :
  prioritize_articles analyzed_data ≡ₚ analyzed_data
  /\ StronglySorted before (prioritize_articles analyzed_data)
  /\ forall k, List.filter (same_key k) (prioritize_articles analyzed_data)
              = List.filter (same_key k) analyzed_data.
Proof.
  assert (prioritize_articles analyzed_data = foldr insert_by_key [] analyzed_data)
    as -> by (by destruct analyzed_data).
  split; [| split].
  - induction analyzed_data as [| x l IH]; [done |]. simpl.
    by rewrite insert_by_key_perm, IH.
  - induction analyzed_data as [| x l IH]; simpl; [constructor |].
    by apply insert_by_key_sorted.
  - intros k. induction analyzed_data as [| x l IH]; [done |].
    cbn [foldr]. rewrite insert_by_key_filter. cbn [List.filter].
    by rewrite IH.
Qed.

End PrioritizeFacts.

Section TallyFacts.
Import NewsSentiment.

Lemma dict_get_Some_elem (k : string) (v : tally) (d : dict) :
  dict_get k d = Some v -> (k, v) ∈ d.
Proof.
  induction d as [| [k0 v0] d IH]; simpl; [done |].
  destruct (String.eqb_spec k k0) as [-> | Hne].
  - intros [= ->]. apply list_elem_of_here.
  - intros H. by apply list_elem_of_further, IH.
Qed.

Lemma articles_record_article (a : analyzed_article) (t : tally) :
  articles (record_article a t) = articles t ++ [mk_ref a].
Proof. unfold record_article. by destruct (art_sentiment a). Qed.

Lemma refs_upsert (k k' : string) (a : analyzed_article) (d : dict) :
  from_option articles [] (dict_get k (upsert k' (record_article a) d))
  = from_option articles [] (dict_get k d)
    ++ (if String.eqb k k' then [mk_ref a] else []).
Proof.
  rewrite upsert_get. destruct (String.eqb_spec k k') as [-> | Hne]; simpl.
  - rewrite articles_record_article. by destruct (dict_get k' d).
  - by rewrite app_nil_r.
Qed.

Lemma refs_tally_symbols (k : string) (a : analyzed_article)
    (symbols : list string) (d : dict) :
  from_option articles [] (dict_get k (tally_symbols a symbols d))
  = from_option articles [] (dict_get k d)
    ++ replicate (occurrences k symbols) (mk_ref a).
Proof.
  unfold tally_symbols, occurrences. revert d.
  induction symbols as [| k' symbols IH]; intros d; simpl.
  - by rewrite app_nil_r.
  - rewrite IH, refs_upsert, <- (assoc_L (++)).
    by destruct (String.eqb k k').
Qed.

Lemma counts_refs_record (a : analyzed_article) (t : tally) :
  counts_refs t -> counts_refs (record_article a t).
Proof.
  intros Ht s. rewrite articles_record_article. unfold count_refs.
  rewrite List.filter_app, length_app. simpl.
  pose proof (Ht bullish) as Hb. pose proof (Ht bearish) as Hr.
  pose proof (Ht neutral) as Hn. unfold count_refs in *. simpl in *.
  unfold record_article.
  destruct (art_sentiment a), s; simpl; lia.
Qed.

Lemma counts_refs_upsert (k : string) (a : analyzed_article) (d : dict) :
  Forall (fun item => counts_refs (snd item)) d ->
  Forall (fun item => counts_refs (snd item)) (upsert k (record_article a) d).
Proof.
  induction 1 as [| [k0 v0] d Hv Hd IH]; simpl.
  - constructor; [| constructor]. simpl. apply counts_refs_record. by intros [].
  - destruct (String.eqb k k0).
    + constructor; [| done]. by apply counts_refs_record.
    + by constructor.
Qed.

Lemma counts_refs_tally_symbols (a : analyzed_article) (symbols : list string)
    (d : dict) :
  Forall (fun item => counts_refs (snd item)) d ->
  Forall (fun item => counts_refs (snd item)) (tally_symbols a symbols d).
Proof.
  unfold tally_symbols. revert d.
  induction symbols as [| k symbols IH]; intros d Hd; simpl; [done |].
  by apply IH, counts_refs_upsert.
Qed.

Lemma group_loop_refs (analyzed_data : list analyzed_article) (st : dict * dict) :
  Forall (fun item => counts_refs (snd item)) (fst st) ->
  Forall (fun item => counts_refs (snd item)) (snd st) ->
  let st' := fold_left group_step analyzed_data st in
  Forall (fun item => counts_refs (snd item)) (fst st')
  /\ Forall (fun item => counts_refs (snd item)) (snd st')
  /\ (forall k,
        from_option articles [] (dict_get k (fst st'))
        = from_option articles [] (dict_get k (fst st))
          ++ tag_refs stock k analyzed_data)
  /\ (forall k,
        from_option articles [] (dict_get k (snd st'))
        = from_option articles [] (dict_get k (snd st))
          ++ tag_refs crypto k analyzed_data).
Proof.
  revert st. induction analyzed_data as [| a data IH]; intros st H1 H2; simpl.
  - unfold tag_refs. simpl. repeat split; try done; intros; by rewrite app_nil_r.
  - destruct (IH (group_step st a)) as (I1 & I2 & I3 & I4).
    + by apply counts_refs_tally_symbols.
    + by apply counts_refs_tally_symbols.
    + repeat split; try done.
      * intros k. rewrite I3. simpl. rewrite refs_tally_symbols.
        unfold tag_refs. simpl. by rewrite (assoc_L (++)).
      * intros k. rewrite I4. simpl. rewrite refs_tally_symbols.
        unfold tag_refs. simpl. by rewrite (assoc_L (++)).
Qed.

Lemma dict_of_refs (ty : asset_type) (analyzed_data : list analyzed_article)
    (sym : string) (data : tally) :
  (sym, data) ∈ dict_of ty analyzed_data ->
  articles data = tag_refs ty sym analyzed_data
  /\ forall s, count data s = count_refs s (tag_refs ty sym analyzed_data).
Proof.
  intros Hin.
  destruct (group_loop_invariant analyzed_data ([], []))
    as (N1 & N2 & _); try apply NoDup_nil_2.
  destruct (group_loop_refs analyzed_data ([], []))
    as (C1 & C2 & R1 & R2); try apply Forall_nil_2.
  fold (group_articles analyzed_data) in *.
  destruct ty; simpl in *.
  - specialize (R1 sym). rewrite (dict_get_elem _ _ _ N1 Hin) in R1.
    simpl in R1. split; [done |]. intros s. rewrite <- R1.
    rewrite Forall_forall in C1. apply (C1 _ Hin).
  - specialize (R2 sym). rewrite (dict_get_elem _ _ _ N2 Hin) in R2.
    simpl in R2. split; [done |]. intros s. rewrite <- R2.
    rewrite Forall_forall in C2. apply (C2 _ Hin).
Qed.

Lemma insert_by_score_perm (x : article_ref) (l : list article_ref) :
  insert_by_score x l ≡ₚ x :: l.
Proof.
  induction l as [| y l IH]; [done |]. simpl.
  destruct (Qle_bool (Qabs (score y)) (Qabs (score x))); [done |].
  rewrite IH. apply Permutation_swap.
Qed.

Lemma sorted_by_score_perm (l : list article_ref) : sorted_by_score l ≡ₚ l.
Proof.
  unfold sorted_by_score. induction l as [| x l IH]; [done |]. simpl.
  by rewrite insert_by_score_perm, IH.
Qed.

Lemma insert_by_score_sorted (x : article_ref) (l : list article_ref) :
  StronglySorted (fun a b => (Qabs (score b) <= Qabs (score a))%Q) l ->
  StronglySorted (fun a b => (Qabs (score b) <= Qabs (score a))%Q)
    (insert_by_score x l).
Proof.
  induction 1 as [| y l Hl IH Hy]; simpl; [repeat constructor |].
  destruct (Qle_bool (Qabs (score y)) (Qabs (score x))) eqn:E.
  - apply Qle_bool_iff in E.
    constructor; [by constructor |]. constructor; [done |].
    eapply Forall_impl; [exact Hy |]. simpl. intros z Hz. lra.
  - apply not_true_iff_false in E. rewrite Qle_bool_iff in E.
    constructor; [done |]. rewrite insert_by_score_perm.
    constructor; [lra | done].
Qed.

Lemma sorted_by_score_sorted (l : list article_ref) :
  StronglySorted (fun a b => (Qabs (score b) <= Qabs (score a))%Q)
    (sorted_by_score l).
Proof.
  unfold sorted_by_score. induction l as [| x l IH]; simpl; [constructor |].
  by apply insert_by_score_sorted.
Qed.

(** X11: the supporting articles of a suggestion are at most three
    references of the tally, all of them when the tally has three or
    fewer, the greatest absolute score first; together with the references
    left out they make up the tally, and no reference left out has a
    greater absolute score than a supporting one. *)
Theorem supporting_articles_top (ty : asset_type) (sym : string) (data : tally)
    (s : suggestion) :
  make_suggestion ty sym data = Some s ->
  length (supporting_articles s) = (3 `min` length (articles data))%nat
  /\ StronglySorted (fun a b => (Qabs (score b) <= Qabs (score a))%Q)
       (supporting_articles s)
  /\ exists rest,
       supporting_articles s ++ rest ≡ₚ articles data
       /\ forall a b, a ∈ supporting_articles s -> b ∈ rest ->
            (Qabs (score b) <= Qabs (score a))%Q.
Proof.
  unfold make_suggestion.
  destruct (total_articles data <? 2)%nat; [done |]. intros [= <-].
  cbn [supporting_articles].
  pose proof (sorted_by_score_sorted (articles data)) as Hsorted.
  rewrite <- (take_drop 3 (sorted_by_score (articles data))) in Hsorted.
  apply StronglySorted_app in Hsorted as (Hdom & Htake & _).
  split; [| split; [done |]].
  - rewrite length_take, (Permutation_length (sorted_by_score_perm _)). lia.
  - exists (drop 3 (sorted_by_score (articles data))). split.
    + rewrite take_drop. apply sorted_by_score_perm.
    + intros a b Ha Hb. by apply Hdom.
Qed.

Lemma supporting_articles_top_witness :
  let data := {| n_bullish := 2; n_bearish := 0; n_neutral := 0;
                 articles := [mk_ref (tagged bullish (1 # 4) "AAPL");
                              mk_ref (tagged bullish (3 # 4) "AAPL")] |} in
  exists s, make_suggestion stock "AAPL" data = Some s
    /\ length (supporting_articles s) = 2%nat
    /\ StronglySorted (fun a b => (Qabs (score b) <= Qabs (score a))%Q)
         (supporting_articles s).
Proof.
  intros data.
  destruct (make_suggestion stock "AAPL" data) as [s |] eqn:Hs; [| done].
  destruct (supporting_articles_top stock "AAPL"%string data s Hs)
    as (Hlen & Hsorted & _).
  exists s. split; [reflexivity |]. split; [exact Hlen | exact Hsorted].
Defined.

Section Output.

Variable sort_by_confidence : list suggestion -> list suggestion.
Hypothesis sort_by_confidence_perm : forall l, sort_by_confidence l ≡ₚ l.

(** X12: every suggestion is computed from the tags of its symbol alone:
    its article count is the number of tags of the symbol in the column
    of its type, its confidence is the double that [(count / total) * 100]
    evaluates to for the number of the tags whose article has the
    sentiment of the suggestion and the number of all the tags, and its
    supporting articles are the first three of the tagging articles sorted
    by absolute score. *)
Theorem suggestion_from_tags (analyzed_data : list analyzed_article)
    (k : sentiment) (s : suggestion) :
  s ∈ get (generate_position_suggestions sort_by_confidence analyzed_data) k ->
  let refs := tag_refs (type s) (symbol s) analyzed_data in
  article_count s = length refs
  /\ confidence s = percentage (count_refs k refs) (length refs)
  /\ supporting_articles s = take 3 (sorted_by_score refs).
Proof.
  intros Hin refs.
  apply generate_elem in Hin as (ty & sym & data & Hd & Hmk & Hk);
    [| exact sort_by_confidence_perm].
  pose proof Hmk as Hmk'.
  apply make_suggestion_some in Hmk' as (_ & Hsym & Hty & Hs & Hcnt & Hconf).
  pose proof (dict_of_refs _ _ _ _ Hd) as [Hrefs Hcounts].
  assert (refs = articles data) as Href.
  { unfold refs. by rewrite Hsym, Hty, Hrefs. }
  assert (total_articles data = length (articles data)) as Htot.
  { unfold total_articles.
    pose proof (Hcounts bullish) as Hb. pose proof (Hcounts bearish) as Hr.
    pose proof (Hcounts neutral) as Hn. simpl in Hb, Hr, Hn.
    rewrite Hb, Hr, Hn, <- Hrefs. unfold count_refs.
    clear. induction (articles data) as [| r l IH]; [done |]. simpl.
    destruct (ref_sentiment r); simpl; lia. }
  rewrite Href. split; [congruence |]. split.
  - rewrite Hconf, <- Htot. rewrite <- Hk, Hs. rewrite Hcounts. by rewrite Hrefs.
  - unfold make_suggestion in Hmk.
    destruct (total_articles data <? 2)%nat; [done |]. by injection Hmk as <-.
Qed.

End Output.

Lemma suggestion_from_tags_witness :
  Forall (fun s => article_count s = 10%nat
                   /\ confidence s = percentage 6 10)
    (sg_bullish (generate_position_suggestions sort_confidence_desc six_three_one)).
Proof.
  apply Forall_forall. intros s Hs.
  destruct (suggestion_from_tags sort_confidence_desc sort_confidence_desc_perm
              six_three_one bullish s Hs) as (Hcnt & Hconf & _).
  assert (symbol s = "AAPL"%string /\ type s = stock) as [Hsym Hty].
  { revert Hs. vm_compute. intros Hs%list_elem_of_In. simpl in Hs.
    destruct Hs as [<- | []]. by split. }
  rewrite Hsym, Hty in Hcnt, Hconf. split; [exact Hcnt | exact Hconf].
Defined.

End TallyFacts.

Section OutputFacts.
Import NewsSentiment.

Lemma all_suggestions_append (out : suggestions) (k : sentiment) (x : suggestion) :
  all_suggestions (append out k x) ≡ₚ x :: all_suggestions out.
Proof.
  unfold all_suggestions. destruct k; simpl.
  - by rewrite <- Permutation_cons_append.
  - rewrite <- (Permutation_cons_append (sg_bearish out)). simpl.
    symmetry. apply Permutation_middle.
  - rewrite <- (Permutation_cons_append (sg_neutral out)).
    rewrite !(assoc_L (++)). symmetry. apply Permutation_middle.
Qed.

Lemma all_suggestions_process_dict (ty : asset_type) (d : dict) (out : suggestions) :
  all_suggestions (process_dict ty d out)
  ≡ₚ all_suggestions out ++ dict_suggestions ty d.
Proof.
  unfold process_dict, dict_suggestions. revert out.
  induction d as [| item d IH]; intros out; simpl.
  - by rewrite app_nil_r.
  - rewrite IH. unfold suggest_step.
    destruct (make_suggestion ty item.1 item.2) as [x |]; [| done].
    rewrite all_suggestions_append. by rewrite <- Permutation_middle.
Qed.

Lemma dict_suggestions_elem (ty : asset_type) (d : dict) (s : suggestion) :
  s ∈ dict_suggestions ty d
  <-> exists sym data, (sym, data) ∈ d /\ make_suggestion ty sym data = Some s.
Proof.
  unfold dict_suggestions. rewrite list_elem_of_omap. split.
  - intros ([sym data] & Hin & Hmk). by exists sym, data.
  - intros (sym & data & Hin & Hmk). by exists (sym, data).
Qed.

Lemma dict_suggestions_NoDup (ty : asset_type) (d : dict) :
  NoDup d.*1 -> NoDup ((fun s => (symbol s, type s)) <$> dict_suggestions ty d).
Proof.
  unfold dict_suggestions.
  induction d as [| [sym data] d IH]; simpl; [constructor |].
  intros [Hsym Hd]%NoDup_cons.
  destruct (make_suggestion ty sym data) as [x |] eqn:Hmk; [| by apply IH].
  rewrite fmap_cons. constructor; [| by apply IH].
  intros (s & Heq & Hs)%list_elem_of_fmap.
  apply (dict_suggestions_elem ty d s) in Hs as (sym' & data' & Hin & Hmk').
  apply make_suggestion_some in Hmk as (_ & Hx & _).
  apply make_suggestion_some in Hmk' as (_ & Hs' & _).
  injection Heq as Heq _. apply Hsym. apply list_elem_of_fmap.
  exists (sym', data'). split; [simpl; congruence | done].
Qed.

Lemma collect_suggestions_all (analyzed_data : list analyzed_article) :
  all_suggestions (collect_suggestions analyzed_data)
  ≡ₚ dict_suggestions stock (dict_of stock analyzed_data)
     ++ dict_suggestions crypto (dict_of crypto analyzed_data).
Proof.
  unfold collect_suggestions, dict_of.
  destruct (group_articles analyzed_data) as [ts cs]. simpl.
  by rewrite !all_suggestions_process_dict.
Qed.

Section Sorted.

Variable sort_by_confidence : list suggestion -> list suggestion.
Hypothesis sort_by_confidence_perm : forall l, sort_by_confidence l ≡ₚ l.

Lemma generate_all (analyzed_data : list analyzed_article) :
  all_suggestions (generate_position_suggestions sort_by_confidence analyzed_data)
  ≡ₚ all_suggestions (collect_suggestions analyzed_data).
Proof.
  unfold generate_position_suggestions. destruct analyzed_data as [| a data].
  - done.
  - unfold all_suggestions. simpl. by rewrite !sort_by_confidence_perm.
Qed.

(** X13: the output holds at most one suggestion per symbol and type, over
    the three lists together, and it holds one for a symbol and a type
    exactly when the column of that type names the symbol at least
    twice. *)
Theorem one_suggestion_per_symbol (analyzed_data : list analyzed_article) :
  let out := generate_position_suggestions sort_by_confidence analyzed_data in
  NoDup ((fun s => (symbol s, type s)) <$> all_suggestions out)
  /\ forall ty sym,
       (exists s, s ∈ all_suggestions out /\ symbol s = sym /\ type s = ty)
       <-> (2 <= tagged_total (column ty) sym analyzed_data)%nat.
Proof.
  intros out.
  destruct (group_loop_invariant analyzed_data ([], []))
    as (N1 & N2 & T1 & T2); try apply NoDup_nil_2.
  fold (group_articles analyzed_data) in *.
  assert (all_suggestions out
          ≡ₚ dict_suggestions stock (dict_of stock analyzed_data)
             ++ dict_suggestions crypto (dict_of crypto analyzed_data)) as Hall.
  { unfold out. by rewrite generate_all, collect_suggestions_all. }
  split.
  - rewrite Hall, fmap_app. apply NoDup_app. split; [| split].
    + by apply dict_suggestions_NoDup.
    + intros p (s1 & -> & H1)%list_elem_of_fmap (s2 & Heq & H2)%list_elem_of_fmap.
      apply dict_suggestions_elem in H1 as (? & ? & _ & Hm1).
      apply dict_suggestions_elem in H2 as (? & ? & _ & Hm2).
      apply make_suggestion_some in Hm1 as (_ & _ & Ht1 & _).
      apply make_suggestion_some in Hm2 as (_ & _ & Ht2 & _).
      injection Heq as _ Heq. congruence.
    + by apply dict_suggestions_NoDup.
  - intros ty sym. split.
    + intros (s & Hs & Hsym & Hty). rewrite Hall in Hs.
      apply elem_of_app in Hs as [Hs | Hs];
        apply dict_suggestions_elem in Hs as (sym' & data & Hin & Hmk);
        apply make_suggestion_some in Hmk as (Htot & Hsym' & Hty' & _);
        apply dict_of_total in Hin; subst; rewrite <- Hty' in *; lia.
    + intros Htot.
      assert (exists data, (sym, data) ∈ dict_of ty analyzed_data
                           /\ (2 <= total_articles data)%nat) as (data & Hin & Hd).
      { destruct ty; simpl.
        - specialize (T1 sym). simpl in T1.
          destruct (dict_get sym (group_articles analyzed_data).1) as [data |] eqn:E;
            simpl in T1; [| simpl in Htot; lia].
          exists data. split; [by apply dict_get_Some_elem |]. simpl in Htot. lia.
        - specialize (T2 sym). simpl in T2.
          destruct (dict_get sym (group_articles analyzed_data).2) as [data |] eqn:E;
            simpl in T2; [| simpl in Htot; lia].
          exists data. split; [by apply dict_get_Some_elem |]. simpl in Htot. lia. }
      destruct (make_suggestion_enough ty sym data Hd) as [s Hs].
      exists s. pose proof Hs as Hs'.
      apply make_suggestion_some in Hs' as (_ & Hsym & Hty & _).
      split; [| done]. rewrite Hall. apply elem_of_app.
      destruct ty; [left | right]; apply dict_suggestions_elem; by exists sym, data.
Qed.

End Sorted.

Lemma one_suggestion_per_symbol_witness :
  let out := generate_position_suggestions sort_confidence_desc
               (six_three_one ++ five_four) in
  NoDup ((fun s => (symbol s, type s)) <$> all_suggestions out)
  /\ exists s, s ∈ all_suggestions out /\ symbol s = "MSFT"%string /\ type s = stock.
Proof.
  intros out.
  destruct (one_suggestion_per_symbol sort_confidence_desc sort_confidence_desc_perm
              (six_three_one ++ five_four)) as [Hnodup Hiff].
  split; [exact Hnodup |]. apply Hiff. vm_compute. lia.
Defined.

(** *** Extraction of crypto tokens *)

Lemma extract_names_fold (text : string) (names : list (string * string))
    (start : list string) :
  let result :=
    fold_left
      (fun mentioned item =>
         if contains (fst item) text && negb (bool_decide (snd item ∈ mentioned))
         then mentioned ++ [snd item] else mentioned)
      names start in
  (NoDup start -> NoDup result)
  /\ (forall t, t ∈ result -> t ∈ start \/ t ∈ names.*2)
  /\ (forall t, t ∈ start -> t ∈ result)
  /\ (forall name sym, (name, sym) ∈ names -> contains name text = true ->
        sym ∈ result).
Proof.
  revert start. induction names as [| [name0 sym0] names IH]; intros start; simpl.
  - repeat split; try done.
    + by left.
    + by intros name sym ?%not_elem_of_nil.
  - set (next := if contains name0 text && negb (bool_decide (sym0 ∈ start))
                 then start ++ [sym0] else start).
    destruct (IH next) as (Hnd & Hsub & Hkeep & Hnames).
    assert (forall t, t ∈ start -> t ∈ next) as Hstart.
    { intros t Ht. unfold next. destruct (_ && _); [| done].
      apply elem_of_app. by left. }
    repeat split.
    + intros Hs. apply Hnd. unfold next.
      destruct (contains name0 text); simpl; [| done].
      case_bool_decide as Hin; simpl; [done |].
      apply NoDup_app. split; [done |]. split; [| apply NoDup_singleton].
      intros x Hx ->%list_elem_of_singleton. done.
    + intros t Ht. apply Hsub in Ht as [Ht | Ht].
      * unfold next in Ht. destruct (_ && _); [| by left].
        apply elem_of_app in Ht as [Ht | ->%list_elem_of_singleton]; [by left |].
        right. apply list_elem_of_here.
      * right. by apply list_elem_of_further.
    + intros t Ht. by apply Hkeep, Hstart.
    + intros name sym Hin Hc.
      apply elem_of_cons in Hin as [[= -> ->] | Hin]; [| by eapply Hnames].
      apply Hkeep. unfold next. rewrite Hc. simpl.
      case_bool_decide as Hin; simpl; [done |].
      apply elem_of_app. right. apply list_elem_of_here.
Qed.

(** X14: [_extract_crypto] returns no token twice when the watchlist has
    none twice; every token it returns is a watchlist token whose lower
    case occurs in the lower-cased text and title, or the symbol of one of
    the seven crypto names, and it returns every such watchlist token and
    the symbol of every crypto name that occurs there. *)
Theorem extract_crypto_tokens (lower : string -> string) (wl : watchlist_t)
    (text title : string) :
  let combined_text := lower (text +:+ " " +:+ title) in
  let result := _extract_crypto lower wl text title in
  (NoDup (wl_crypto wl) -> NoDup result)
  /\ (forall t, t ∈ result ->
        (t ∈ wl_crypto wl /\ contains (lower t) combined_text = true)
        \/ t ∈ crypto_names.*2)
  /\ (forall t, t ∈ wl_crypto wl -> contains (lower t) combined_text = true ->
        t ∈ result)
  /\ (forall name sym, (name, sym) ∈ crypto_names ->
        contains name combined_text = true -> sym ∈ result).
Proof.
  intros combined_text result.
  destruct (extract_names_fold combined_text crypto_names
              (List.filter (fun token => contains (lower token) combined_text)
                 (wl_crypto wl))) as (Hnd & Hsub & Hkeep & Hnames).
  fold combined_text in result. repeat split.
  - intros Hwl. apply Hnd. by apply NoDup_ListNoDup, List.NoDup_filter, NoDup_ListNoDup.
  - intros t Ht. apply Hsub in Ht as [Ht | Ht]; [| by right].
    left. by apply list_elem_of_In, filter_In in Ht as [?%list_elem_of_In ?].
  - intros t Ht Hc. apply Hkeep, list_elem_of_In, filter_In.
    split; [by apply list_elem_of_In | done].
  - exact Hnames.
Qed.

Lemma extract_crypto_tokens_witness :
  NoDup (_extract_crypto (fun s => s) default_watchlist
           "bitcoin and BTC rally" "markets").
Proof.
  apply (extract_crypto_tokens (fun s => s) default_watchlist
           "bitcoin and BTC rally" "markets").
  apply NoDup_ListNoDup. vm_compute. repeat constructor; simpl; intuition discriminate.
Defined.

End OutputFacts.

Section ClassifierFacts.
Import MacroSentiment.

(** X15: with the three indicators present, a high-volatility reading or
    an inverted yield curve rates the risk sentiment [risk_off] and the
    overall environment bearish, whatever the other readings; in
    particular low volatility does not outweigh an inverted curve. *)
Theorem inverted_or_volatile_is_bearish (now : Z) (self : MacroSentimentAnalyzer)
    (v : vix_entry) (y : yields_entry) (e : econ_entry) :
  vix (indicators self) = Some v ->
  treasury_yields (indicators self) = Some y ->
  economic_data (indicators self) = Some e ->
  vix_interpretation v = high_volatility \/ yields_interpretation y = inverted ->
  exists rating,
    snd (rate_macro_environment now self) = Some rating
    /\ risk_sentiment rating = risk_off
    /\ overall_environment rating = env_bearish.
Proof.
  intros Hv Hy He Hbad.
  destruct (rate_macro_environment_some now self v y e Hv Hy He)
    as (rating & Hret & _ & Hrisk & _ & _ & Hoverall & _).
  exists rating. split; [done |].
  assert (risk_sentiment rating = risk_off) as Hoff.
  { rewrite Hrisk. unfold determine_risk.
    destruct Hbad as [-> | ->]; [done |].
    by destruct (vix_interpretation v). }
  split; [done |]. rewrite Hoverall, Hoff. unfold determine_overall. done.
Qed.

Lemma inverted_or_volatile_is_bearish_witness :
  exists rating,
    snd (rate_macro_environment 1
           (fetch_economic_data false 0
              (fetch_treasury_yields
                 (Some {[ "2y"%string := 5%Q; "10y"%string := 4%Q ]}) 0
                 (fetch_vix (Some 12%Q) 0 (new_analyzer default_config)))))
    = Some rating
    /\ risk_sentiment rating = risk_off
    /\ overall_environment rating = env_bearish.
Proof.
  eapply inverted_or_volatile_is_bearish; try reflexivity.
  right. vm_compute. reflexivity.
Defined.

(** X16: with the three indicators present, the overall environment is
    bullish exactly when volatility is low, the yield curve is not
    inverted and inflation is not read as high (a missing inflation
    reading counts as not high); the growth reading plays no part, so a
    contracting economy can be rated bullish.  It is neutral exactly when
    it is neither bullish nor risk-off and growth is not contracting. *)
Theorem overall_environment_cases (now : Z) (self : MacroSentimentAnalyzer)
    (v : vix_entry) (y : yields_entry) (e : econ_entry) :
  vix (indicators self) = Some v ->
  treasury_yields (indicators self) = Some y ->
  economic_data (indicators self) = Some e ->
  exists rating,
    snd (rate_macro_environment now self) = Some rating
    /\ (overall_environment rating = env_bullish
        <-> vix_interpretation v = low_volatility
            /\ yields_interpretation y <> inverted
            /\ inflation (econ_interpretation e) <> Some high)
    /\ (overall_environment rating = env_neutral
        <-> overall_environment rating <> env_bullish
            /\ vix_interpretation v <> high_volatility
            /\ yields_interpretation y <> inverted
            /\ growth (econ_interpretation e) <> Some contracting).
Proof.
  intros Hv Hy He.
  destruct (rate_macro_environment_some now self v y e Hv Hy He)
    as (rating & Hret & _ & Hrisk & Hinfl & Hgrowth & Hoverall & _).
  exists rating. split; [done |].
  rewrite Hoverall, Hrisk, Hinfl, Hgrowth.
  unfold determine_overall, determine_risk, determine_inflation.
  destruct (vix_interpretation v), (yields_interpretation y),
    (inflation (econ_interpretation e)) as [[] |],
    (growth (econ_interpretation e)) as [[] |]; simpl; split; split;
    try done; try (intros (? & ? & ?); done); try (intros (? & ? & ? & ?); done);
    intros _; repeat split; done.
Qed.

Lemma overall_environment_cases_witness :
  exists rating,
    snd (rate_macro_environment 1 calm_without_spread) = Some rating
    /\ (overall_environment rating = env_bullish
        <-> low_volatility = low_volatility /\ unknown <> inverted
            /\ Some high <> Some high).
Proof.
  destruct (overall_environment_cases 1 calm_without_spread
              {| vix_value := 12; vix_timestamp := 0;
                 vix_interpretation := _interpret_vix default_config 12 |}
              {| yields_values := {[ "2y"%string := 4%Q ]}; yields_timestamp := 0;
                 yields_interpretation :=
                   _interpret_yield_curve default_config {[ "2y"%string := 4%Q ]} |}
              {| econ_values := mock_economic_values; econ_timestamp := 0;
                 econ_interpretation :=
                   _interpret_economic_data default_config mock_economic_values |})
    as (rating & Hret & Hbull & _); try reflexivity.
  exists rating. split; [exact Hret | exact Hbull].
Defined.

(** X17: when one of the three indicators is missing, no rating is
    returned and the analyzer is left as it was, with the rating of an
    earlier run still stored if there was one, and the bias suggestion
    that follows is computed from that earlier rating; an analyzer that
    has never been rated gets no bias. *)
Theorem missing_indicator_keeps_state
    (additional_factors : MacroSentimentAnalyzer -> bias_t -> bias_t)
    (now now' : Z) (self : MacroSentimentAnalyzer) :
  vix (indicators self) = None \/ treasury_yields (indicators self) = None
  \/ economic_data (indicators self) = None ->
  rate_macro_environment now self = (self, None)
  /\ suggest_es_bias additional_factors now' (fst (rate_macro_environment now self))
     = suggest_es_bias additional_factors now' self
  /\ (environment_rating self = None ->
      suggest_es_bias additional_factors now' self = None).
Proof.
  intros Hmiss. rewrite (rate_macro_environment_none now self Hmiss).
  split; [done |]. split; [done |].
  intros Hnone. unfold suggest_es_bias. by rewrite Hnone.
Qed.

Lemma missing_indicator_keeps_state_witness :
  rate_macro_environment 5 (fetch_vix (Some 12%Q) 0 (new_analyzer default_config))
  = (fetch_vix (Some 12%Q) 0 (new_analyzer default_config), None).
Proof.
  apply (missing_indicator_keeps_state (fun _ b => b) 5 6
           (fetch_vix (Some 12%Q) 0 (new_analyzer default_config))).
  right. left. reflexivity.
Defined.

Lemma add_spreads_lookup (yields : gmap string Q) :
  add_spreads yields !! "10y_2y_spread"%string
  = match yields !! "2y"%string, yields !! "10y"%string with
    | Some y2, Some y10 => Some (round_fin (y10 - y2))
    | _, _ => yields !! "10y_2y_spread"%string
    end.
Proof.
  unfold add_spreads.
  set (m := match yields !! "2y"%string, yields !! "10y"%string with
            | Some y2, Some y10 =>
                <["10y_2y_spread"%string := round_fin (y10 - y2)]> yields
            | _, _ => yields
            end).
  assert (m !! "10y_2y_spread"%string
          = match yields !! "2y"%string, yields !! "10y"%string with
            | Some y2, Some y10 => Some (round_fin (y10 - y2))
            | _, _ => yields !! "10y_2y_spread"%string
            end) as <-.
  { unfold m. destruct (yields !! "2y"%string), (yields !! "10y"%string);
      try done. apply lookup_insert_eq. }
  destruct (m !! "10y"%string), (m !! "30y"%string); try done.
  by rewrite lookup_insert_ne.
Qed.

Lemma yield_curve_cases (found : gmap string Q) (now : Z)
    (self : MacroSentimentAnalyzer) :
  found !! "10y_2y_spread"%string = None ->
  exists y,
    treasury_yields (indicators (fetch_treasury_yields (Some found) now self)) = Some y
    /\ yields_timestamp y = now
    /\ (yields_interpretation y = unknown
        <-> found !! "2y"%string = None \/ found !! "10y"%string = None)
    /\ forall t2 t10,
         found !! "2y"%string = Some t2 -> found !! "10y"%string = Some t10 ->
         let spread := round_fin (round_fin t10 - round_fin t2) in
         yields_values y !! "10y_2y_spread"%string = Some spread
         /\ (yields_interpretation y = inverted
             <-> (spread < yield_curve_inversion (config self))%Q)
         /\ (yields_interpretation y = flat
             <-> (yield_curve_inversion (config self) <= spread)%Q
                 /\ (spread < 1 # 2)%Q)
         /\ (yields_interpretation y = normal
             <-> (yield_curve_inversion (config self) <= spread)%Q
                 /\ (1 # 2 <= spread)%Q).
Proof.
  intros Hnone. eexists. split; [reflexivity |]. simpl. split; [done |].
  unfold _interpret_yield_curve. rewrite add_spreads_lookup.
  rewrite !lookup_fmap, Hnone. split.
  - destruct (found !! "2y"%string) as [t2 |], (found !! "10y"%string) as [t10 |];
      simpl.
    + split; [| by intros [? | ?]].
      destruct (Qltb _ _); [done |]. by destruct (Qltb _ _).
    + split; [by right | done].
    + split; [by left | done].
    + split; [by left | done].
  - intros t2 t10 -> ->. simpl. split; [done |].
    set (spread := round_fin (round_fin t10 - round_fin t2)).
    destruct (Qltb spread (yield_curve_inversion (config self))) eqn:E1.
    + apply Qltb_lt in E1. repeat split; try done; intros; lra.
    + apply Qltb_ge in E1. destruct (Qltb spread (1 # 2)) eqn:E2.
      * apply Qltb_lt in E2. repeat split; try done; intros; lra.
      * apply Qltb_ge in E2. repeat split; try done; intros; lra.
Qed.

(** X19: from the numbers on the pages to the interpretation of the
    curve.  When the [try] block raises, nothing is stored.  Otherwise,
    when no tenor is itself named "10y_2y_spread", the curve is [unknown]
    exactly when the 2-year or the 10-year yield is missing; when both
    are there (and within the range of the doubles), the spread that is
    stored is the difference of the two doubles, rounded, and the curve is
    [inverted] exactly when that spread is below the configured inversion
    threshold, [flat] when it is not but is below 0.5, and [normal]
    otherwise.  With the yields 4.0 and 3.9 and the default threshold -0.1
    the spread is -0.10000000000000009 and the curve is inverted. *)
Theorem yield_curve_from_tenors (found : gmap string Q) (now : Z)
    (self : MacroSentimentAnalyzer) :
  found !! "10y_2y_spread"%string = None ->
  fetch_treasury_yields None now self = self
  /\ exists y,
       treasury_yields (indicators (fetch_treasury_yields (Some found) now self))
       = Some y
       /\ yields_timestamp y = now
       /\ (yields_interpretation y = unknown
           <-> found !! "2y"%string = None \/ found !! "10y"%string = None)
       /\ forall t2 t10,
            found !! "2y"%string = Some t2 -> found !! "10y"%string = Some t10 ->
            (Qabs t2 <= pow2 1000)%Q -> (Qabs t10 <= pow2 1000)%Q ->
            let spread := round_fin (round_fin t10 - round_fin t2) in
            round64 t2 = Finite (round_fin t2)
            /\ round64 t10 = Finite (round_fin t10)
            /\ round64 (round_fin t10 - round_fin t2) = Finite spread
            /\ yields_values y !! "10y_2y_spread"%string = Some spread
            /\ (yields_interpretation y = inverted
                <-> (spread < yield_curve_inversion (config self))%Q)
            /\ (yields_interpretation y = flat
                <-> (yield_curve_inversion (config self) <= spread)%Q
                    /\ (spread < 1 # 2)%Q)
            /\ (yields_interpretation y = normal
                <-> (yield_curve_inversion (config self) <= spread)%Q
                    /\ (1 # 2 <= spread)%Q).
Proof.
  intros Hnone. split; [done |].
  destruct (yield_curve_cases found now self Hnone) as (y & Hy & Hts & Hunk & Hcases).
  exists y. split; [done |]. split; [done |]. split; [done |].
  intros t2 t10 H2 H10 B2 B10 spread.
  destruct (round64_finite t2 1000 ltac:(lia) B2) as [F2 R2].
  destruct (round64_finite t10 1000 ltac:(lia) B10) as [F10 R10].
  split; [done |]. split; [done |]. split; [| by apply Hcases].
  apply (round64_finite _ 1001); [lia |].
  apply Qabs_Qle_condition in R2 as [R2a R2b], R10 as [R10a R10b].
  assert (pow2 1001 == 2 * pow2 1000)%Q as E by (apply (pow2_S 1000)).
  apply Qabs_Qle_condition. split; lra.
Qed.

Lemma yield_curve_from_tenors_witness :
  exists y,
    treasury_yields
      (indicators (fetch_treasury_yields
                     (Some {[ "2y"%string := 4%Q; "10y"%string := (39 # 10)%Q ]}) 7
                     (new_analyzer default_config))) = Some y
    /\ yields_interpretation y = inverted.
Proof.
  destruct (yield_curve_from_tenors
              {[ "2y"%string := 4%Q; "10y"%string := (39 # 10)%Q ]} 7
              (new_analyzer default_config)) as (_ & y & Hy & _ & _ & Hcases);
    [reflexivity |].
  exists y. split; [exact Hy |].
  apply (Hcases 4%Q (39 # 10)%Q); try reflexivity; vm_compute; discriminate.
Defined.

(** X20: with the mock economic data, which is all that
    [fetch_economic_data] can fetch, growth is read as contracting, so the
    overall environment is never neutral; and when the configured
    threshold of high inflation is below the mock CPI of 3.2, as the
    default 3.0 is, every rating is bearish and every bias is short with
    high confidence, whatever the VIX and the yields are. *)
Theorem mock_data_is_always_bearish
    (additional_factors : MacroSentimentAnalyzer -> bias_t -> bias_t)
    (now0 now1 now2 : Z) (self : MacroSentimentAnalyzer)
    (v : vix_entry) (y : yields_entry) :
  vix (indicators self) = Some v ->
  treasury_yields (indicators self) = Some y ->
  let run := rate_macro_environment now1 (fetch_economic_data true now0 self) in
  exists rating,
    snd run = Some rating
    /\ growth_outlook rating = Some contracting
    /\ overall_environment rating <> env_neutral
    /\ ((inflation_high (config self) < 32 # 10)%Q ->
        inflation_environment rating = Some inflationary
        /\ overall_environment rating = env_bearish
        /\ exists bias,
             suggest_es_bias additional_factors now2 (fst run) = Some bias
             /\ direction bias = Some short
             /\ bias_confidence bias = Some conf_high).
Proof.
  intros Hv Hy run. unfold run, rate_macro_environment, fetch_economic_data.
  simpl. rewrite Hv, Hy. simpl. eexists. split; [reflexivity |]. simpl.
  split; [reflexivity |].
  unfold determine_overall, determine_inflation. split.
  - destruct (Qltb (inflation_high (config self)) (32 # 10));
      [| destruct (Qltb (32 # 10) (inflation_low (config self)))];
      by destruct (determine_risk _ _).
  - intros Hhigh. apply Qltb_lt in Hhigh. rewrite Hhigh. simpl.
    split; [done |].
    assert (forall r, (if bool_decide (r = risk_on) && false then env_bullish
                       else if bool_decide (r = risk_off) || true then env_bearish
                       else env_neutral) = env_bearish) as Hb.
    { intros r. by destruct r. }
    unfold suggest_es_bias. simpl. unfold determine_overall. simpl.
    rewrite !Hb. split; [done |]. eexists. split; [reflexivity |]. by simpl.
Qed.

Lemma mock_data_is_always_bearish_witness :
  exists rating,
    snd (rate_macro_environment 1 calm_without_spread) = Some rating
    /\ overall_environment rating = env_bearish.
Proof.
  destruct (mock_data_is_always_bearish (fun _ b => b) 0 1 2
              (fetch_treasury_yields (Some {[ "2y"%string := 4%Q ]}) 0
                 (fetch_vix (Some 12%Q) 0 (new_analyzer default_config)))
              {| vix_value := round_fin 12; vix_timestamp := 0;
                 vix_interpretation := _interpret_vix default_config (round_fin 12) |}
              {| yields_values := add_spreads (round_fin <$> {[ "2y"%string := 4%Q ]});
                 yields_timestamp := 0;
                 yields_interpretation :=
                   _interpret_yield_curve default_config
                     (add_spreads (round_fin <$> {[ "2y"%string := 4%Q ]})) |})
    as (rating & Hret & _ & _ & Hbear); try reflexivity.
  exists rating. split.
  - rewrite <- Hret. vm_compute. reflexivity.
  - apply Hbear. reflexivity.
Defined.

End ClassifierFacts.

Section UpdateConfigFacts.
Import MainAgent.

Context {V : Type}.

Implicit Types (d base new items : items_t V) (k key : string) (v old : json V).

(** Induction on configuration values, through the dictionaries. *)
Lemma json_nested_ind (P : json V -> Prop) :
  (forall x, P (JValue x)) ->
  (forall items, Forall (fun item => P (snd item)) items -> P (JDict items)) ->
  forall j, P j.
Proof.
  intros Hval Hdict.
  fix IH 1. intros [x | items]; [apply Hval |].
  apply Hdict. induction items as [| [k v] items IHitems]; constructor.
  - apply IH.
  - apply IHitems.
Qed.

Lemma well_formed_dict items :
  well_formed (JDict items)
  <-> NoDup items.*1 /\ Forall (fun item => well_formed (snd item)) items.
Proof.
  simpl. apply and_iff_compat_l.
  induction items as [| [k v] items IH]; [split; [constructor | done] |].
  rewrite Forall_cons. simpl. by rewrite IH.
Qed.

Lemma merge_json_dict base new :
  merge_json (JDict base) (JDict new) = JDict (_update_config base new).
Proof.
  simpl. f_equal. unfold _update_config. revert base.
  induction new as [| [k v] new IH]; intros base; [done |]. simpl. apply IH.
Qed.

Lemma merge_json_value old x : merge_json old (JValue x) = @JValue V x.
Proof. by destruct old. Qed.

Lemma dict_lookup_set k k' v d :
  dict_lookup k (dict_set k' v d)
  = if String.eqb k k' then Some v else dict_lookup k d.
Proof.
  induction d as [| [k0 v0] d IH]; simpl.
  - by destruct (String.eqb k k').
  - destruct (String.eqb_spec k' k0) as [-> | Hne]; simpl.
    + by destruct (String.eqb k k0).
    + rewrite IH. destruct (String.eqb_spec k k') as [-> | Hne'].
      * by destruct (String.eqb_spec k' k0).
      * done.
Qed.

Lemma dict_set_keys k v d :
  (dict_set k v d).*1 = if decide (k ∈ d.*1) then d.*1 else d.*1 ++ [k].
Proof.
  induction d as [| [k0 v0] d IH].
  - cbn. destruct (decide (k ∈ [])) as [Hin | _]; [| done].
    by apply not_elem_of_nil in Hin.
  - cbn [dict_set]. destruct (String.eqb_spec k k0) as [-> | Hne].
    + cbn. destruct (decide (k0 ∈ k0 :: d.*1)) as [_ | Hout]; [done |].
      exfalso. apply Hout, list_elem_of_here.
    + rewrite !fmap_cons, IH. cbn [fst].
      destruct (decide (k ∈ d.*1)) as [Hin | Hout],
        (decide (k ∈ k0 :: d.*1)) as [Hin' | Hout']; try done.
      * exfalso. by apply Hout', list_elem_of_further.
      * apply elem_of_cons in Hin' as [-> | Hin']; done.
Qed.

Lemma dict_lookup_None k d : dict_lookup k d = None <-> k ∉ d.*1.
Proof.
  induction d as [| [k0 v0] d IH]; simpl.
  - split; [intros _; apply not_elem_of_nil | done].
  - destruct (String.eqb_spec k k0) as [-> | Hne].
    + split; [done |]. intros H. exfalso. apply H, list_elem_of_here.
    + rewrite IH, not_elem_of_cons. tauto.
Qed.

Lemma dict_lookup_elem k v d :
  NoDup d.*1 -> (k, v) ∈ d -> dict_lookup k d = Some v.
Proof.
  induction d as [| [k0 v0] d IH]; simpl.
  - intros _ H. by apply not_elem_of_nil in H.
  - intros [Hk0 Hnd]%NoDup_cons Hin.
    apply elem_of_cons in Hin as [[= -> ->] | Hin].
    + by rewrite String.eqb_refl.
    + destruct (String.eqb_spec k k0) as [-> | Hne]; [| by apply IH].
      exfalso. apply Hk0. apply list_elem_of_fmap. by exists (k0, v).
Qed.

Lemma dict_lookup_Some_elem k v d : dict_lookup k d = Some v -> (k, v) ∈ d.
Proof.
  induction d as [| [k0 v0] d IH]; simpl; [done |].
  destruct (String.eqb_spec k k0) as [-> | Hne].
  - intros [= ->]. apply list_elem_of_here.
  - intros H. by apply list_elem_of_further, IH.
Qed.

(** A dictionary is its keys, in order, with what they hold. *)
Lemma items_ext d1 d2 :
  NoDup d1.*1 -> d1.*1 = d2.*1 ->
  (forall k, dict_lookup k d1 = dict_lookup k d2) -> d1 = d2.
Proof.
  revert d2. induction d1 as [| [k v] d1 IH]; intros [| [k' v'] d2]; try done.
  rewrite !fmap_cons. simpl. intros [Hk Hnd]%NoDup_cons [= <- Hkeys] Hlook.
  pose proof (Hlook k) as Hk0. simpl in Hk0. rewrite String.eqb_refl in Hk0.
  injection Hk0 as <-. f_equal. apply IH; [done | done |].
  intros k0. specialize (Hlook k0). simpl in Hlook.
  destruct (String.eqb_spec k0 k) as [Heq | Hne]; [| done].
  rewrite Heq.
  assert (dict_lookup k d1 = None) as Hnone by (by apply dict_lookup_None).
  rewrite Hnone. symmetry. apply dict_lookup_None. by rewrite <- Hkeys.
Qed.

Lemma update_config_lookup base new k :
  NoDup new.*1 ->
  dict_lookup k (_update_config base new)
  = match dict_lookup k new with
    | Some v => Some match dict_lookup k base with
                     | Some old => merge_json old v
                     | None => v
                     end
    | None => dict_lookup k base
    end.
Proof.
  unfold _update_config. revert base.
  induction new as [| [k0 v0] new IH]; intros base; [done |].
  rewrite fmap_cons. intros [Hk0 Hnd]%NoDup_cons. cbn [fold_left].
  rewrite (IH _ Hnd). unfold update_step. cbn [fst snd dict_lookup].
  rewrite dict_lookup_set.
  destruct (String.eqb_spec k k0) as [-> | Hne]; [| done].
  assert (dict_lookup k0 new = None) as -> by (by apply dict_lookup_None).
  done.
Qed.

Lemma update_config_keys base new :
  NoDup new.*1 ->
  (_update_config base new).*1
  = base.*1 ++ List.filter (fun k => negb (bool_decide (k ∈ base.*1))) new.*1.
Proof.
  unfold _update_config. revert base.
  induction new as [| [k0 v0] new IH]; intros base.
  - intros _. simpl. by rewrite app_nil_r.
  - rewrite fmap_cons. intros [Hk0 Hnd]%NoDup_cons. cbn [fold_left].
    rewrite (IH _ Hnd). unfold update_step. cbn [fst snd List.filter].
    rewrite dict_set_keys.
    destruct (decide (k0 ∈ base.*1)) as [Hin | Hout].
    + by rewrite bool_decide_eq_true_2.
    + rewrite bool_decide_eq_false_2 by done. cbn [negb].
      rewrite <- (assoc_L (++)). f_equal. cbn [app]. f_equal.
      apply filter_ext_in. intros k Hk%list_elem_of_In. f_equal.
      apply bool_decide_ext. rewrite elem_of_app, list_elem_of_singleton.
      split; [intros [? | ->]; done | by left].
Qed.

Lemma filter_absent_nil (keys l : list string) :
  (forall k, k ∈ l -> k ∈ keys) ->
  List.filter (fun k => negb (bool_decide (k ∈ keys))) l = [].
Proof.
  induction l as [| k l IH]; intros Hsub; [done |]. simpl.
  rewrite bool_decide_eq_true_2 by (apply Hsub, list_elem_of_here). simpl.
  apply IH. intros k' Hk'. by apply Hsub, list_elem_of_further.
Qed.

Lemma update_config_NoDup base new :
  NoDup base.*1 -> NoDup new.*1 -> NoDup (_update_config base new).*1.
Proof.
  intros Hb Hn. rewrite update_config_keys by done.
  apply NoDup_app. split; [done |]. split.
  - intros k Hk [_ Hout]%list_elem_of_In%filter_In.
    apply negb_true_iff, bool_decide_eq_false in Hout. done.
  - by apply NoDup_ListNoDup, List.NoDup_filter, NoDup_ListNoDup.
Qed.

Lemma well_formed_lookup k v items :
  well_formed (JDict items) -> dict_lookup k items = Some v -> well_formed v.
Proof.
  intros [_ Hall]%well_formed_dict Hk%dict_lookup_Some_elem.
  rewrite Forall_forall in Hall. apply (Hall _ Hk).
Qed.

(** X21: [_update_config] merges the new configuration into the base key
    by key.  Afterwards a key of the new configuration holds the new
    value, or, when both the base and the new value are dictionaries, the
    two merged in the same way; every other key of the base holds what it
    held.  The keys of the base keep their order and the keys that are new
    follow in the order of the new configuration. *)
Theorem update_config_merges base new :
  NoDup new.*1 ->
  (forall k,
     dict_lookup k (_update_config base new)
     = match dict_lookup k new with
       | Some v => Some match dict_lookup k base with
                        | Some (JDict b) =>
                            match v with
                            | JDict n => JDict (_update_config b n)
                            | JValue _ => v
                            end
                        | _ => v
                        end
       | None => dict_lookup k base
       end)
  /\ (_update_config base new).*1
     = base.*1 ++ List.filter (fun k => negb (bool_decide (k ∈ base.*1))) new.*1.
Proof.
  intros Hnd. split; [| by apply update_config_keys].
  intros k. rewrite update_config_lookup by done.
  destruct (dict_lookup k new) as [v |]; [| done]. f_equal.
  destruct (dict_lookup k base) as [[x | b] |]; [by destruct v | | done].
  destruct v as [x | n]; [done |]. apply merge_json_dict.
Qed.

Lemma merge_json_well_formed v :
  forall old, well_formed old -> well_formed v -> well_formed (merge_json old v).
Proof.
  induction v as [x | n IH] using json_nested_ind; intros old Hold Hv.
  - by rewrite merge_json_value.
  - destruct old as [x | b]; [done |]. rewrite merge_json_dict.
    pose proof Hold as [Hbk Hbv]%well_formed_dict.
    pose proof Hv as [Hnk Hnv]%well_formed_dict.
    apply well_formed_dict. split; [by apply update_config_NoDup |].
    apply Forall_forall. intros [k x] Hin. simpl.
    apply dict_lookup_elem in Hin; [| by apply update_config_NoDup].
    rewrite update_config_lookup in Hin by done.
    destruct (dict_lookup k n) as [v |] eqn:Hkn.
    + injection Hin as <-.
      assert (well_formed v) as Hwv by exact (well_formed_lookup k v n Hv Hkn).
      destruct (dict_lookup k b) as [o |] eqn:Hkb; [| done].
      apply dict_lookup_Some_elem in Hkn.
      rewrite Forall_forall in IH. apply (IH _ Hkn); [| done].
      exact (well_formed_lookup k o b Hold Hkb).
    + exact (well_formed_lookup k x b Hold Hin).
Qed.

Lemma merge_json_self v : well_formed v -> merge_json v v = v.
Proof.
  induction v as [x | n IH] using json_nested_ind; intros Hv; [done |].
  rewrite merge_json_dict. f_equal. symmetry.
  pose proof Hv as [Hnk Hnv]%well_formed_dict.
  apply items_ext; [done | |].
  - rewrite update_config_keys by done.
    rewrite filter_absent_nil by (intros k0 Hk0; exact Hk0). by rewrite app_nil_r.
  - intros k. rewrite update_config_lookup by done.
    destruct (dict_lookup k n) as [v |] eqn:Hkn; [| done]. f_equal.
    pose proof (dict_lookup_Some_elem _ _ _ Hkn) as Hin.
    rewrite Forall_forall in IH, Hnv. symmetry.
    apply (IH _ Hin). apply (Hnv _ Hin).
Qed.

Lemma merge_json_twice v :
  forall old, well_formed old -> well_formed v ->
    merge_json (merge_json old v) v = merge_json old v.
Proof.
  induction v as [x | n IH] using json_nested_ind; intros old Hold Hv.
  - by rewrite !merge_json_value.
  - destruct old as [x | b].
    { change (merge_json (JValue x) (JDict n)) with (JDict n).
      by apply merge_json_self. }
    rewrite !merge_json_dict. f_equal.
    pose proof Hold as [Hbk Hbv]%well_formed_dict.
    pose proof Hv as [Hnk Hnv]%well_formed_dict.
    symmetry. apply items_ext; [by apply update_config_NoDup | |].
    + rewrite (update_config_keys (_update_config b n)) by done.
      rewrite filter_absent_nil; [by rewrite app_nil_r |].
      intros k Hk. rewrite update_config_keys by done.
      destruct (decide (k ∈ b.*1)) as [Hin | Hout];
        apply elem_of_app; [by left | right].
      apply list_elem_of_In, filter_In. split; [by apply list_elem_of_In |].
      by rewrite bool_decide_eq_false_2.
    + intros k. rewrite (update_config_lookup (_update_config b n)) by done.
      rewrite update_config_lookup by done.
      destruct (dict_lookup k n) as [v |] eqn:Hkn; [| done]. f_equal.
      pose proof (dict_lookup_Some_elem _ _ _ Hkn) as Hin.
      rewrite Forall_forall in IH, Hnv. symmetry.
      destruct (dict_lookup k b) as [o |] eqn:Hkb.
      * apply (IH _ Hin); [| apply (Hnv _ Hin)].
        exact (well_formed_lookup k o b Hold Hkb).
      * apply merge_json_self, (Hnv _ Hin).
Qed.

(** X22: merging the same configuration a second time changes nothing:
    for dictionaries without repeated keys, [_update_config] applied again
    with the same new configuration returns the base as the first call
    left it. *)
Theorem update_config_idempotent base new :
  well_formed (JDict base) -> well_formed (JDict new) ->
  _update_config (_update_config base new) new = _update_config base new.
Proof.
  intros Hb Hn.
  pose proof (merge_json_twice (JDict new) (JDict base) Hb Hn) as H.
  rewrite !merge_json_dict in H. by injection H.
Qed.

(** X23: [_update_config] keeps dictionaries well formed: when neither
    the base nor the new configuration repeats a key at any depth, no key
    is repeated at any depth of the result. *)
Theorem update_config_well_formed base new :
  well_formed (JDict base) -> well_formed (JDict new) ->
  well_formed (JDict (_update_config base new)).
Proof.
  intros Hb Hn. rewrite <- merge_json_dict. by apply merge_json_well_formed.
Qed.

End UpdateConfigFacts.

Section UpdateConfigWitnesses.
Import MainAgent.

Lemma update_config_merges_witness :
  dict_lookup "modules" (_update_config sample_base sample_custom)
  = Some (JDict [ ("cme_volume"%string,
                   JDict [ ("enabled"%string, JValue false);
                           ("verbose"%string, JValue false) ]) ])
  /\ (_update_config sample_base sample_custom).*1
     = ["use_mock_data"; "modules"; "debug"]%string.
Proof.
  destruct (update_config_merges sample_base sample_custom) as [Hlook Hkeys].
  - apply NoDup_ListNoDup. repeat constructor; simpl; intuition discriminate.
  - split; [rewrite Hlook | rewrite Hkeys]; reflexivity.
Defined.

Lemma sample_well_formed :
  well_formed (JDict sample_base) /\ well_formed (JDict sample_custom).
Proof.
  split; simpl; repeat split;
    apply NoDup_ListNoDup; repeat constructor; simpl; intuition discriminate.
Qed.

Lemma update_config_idempotent_witness :
  _update_config (_update_config sample_base sample_custom) sample_custom
  = _update_config sample_base sample_custom.
Proof.
  apply update_config_idempotent; apply sample_well_formed.
Defined.

Lemma update_config_well_formed_witness :
  well_formed (JDict (_update_config sample_base sample_custom)).
Proof.
  apply update_config_well_formed; apply sample_well_formed.
Defined.

End UpdateConfigWitnesses.

Section OrderFacts.
Import CMEVolume Reading.

Lemma sort_values_unique (df1 df2 : list volume_row) :
  df1 ≡ₚ df2 -> NoDup (date <$> df1) -> sort_values df1 = sort_values df2.
Proof.
  intros Hperm Hnd.
  apply (StronglySorted_unique_strong (fun a b => date a <= date b)).
  - intros r1 r2 H1 H2 Hle1 Hle2.
    rewrite sort_values_perm in H1. rewrite sort_values_perm, <- Hperm in H2.
    assert (date r1 = date r2) as Hd by lia.
    apply list_elem_of_lookup in H1 as [i Hi], H2 as [j Hj].
    assert (i = j) as ->.
    { apply (NoDup_lookup (date <$> df1) i j (date r1)); [done | |];
        rewrite list_lookup_fmap; [by rewrite Hi | by rewrite Hj, Hd]. }
    congruence.
  - apply sort_values_sorted.
  - apply sort_values_sorted.
  - by rewrite !sort_values_perm.
Qed.

(** X24: the order in which the rows of a contract are stored does not
    matter: for rows with pairwise different dates, two trackers that
    have the same configuration and hold the same rows in any order
    return the same spike events (or raise the same error). *)
Theorem spike_detection_ignores_row_order (self1 self2 : CMEVolumeTracker)
    (contract : string) (df1 df2 : list volume_row) (lookback_period : Z) :
  config self1 = config self2 ->
  volume_data self1 !! contract = Some df1 ->
  volume_data self2 !! contract = Some df2 ->
  df1 ≡ₚ df2 ->
  NoDup (date <$> df1) ->
  detect_volume_spikes self1 contract lookback_period
  = detect_volume_spikes self2 contract lookback_period.
Proof.
  intros Hcfg H1 H2 Hperm Hnd. unfold detect_volume_spikes.
  by rewrite H1, H2, Hcfg, (sort_values_unique df1 df2).
Qed.

Lemma spike_detection_ignores_row_order_witness :
  detect_volume_spikes
    (store_volume (init None) "ES"
       [ {| date := strptime 1; volume := 400 |};
         {| date := strptime 0; volume := 100 |} ]) "ES" 10
  = detect_volume_spikes (store_volume (init None) "ES" (daily [100; 400])) "ES" 10.
Proof.
  apply (spike_detection_ignores_row_order _ _ "ES"
           [ {| date := strptime 1; volume := 400 |};
             {| date := strptime 0; volume := 100 |} ] (daily [100; 400]));
    try reflexivity.
  - apply perm_swap.
  - apply NoDup_ListNoDup. repeat constructor; simpl; intuition discriminate.
Defined.

End OrderFacts.

(** ** The detectors in binary64 *)

Section Binary64Facts.
Import CMEVolume Reading.

(** Conversions and quotients of integers that doubles hold exactly. *)
Lemma of_int_exact (v : Z) : Z.abs v <= 2 ^ 53 -> of_int v = Finite (inject_Z v).
Proof. apply round64_Z. Qed.

Lemma truediv_int (a b : Z) :
  Z.abs a <= 2 ^ 53 -> Z.abs b <= 2 ^ 53 -> b <> 0 ->
  truediv (of_int a) (of_int b) = round64 (inject_Z a / inject_Z b).
Proof.
  intros Ha Hb Hnz. rewrite !of_int_exact by done. unfold truediv.
  destruct (Qeq_bool (inject_Z b) 0) eqn:E; [| done].
  apply Qeq_bool_iff in E. unfold Qeq in E. simpl in E. lia.
Qed.

Lemma sum_Z_abs_bound (l : list Z) (m : Z) :
  Forall (fun v => Z.abs v <= m) l -> Z.abs (sum_Z l) <= Z.of_nat (length l) * m.
Proof.
  induction 1 as [| v l Hv Hl IH]; [done |].
  unfold sum_Z in *. cbn [foldr length]. lia.
Qed.

(** The sum of a window of at most [n] values stays in the exact range. *)
Lemma window_sum_exact (w : nat) (xs : list Z) (i : nat) (n : Z) :
  0 <= n -> Z.of_nat w <= n ->
  Forall (fun v => Z.abs v * (n + 1) <= 2 ^ 53) xs ->
  Z.abs (sum_Z (window_at w xs i)) <= 2 ^ 53.
Proof.
  intros Hn Hw Hxs.
  set (m := 2 ^ 53 / (n + 1)).
  assert (Forall (fun v => Z.abs v <= m) (window_at w xs i)) as Hwin.
  { rewrite Forall_forall. intros v Hv%window_at_sublist.
    rewrite Forall_forall in Hxs. specialize (Hxs v Hv).
    unfold m. apply Z.div_le_lower_bound; lia. }
  apply sum_Z_abs_bound in Hwin.
  assert (length (window_at w xs i) <= w)%nat as Hlen.
  { unfold window_at. rewrite length_drop, length_take. lia. }
  assert (0 <= m) as Hm by (unfold m; apply Z.div_pos; lia).
  assert ((n + 1) * m <= 2 ^ 53) as Hmul by (unfold m; apply Z.mul_div_le; lia).
  nia.
Qed.

Lemma mean64_exact (l : list Z) :
  l <> [] -> Z.abs (sum_Z l) <= 2 ^ 53 -> Z.of_nat (length l) <= 2 ^ 53 ->
  CMEVolume64.mean l = round64 (mean l).
Proof.
  intros Hne Hs Hl. unfold CMEVolume64.mean, mean.
  apply truediv_int; [done | lia |]. destruct l; [done | simpl; lia].
Qed.

Lemma rolling_mean64_lookup (w : nat) (xs : list Z) (i : nat) :
  (1 <= w)%nat -> (i < length xs)%nat ->
  CMEVolume64.rolling_mean w 1 xs !! i = Some (CMEVolume64.mean (window_at w xs i)).
Proof.
  intros Hw Hi. unfold CMEVolume64.rolling_mean.
  rewrite list_lookup_fmap, lookup_seq_lt by done. simpl.
  pose proof (window_at_length w xs i Hi) as Hlen.
  destruct (Nat.ltb_spec (length (window_at w xs i)) 1); [lia | done].
Qed.

Lemma add_columns64_lookup (w : nat) (df : list volume_row) (i : nat) (r : volume_row) :
  (1 <= w)%nat -> df !! i = Some r ->
  CMEVolume64.add_columns w df !! i
  = Some {| sr_pos := i; sr_row := r;
            avg_volume := CMEVolume64.mean (window_at w (volume <$> df) i);
            volume_ratio := inclusive_ratio64 w (volume <$> df) i |}.
Proof.
  intros Hw Hr. unfold CMEVolume64.add_columns, inclusive_ratio64.
  rewrite list_lookup_imap, Hr. simpl.
  rewrite rolling_mean64_lookup; [| done |].
  - by rewrite list_lookup_fmap, Hr.
  - rewrite length_fmap. by eapply lookup_lt_Some.
Qed.

Lemma add_columns64_elem (w : nat) (df : list volume_row) (s : scored_row) :
  (1 <= w)%nat -> s ∈ CMEVolume64.add_columns w df ->
  df !! sr_pos s = Some (sr_row s)
  /\ avg_volume s = CMEVolume64.mean (window_at w (volume <$> df) (sr_pos s))
  /\ volume_ratio s = inclusive_ratio64 w (volume <$> df) (sr_pos s).
Proof.
  intros Hw [i Hi]%list_elem_of_lookup.
  assert (is_Some (df !! i)) as [r Hr].
  { apply lookup_lt_is_Some.
    replace (length df) with (length (CMEVolume64.add_columns w df))
      by (unfold CMEVolume64.add_columns; by rewrite length_imap).
    by eapply lookup_lt_Some. }
  rewrite (add_columns64_lookup w df i r Hw Hr) in Hi.
  injection Hi as <-. simpl. by rewrite Hr.
Qed.

Lemma spike_positions64_filter (w : nat) (t : Q) (df : list volume_row) :
  (1 <= w)%nat ->
  spike_positions64 w t df
  = List.filter (fun i => float_gt (inclusive_ratio64 w (volume <$> df) i) (round64 t))
      (seq 0 (length df)).
Proof.
  intros Hw. unfold spike_positions64, CMEVolume64.spike_df.
  pose proof (filter_imap_positions
    (fun i r => {| sr_pos := i; sr_row := r;
                   avg_volume :=
                     default NaN (CMEVolume64.rolling_mean w 1 (volume <$> df) !! i);
                   volume_ratio := truediv (of_int (volume r))
                     (default NaN (CMEVolume64.rolling_mean w 1 (volume <$> df) !! i)) |})
    sr_pos (fun s => float_gt (volume_ratio s) (round64 t))
    (fun i => float_gt (inclusive_ratio64 w (volume <$> df) i) (round64 t)) df 0) as H.
  simpl in H. unfold CMEVolume64.add_columns. apply H; [done |].
  intros i r Hr. unfold inclusive_ratio64.
  rewrite rolling_mean64_lookup; [| done |].
  - by rewrite list_lookup_fmap, Hr.
  - rewrite length_fmap. by eapply lookup_lt_Some.
Qed.

Lemma sorted_frame_unique (df sorted : list volume_row) :
  NoDup (date <$> df) -> sorted ≡ₚ df ->
  StronglySorted (fun a b => date a <= date b) sorted -> sorted = sort_values df.
Proof.
  intros Hnd Hperm Hsorted.
  apply (StronglySorted_unique_strong (fun a b => date a <= date b)).
  - intros r1 r2 H1 H2 Hle1 Hle2.
    rewrite Hperm in H1. rewrite sort_values_perm in H2.
    assert (date r1 = date r2) as Hd by lia.
    apply list_elem_of_lookup in H1 as [i Hi], H2 as [j Hj].
    assert (i = j) as ->.
    { apply (NoDup_lookup (date <$> df) i j (date r1)); [done | |];
        rewrite list_lookup_fmap; [by rewrite Hi | by rewrite Hj, Hd]. }
    congruence.
  - done.
  - apply sort_values_sorted.
  - by rewrite sort_values_perm.
Qed.

(** C1, as the specification words it, fails: with the baseline taken over
    the points before [i] only, the series [100, 160] has a spike at
    position 1 (ratio 1.6 > 1.5), while the detector, whose window
    contains the point itself, finds the ratio 160/130 and emits nothing. *)
Lemma preceding_baseline_refuted :
  ~ (forall (w : nat) (t : Q) (xs : list Z),
       (1 <= w)%nat ->
       spike_positions64 w t (daily xs) = spec_spike_positions w t xs).
Proof.
  intros H. specialize (H 10%nat (3 # 2)%Q [100; 160] ltac:(lia)).
  vm_compute in H. discriminate H.
Qed.

(** C1, amended: on a tracker that holds at least one row for the contract,
    with pairwise different dates, and for a window [w] of at least 1, the
    detector returns, in date order, exactly the rows whose ratio exceeds
    the configured threshold.  The ratio of point [i] is its value over
    its baseline, computed in doubles, and the baseline is the mean of the
    last [min (i+1) w] points up to and including [i], rounded to the
    nearest double; no point is skipped for want of predecessors.  (The
    volumes are taken small enough for the sums of [w + 1] of them to be
    exact in doubles: this is what makes the rolling mean of pandas the
    rounded exact mean.)  On [100]*20 with 500 at index 15, [w = 10] and
    the default threshold 1.5, it returns one event, at index 15, of
    baseline 140 and of ratio the double nearest to 25/7,
    3.5714285714285716. *)
Theorem spike_detector_inclusive_baseline :
  (forall (self : CMEVolumeTracker) (contract : string) (df : list volume_row)
          (lookback_period : Z),
      volume_data self !! contract = Some df ->
      df <> [] ->
      NoDup (date <$> df) ->
      1 <= lookback_period < 2 ^ 53 ->
      Forall (fun r => Z.abs (volume r) * (lookback_period + 1) <= 2 ^ 53) df ->
      let w := Z.to_nat lookback_period in
      let t := round64 (volume_spike (thresholds (config self))) in
      let xs := volume <$> sort_values df in
      (forall sorted, sorted ≡ₚ df ->
         StronglySorted (fun a b => date a <= date b) sorted ->
         sorted = sort_values df)
      /\ exists rows : list scored_row,
           CMEVolume64.detect_volume_spikes self contract lookback_period
           = Ok (format_event contract <$> rows)
           /\ sr_pos <$> rows
              = List.filter (fun i => float_gt (inclusive_ratio64 w xs i) t)
                  (seq 0 (length xs))
           /\ (forall s, s ∈ rows ->
                 sort_values df !! sr_pos s = Some (sr_row s)
                 /\ avg_volume s = round64 (mean (window_at w xs (sr_pos s)))
                 /\ volume_ratio s
                    = truediv (Finite (inject_Z (volume (sr_row s)))) (avg_volume s)
                 /\ float_gt (volume_ratio s) t = true)
           /\ (forall i, (i < length xs)%nat ->
                 inclusive_ratio64 w xs i
                 = match xs !! i with
                   | Some v => truediv (Finite (inject_Z v))
                                 (round64 (mean (window_at w xs i)))
                   | None => NaN
                   end
                 /\ length (window_at w xs i) = (S i `min` w)%nat
                 /\ forall k, (k < S i `min` w)%nat ->
                      window_at w xs i !! k = xs !! (S i - S i `min` w + k)%nat))
  /\ (exists (e : spike_event) (q : Q),
        CMEVolume64.detect_volume_spikes
          (store_volume (init None) "ES" (daily injected_series)) "ES" 10
        = Ok [e]
        /\ ev_date e = strptime 15 /\ ev_volume e = 500
        /\ ev_avg_volume e = Finite 140
        /\ ev_ratio e = Finite q
        /\ (q == 8042142191733029 # 2251799813685248)%Q
        /\ (Qabs (q - (25 # 7)) <= pow2 (-52))%Q).
Proof.
  split.
  - intros self contract df lookback_period Hdf Hne Hnd [Hw Hwmax] Hvol w t xs.
    assert (1 <= w)%nat as Hw' by (unfold w; lia).
    split; [intros sorted; by apply sorted_frame_unique |].
    assert (Forall (fun v => Z.abs v * (lookback_period + 1) <= 2 ^ 53) xs) as Hxs.
    { unfold xs. rewrite Forall_fmap.
      eapply Forall_impl; [| by intros r Hr; exact Hr].
      by rewrite sort_values_perm. }
    assert (forall i v, xs !! i = Some v ->
              Z.abs v <= 2 ^ 53
              /\ CMEVolume64.mean (window_at w xs i) = round64 (mean (window_at w xs i)))
      as Hexact.
    { intros i v Hv. pose proof (lookup_lt_Some _ _ _ Hv) as Hi. split.
      - rewrite Forall_forall in Hxs.
        pose proof (Hxs v (list_elem_of_lookup_2 _ _ _ Hv)) as Hb.
        assert (Z.abs v * 1 <= Z.abs v * (lookback_period + 1)) as Hmul
          by (apply Z.mul_le_mono_nonneg_l; lia).
        rewrite Z.mul_1_r in Hmul. by etrans.
      - apply mean64_exact.
        + intros E. pose proof (window_at_length w xs i Hi) as Hlen.
          rewrite E in Hlen. cbn [length] in Hlen. lia.
        + apply (window_sum_exact w xs i lookback_period); [lia | unfold w; lia | done].
        + rewrite window_at_length by done. unfold w. lia. }
    exists (CMEVolume64.spike_df w (volume_spike (thresholds (config self)))
              (sort_values df)).
    split; [| split; [| split]].
    + unfold CMEVolume64.detect_volume_spikes. by rewrite Hdf, rolling_ok.
    + fold (spike_positions64 w (volume_spike (thresholds (config self)))
              (sort_values df)).
      rewrite spike_positions64_filter by done. unfold xs. by rewrite length_fmap.
    + intros s Hs. unfold CMEVolume64.spike_df in Hs.
      apply list_elem_of_In, filter_In in Hs as [Hs Hgt]. apply list_elem_of_In in Hs.
      destruct (add_columns64_elem w _ s Hw' Hs) as (Hrow & Havg & Hratio).
      fold xs in Havg, Hratio.
      assert (xs !! sr_pos s = Some (volume (sr_row s))) as Hv.
      { unfold xs. by rewrite list_lookup_fmap, Hrow. }
      destruct (Hexact _ _ Hv) as [Hb Hm].
      split; [done |]. split; [by rewrite Havg |]. split; [| done].
      rewrite Hratio. unfold inclusive_ratio64. rewrite Hv, <- Havg.
      by rewrite of_int_exact.
    + intros i Hi. split; [| split; [by apply window_at_length |]].
      * unfold inclusive_ratio64. destruct (xs !! i) as [v |] eqn:Hv; [| done].
        destruct (Hexact _ _ Hv) as [Hb Hm]. by rewrite Hm, of_int_exact.
      * intros k Hk. by apply window_at_lookup.
  - eexists _, _. split; [vm_compute; reflexivity |].
    repeat split; vm_compute; intros; discriminate.
Qed.

Lemma spike_detector_inclusive_baseline_witness :
  exists rows : list scored_row,
    CMEVolume64.detect_volume_spikes
      (store_volume (init None) "ES" (daily injected_series)) "ES" 10
    = Ok (format_event "ES" <$> rows)
    /\ sr_pos <$> rows = [15%nat].
Proof.
  destruct (proj1 spike_detector_inclusive_baseline
              (store_volume (init None) "ES" (daily injected_series)) "ES"
              (daily injected_series) 10)
    as (_ & rows & Hrun & Hpos & _).
  - vm_compute. reflexivity.
  - discriminate.
  - apply (bool_decide_unpack _). vm_compute. exact I.
  - lia.
  - apply (bool_decide_unpack _). vm_compute. exact I.
  - exists rows. split; [exact Hrun |]. rewrite Hpos. vm_compute. reflexivity.
Defined.


(** *** Open interest in doubles *)












End Binary64Facts.

Section KeyErrorFacts.
Import CMEVolume Reading.

Variable mock_data : string -> list volume_row * list oi_row.
Variable render_message : string -> cme_event -> list nearby_event -> string.

Lemma make_alerts_unconfigured (self : tracker_state alert) (contract : string)
    (events : list cme_event) :
  Forall (fun e => event_contract e ∉ (contracts (config (tracker self))).*1) events ->
  events <> [] ->
  make_alerts render_message self contract events = Raise KeyError.
Proof.
  intros Hall Hne. destruct events as [| ev events]; [done |].
  apply Forall_cons in Hall as [Hev _]. simpl.
  unfold make_alert, _create_alert_message.
  destruct (list_find _ _) as [[i c] |] eqn:Hfind; [| done].
  exfalso. apply list_find_Some in Hfind as (Hi & Hc & _).
  apply Hev. apply list_elem_of_fmap. exists c. split; [done |].
  by eapply list_elem_of_lookup_2.
Qed.

(** X25: a request for a contract that is not configured raises
    [KeyError] as soon as data stored for that contract yields an event
    later than the cutoff: the alert message needs the name of the
    contract, which the configuration does not have.  Nothing is fetched
    for such a contract, and the alerts stored before are kept. *)
Theorem generate_alerts_unconfigured_contract (now : datetime)
    (self : tracker_state alert) (contract : string)
    (events : list cme_event) (e : cme_event) :
  contract ∉ (contracts (config (tracker self))).*1 ->
  contract_events self contract = Ok events ->
  e ∈ events ->
  now - alert_period (thresholds (config (tracker self))) * us_per_day
  < event_date e ->
  generate_alerts mock_data render_message now self (Some [contract])
  = (self, Raise KeyError).
Proof.
  intros Hout Hev He Hrecent. unfold generate_alerts. cbn [alerts_loop].
  assert ((if bool_decide (is_Some (volume_data (tracker self) !! contract))
              && bool_decide (is_Some (oi_data self !! contract))
           then self else fetch_cme_data mock_data self contract) = self) as ->.
  { destruct (_ && _); [done |]. unfold fetch_cme_data.
    by rewrite bool_decide_eq_false_2. }
  rewrite Hev.
  rewrite make_alerts_unconfigured; [done | |].
  - apply Forall_forall. intros e' [He' _]%list_elem_of_In%filter_In.
    destruct (contract_events_ok self contract) as (events' & Hev' & _ & Hc & _).
    rewrite Hev in Hev'. injection Hev' as <-.
    rewrite Forall_forall in Hc. rewrite (Hc e'); [done |].
    by apply list_elem_of_In.
  - intros Hnil.
    assert (In e (List.filter
                    (fun e0 =>
                       now - alert_period (thresholds (config (tracker self)))
                             * us_per_day <? event_date e0) events)) as Hin.
    { apply filter_In. split; [by apply list_elem_of_In |]. by apply Z.ltb_lt. }
    by rewrite Hnil in Hin.
Qed.

End KeyErrorFacts.

Section KeyErrorWitness.
Import CMEVolume Reading.

Lemma generate_alerts_unconfigured_contract_witness :
  let self := {| tracker := store_volume (init None) "ZZ" (daily injected_series);
                 oi_data := ∅; alerts := [] |} in
  generate_alerts (fun _ => ([], [])) (fun name _ _ => name) (strptime 20) self
    (Some ["ZZ"%string])
  = (self, Raise KeyError).
Proof.
  intros self.
  destruct (contract_events self "ZZ") as [events | ?] eqn:Hev;
    [| revert Hev; vm_compute; discriminate].
  assert (exists e, e ∈ events /\ event_date e = strptime 15) as (e & He & Hd).
  { revert Hev. vm_compute. intros [= <-]. eexists. split; [left |]. reflexivity. }
  apply (generate_alerts_unconfigured_contract _ _ (strptime 20) self "ZZ" events e);
    [| exact Hev | exact He |].
  - vm_compute. intros Hin%list_elem_of_In. simpl in Hin. intuition discriminate.
  - rewrite Hd. vm_compute. reflexivity.
Defined.

End KeyErrorWitness.

Section ReadingFacts.
Import MacroSentiment.

(** X26: when the low threshold of the VIX is not above the high one, the
    volatility regime never decreases as the VIX increases, and the three
    regimes are the values below the low threshold, between the two
    thresholds (both included), and above the high threshold. *)
Theorem vix_regime_monotone (cfg : config_t) (v1 v2 : Q) :
  (vix_threshold_low cfg <= vix_threshold_high cfg)%Q ->
  ((v1 <= v2)%Q ->
   (vix_rank (_interpret_vix cfg v1) <= vix_rank (_interpret_vix cfg v2))%nat)
  /\ (_interpret_vix cfg v1 = low_volatility <-> (v1 < vix_threshold_low cfg)%Q)
  /\ (_interpret_vix cfg v1 = normal_volatility
      <-> (vix_threshold_low cfg <= v1 <= vix_threshold_high cfg)%Q)
  /\ (_interpret_vix cfg v1 = high_volatility <-> (vix_threshold_high cfg < v1)%Q).
Proof.
  intros Hth. unfold _interpret_vix.
  destruct (Qltb v1 (vix_threshold_low cfg)) eqn:E1;
    [apply Qltb_lt in E1 | apply Qltb_ge in E1];
    (destruct (Qltb (vix_threshold_high cfg) v1) eqn:E2;
      [apply Qltb_lt in E2 | apply Qltb_ge in E2]);
    (destruct (Qltb v2 (vix_threshold_low cfg)) eqn:E3;
      [apply Qltb_lt in E3 | apply Qltb_ge in E3]);
    (destruct (Qltb (vix_threshold_high cfg) v2) eqn:E4;
      [apply Qltb_lt in E4 | apply Qltb_ge in E4]);
    simpl; repeat split; intros; try done; try lia; try lra.
Qed.

Lemma vix_regime_monotone_witness :
  (vix_rank (_interpret_vix default_config 12)
   <= vix_rank (_interpret_vix default_config 30))%nat
  /\ _interpret_vix default_config 20 = normal_volatility.
Proof.
  destruct (vix_regime_monotone default_config 12 30) as [Hmono _].
  - simpl. lra.
  - destruct (vix_regime_monotone default_config 20 20) as (_ & _ & Hnormal & _).
    + simpl. lra.
    + split; [apply Hmono; lra | apply Hnormal; simpl; lra].
Defined.

(** X27: from the numbers on the pages (within the range of the doubles)
    to the rating when no economic data is fetched: with a VIX reading,
    the yields that were found (none of them named "10y_2y_spread") and
    the empty economic data, a rating
    is returned without inflation environment and growth outlook; it is
    bullish exactly when the VIX (as a double) is below the low threshold
    and the rounded difference of the 10-year and the 2-year yield, if
    both are there, is not below the inversion threshold; it is bearish
    exactly when the VIX is above the high threshold (and not below the
    low one) or that spread is below the inversion threshold. *)
Theorem rating_from_readings (cfg : config_t) (v : Q) (found : gmap string Q)
    (t1 t2 t3 now : Z) :
  found !! "10y_2y_spread"%string = None ->
  (Qabs v <= pow2 1000)%Q ->
  (forall k y, found !! k = Some y -> (Qabs y <= pow2 1000)%Q) ->
  let self := fetch_economic_data false t3
                (fetch_treasury_yields (Some found) t2
                   (fetch_vix (Some v) t1 (new_analyzer cfg))) in
  let is_inverted :=
    exists y2 y10, found !! "2y"%string = Some y2
                   /\ found !! "10y"%string = Some y10
                   /\ (round_fin (round_fin y10 - round_fin y2)
                       < yield_curve_inversion cfg)%Q in
  exists rating,
    snd (rate_macro_environment now self) = Some rating
    /\ inflation_environment rating = None
    /\ growth_outlook rating = None
    /\ (overall_environment rating = env_bullish
        <-> (round_fin v < vix_threshold_low cfg)%Q /\ ~ is_inverted)
    /\ (overall_environment rating = env_bearish
        <-> ((vix_threshold_low cfg <= round_fin v)%Q
             /\ (vix_threshold_high cfg < round_fin v)%Q)
            \/ is_inverted).
Proof.
  intros Hnone _ _ self is_inverted.
  destruct (yield_curve_cases found t2
              (fetch_vix (Some v) t1 (new_analyzer cfg)) Hnone)
    as (y & Hy & _ & Hunk & Hcases).
  simpl in Hy. injection Hy as <-. simpl in Hunk, Hcases.
  remember (_interpret_yield_curve cfg (add_spreads (round_fin <$> found)))
    as yi eqn:Hyi.
  assert (yi = inverted <-> is_inverted) as Hinv.
  { unfold is_inverted. split.
    - intros Hi.
      destruct (found !! "2y"%string) as [y2 |] eqn:E2,
               (found !! "10y"%string) as [y10 |] eqn:E10;
        try (assert (yi = unknown) as Hu by (apply Hunk; auto); congruence).
      exists y2, y10. repeat split; try done.
      by apply (Hcases y2 y10 eq_refl eq_refl).
    - intros (y2 & y10 & H2 & H10 & Hlt). by apply (Hcases y2 y10 H2 H10). }
  clear Hunk Hcases.
  set (x := round_fin v) in *.
  exists {| risk_sentiment := determine_risk (_interpret_vix cfg x) yi;
            inflation_environment := None;
            growth_outlook := None;
            overall_environment :=
              determine_overall (determine_risk (_interpret_vix cfg x) yi) None None;
            timestamp := now |}.
  split.
  { unfold self, rate_macro_environment. cbn. fold x. by rewrite <- Hyi. }
  clear Hyi. cbn. split; [done |]. split; [done |].
  unfold determine_overall, determine_risk, _interpret_vix.
  destruct (Qltb x (vix_threshold_low cfg)) eqn:E1;
    [apply Qltb_lt in E1 | apply Qltb_ge in E1];
    (destruct (Qltb (vix_threshold_high cfg) x) eqn:E2;
      [apply Qltb_lt in E2 | apply Qltb_ge in E2]);
    destruct yi; simpl;
    first [ assert (~ is_inverted) as Hn by (intros ?%Hinv; discriminate)
          | assert is_inverted as Hy by (by apply Hinv) ];
    clear Hinv; split; split; intros; try done;
    intuition (try done; try lra).
Qed.

Lemma rating_from_readings_witness :
  exists rating,
    snd (rate_macro_environment 9
           (fetch_economic_data false 3
              (fetch_treasury_yields
                 (Some {[ "2y"%string := (1 # 10)%Q; "10y"%string := (6 # 10)%Q ]}) 2
                 (fetch_vix (Some 12%Q) 1 (new_analyzer default_config)))))
    = Some rating
    /\ overall_environment rating = env_bullish.
Proof.
  destruct (rating_from_readings default_config 12
              {[ "2y"%string := (1 # 10)%Q; "10y"%string := (6 # 10)%Q ]} 1 2 3 9)
    as (rating & Hret & _ & _ & Hbull & _).
  - reflexivity.
  - vm_compute. discriminate.
  - intros k y [[_ <-] | [_ [_ <-]%lookup_singleton_Some]]%lookup_insert_Some;
      vm_compute; discriminate.
  - exists rating. split; [exact Hret |]. apply Hbull. split; [reflexivity |].
    intros (y2 & y10 & H2 & H10 & Hlt).
    vm_compute in H2, H10. injection H2 as <-. injection H10 as <-.
    revert Hlt. vm_compute. discriminate.
Defined.

End ReadingFacts.
